(** * pdf_to_excel: the extraction-and-reconciliation pipeline of [processor.py]

    A shallow embedding of [src/processor.py] and the proofs of its
    specification.

    Conventions of the embedding.
    - A Python [str] is the list of its Unicode code points ([pystr]); Python
      compares strings code point by code point, which is [str_compare].
    - A cell of an extracted table is a text or missing ([cell]): the value
      [None] stands for pandas' [NaN] / [pd.NA].
    - Numbers are exact rationals ([Q]), and a numeric cell is [option Q],
      [None] standing for [NaN].  The program holds 64-bit numbers: the model
      agrees with it on numbers written with at most 15 digits, other than
      the tokens for infinity, and on sums of whole numbers that stay below
      2^53.  The statements about numeric values and about the order of
      numeric codes are made for these ([plain_code], [plain_value],
      [exact_values]).
    - A raised exception is a value of [exn], carried by [result].  The
      model covers the exceptions that [processor.py] raises itself; the
      reconciliation is modelled for documents with distinct identifiers that
      have a code, which is where pandas raises nothing of its own.
    - The log callback of [process_pdfs] does not affect the result;
      [process_pdfs_log] is the function with its log. *)

From Stdlib Require Import String Ascii.
From Stdlib Require Import List ZArith NArith QArith Qabs Qreduction Lia Bool.
From Stdlib Require Import Permutation Sorted Lqa.
From Stdlib Require Qcanon.
Import ListNotations.

Set Implicit Arguments.
Close Scope Q_scope.

(* ================================================================== *)
(** * Part I: the program *)
(* ================================================================== *)

(** ** Python strings *)

Notation char := N (only parsing).
Notation pystr := (list N) (only parsing).
Notation cell := (option (list N)) (only parsing).

Fixpoint bytes_of (s : string) : list N :=
  match s with
  | EmptyString => []
  | String a s' => N_of_ascii a :: bytes_of s'
  end.

(** UTF-8 decoding of a source literal, to write texts readably. *)
Fixpoint utf8_decode (bs : list N) : pystr :=
  match bs with
  | [] => []
  | b0 :: r =>
    if (b0 <? 128)%N then b0 :: utf8_decode r
    else if (b0 <? 224)%N then
      match r with
      | b1 :: r1 => ((b0 - 192) * 64 + (b1 - 128))%N :: utf8_decode r1
      | [] => [b0]
      end
    else if (b0 <? 240)%N then
      match r with
      | b1 :: b2 :: r2 =>
        ((b0 - 224) * 4096 + (b1 - 128) * 64 + (b2 - 128))%N :: utf8_decode r2
      | _ => [b0]
      end
    else
      match r with
      | b1 :: b2 :: b3 :: r3 =>
        ((b0 - 240) * 262144 + (b1 - 128) * 4096 + (b2 - 128) * 64 + (b3 - 128))%N
          :: utf8_decode r3
      | _ => [b0]
      end
  end.

Definition py (s : string) : pystr := utf8_decode (bytes_of s).

Definition char_eqb (a b : char) : bool := (a =? b)%N.

Fixpoint str_eqb (a b : pystr) : bool :=
  match a, b with
  | [], [] => true
  | x :: a', y :: b' => char_eqb x y && str_eqb a' b'
  | _, _ => false
  end.

(** Python's [<] on [str]: lexicographic on code points. *)
Fixpoint str_compare (a b : pystr) : comparison :=
  match a, b with
  | [], [] => Eq
  | [], _ :: _ => Lt
  | _ :: _, [] => Gt
  | x :: a', y :: b' =>
    match (x ?= y)%N with
    | Eq => str_compare a' b'
    | c => c
    end
  end.

(** [str.isspace] for one character, which is also what [\s] matches in a
    [str] pattern. *)
Definition is_space (c : char) : bool :=
  ((9 <=? c) && (c <=? 13) || (28 <=? c) && (c <=? 32)
   || (c =? 133) || (c =? 160) || (c =? 5760)
   || (8192 <=? c) && (c <=? 8202)
   || (c =? 8232) || (c =? 8233) || (c =? 8239) || (c =? 8287)
   || (c =? 12288))%N.

(** The ASCII digits [0]..[9]: the digits that [pd.to_numeric] reads. *)
Definition is_digit (c : char) : bool := ((48 <=? c) && (c <=? 57))%N.

(** [str.isdecimal] for one character, which is what [\d] matches in a
    [str] pattern: the decimal digits of all scripts.  The table is that of
    Unicode 14.0, the version of CPython 3.11: the first and the last code
    point of each run of decimal digits. *)
Definition decimal_runs : list (N * N) :=
  [(48, 57); (1632, 1641); (1776, 1785); (1984, 1993); (2406, 2415);
   (2534, 2543); (2662, 2671); (2790, 2799); (2918, 2927); (3046, 3055);
   (3174, 3183); (3302, 3311); (3430, 3439); (3558, 3567); (3664, 3673);
   (3792, 3801); (3872, 3881); (4160, 4169); (4240, 4249); (6112, 6121);
   (6160, 6169); (6470, 6479); (6608, 6617); (6784, 6793); (6800, 6809);
   (6992, 7001); (7088, 7097); (7232, 7241); (7248, 7257); (42528, 42537);
   (43216, 43225); (43264, 43273); (43472, 43481); (43504, 43513);
   (43600, 43609); (44016, 44025); (65296, 65305); (66720, 66729);
   (68912, 68921); (69734, 69743); (69872, 69881); (69942, 69951);
   (70096, 70105); (70384, 70393); (70736, 70745); (70864, 70873);
   (71248, 71257); (71360, 71369); (71472, 71481); (71904, 71913);
   (72016, 72025); (72784, 72793); (73040, 73049); (73120, 73129);
   (92768, 92777); (92864, 92873); (93008, 93017); (120782, 120831);
   (123200, 123209); (123632, 123641); (125264, 125273); (130032, 130041)]%N.

Definition is_decimal (c : char) : bool :=
  existsb (fun r => ((fst r <=? c) && (c <=? snd r))%N) decimal_runs.

Fixpoint lstrip (s : pystr) : pystr :=
  match s with
  | [] => []
  | c :: r => if is_space c then lstrip r else s
  end.

Definition rstrip (s : pystr) : pystr := rev (lstrip (rev s)).

(** [str.strip()] *)
Definition strip (s : pystr) : pystr := lstrip (rstrip s).

(** [re.sub(r"\s+", " ", s)]: [in_run] tells that the previous character
    belonged to the whitespace run being replaced. *)
Fixpoint sub_ws (in_run : bool) (s : pystr) : pystr :=
  match s with
  | [] => []
  | c :: r =>
    if is_space c
    then (if in_run then sub_ws true r else 32%N :: sub_ws true r)
    else c :: sub_ws false r
  end.

Fixpoint starts_with (p s : pystr) : bool :=
  match p, s with
  | [], _ => true
  | x :: p', y :: s' => char_eqb x y && starts_with p' s'
  | _ :: _, [] => false
  end.

Definition ends_with (p s : pystr) : bool := starts_with (rev p) (rev s).

Definition drop_end (n : nat) (s : pystr) : pystr := firstn (length s - n) s.

(** [re.sub(r"\.0$", "", s)]: [$] matches at the end of the string and
    before a newline that ends the string. *)
Definition sub_dot0 (s : pystr) : pystr :=
  if ends_with [46; 48]%N s then drop_end 2 s
  else if ends_with [46; 48; 10]%N s then drop_end 3 s ++ [10%N]
  else s.

(** [str.replace(a, b)] for a one-character [a]. *)
Definition replace_char (a : char) (b : pystr) (s : pystr) : pystr :=
  flat_map (fun c => if char_eqb c a then b else [c]) s.

(** ** [pd.to_numeric(..., errors="coerce")] on one string

    The conversion of pandas' tokenizer: optional ASCII white space, an
    optional sign, decimal digits with an optional fractional part (at least
    one digit in all), an optional exponent, optional ASCII white space, end
    of the string.  Anything else is coerced to [NaN].

    The value is the exact decimal number.  pandas holds a 64-bit float or
    integer instead, reads the tokens for infinity ([inf], [infinity]) as
    infinite floats, and gives up on an exponent beyond the range of floats:
    the model has no such values, and it agrees with pandas on the texts
    that are not a token for infinity and that write a number with at most
    15 digits and no exponent ([plain_number_text]). *)

Definition is_ascii_space (c : char) : bool :=
  ((c =? 32) || (9 <=? c) && (c <=? 13))%N.

Fixpoint skip_ascii_space (s : pystr) : pystr :=
  match s with
  | [] => []
  | c :: r => if is_ascii_space c then skip_ascii_space r else s
  end.

Definition digit_val (c : char) : Z := (Z.of_N c - 48)%Z.

(** Reads a run of digits: the accumulated value, the number of digits read
    and the rest of the string. *)
Fixpoint read_digits (acc : Z) (n : nat) (s : pystr) : Z * nat * pystr :=
  match s with
  | [] => (acc, n, [])
  | c :: r =>
    if is_digit c then read_digits (10 * acc + digit_val c)%Z (S n) r
    else (acc, n, s)
  end.

Definition read_sign (s : pystr) : bool * pystr :=
  match s with
  | c :: r =>
    if char_eqb c 45 then (true, r)
    else if char_eqb c 43 then (false, r)
    else (false, s)
  | [] => (false, [])
  end.

(** [m * 10^e] as a rational in lowest terms. *)
Definition scale10 (m e : Z) : Q :=
  Qred (if (0 <=? e)%Z then inject_Z (m * 10 ^ e)%Z
        else Qmake m (Z.to_pos (10 ^ (- e))%Z)).

(** The exponent part: [None] when an exponent mark is not followed by
    digits, which makes the conversion fail. *)
Definition read_exponent (s : pystr) : option (Z * pystr) :=
  match s with
  | c :: r =>
    if char_eqb c 101 || char_eqb c 69 then
      let (neg, r1) := read_sign r in
      let '(e, k, r2) := read_digits 0%Z 0 r1 in
      match k with
      | O => None
      | S _ => Some (if neg then (- e)%Z else e, r2)
      end
    else Some (0%Z, s)
  | [] => Some (0%Z, [])
  end.

Definition to_numeric (s : pystr) : option Q :=
  let s0 := skip_ascii_space s in
  let (neg, s1) := read_sign s0 in
  let '(ip, n1, s2) := read_digits 0%Z 0 s1 in
  let '(m, n2, s3) :=
    match s2 with
    | c :: r => if char_eqb c 46 then read_digits ip 0 r else (ip, O, s2)
    | [] => (ip, O, s2)
    end in
  match (n1 + n2)%nat with
  | O => None
  | S _ =>
    match read_exponent s3 with
    | None => None
    | Some (e, s4) =>
      match skip_ascii_space s4 with
      | [] => Some (scale10 (if neg then (- m)%Z else m) (e - Z.of_nat n2)%Z)
      | _ :: _ => None
      end
    end
  end.

(** [pd.to_numeric] on a cell of a string column: a missing cell stays
    missing. *)
Definition to_numeric_cell (c : cell) : option Q :=
  match c with
  | None => None
  | Some s => to_numeric s
  end.

(** ** Field normalisation ([clean_text_series], [clean_code_series],
    [_to_number_series]), cell by cell *)

(** [.astype("string").fillna("")] *)
Definition fillna_empty (c : cell) : pystr :=
  match c with
  | None => []
  | Some s => s
  end.

(** [.replace({"": pd.NA})] *)
Definition empty_to_na (s : pystr) : cell :=
  match s with
  | [] => None
  | _ :: _ => Some s
  end.

Definition clean_text_series (c : cell) : cell :=
  empty_to_na (strip (sub_ws false (fillna_empty c))).

Definition clean_code_series (c : cell) : cell :=
  empty_to_na (sub_dot0 (strip (fillna_empty c))).

Definition _to_number_series (c : cell) : option Q :=
  let x := fillna_empty c in
  let x := replace_char 160 [32%N] x in
  let x := replace_char 32 [] x in
  let x := replace_char 44 [46%N] x in
  to_numeric x.

(** ** Regular expressions (the fragment of [re] used by the patterns)

    A pattern is a sequence of atoms; an atom matches one character of a
    class, possibly repeated, and may be the capturing group.  Matching
    returns every way to match in the order in which a backtracking matcher
    tries them, so the head of the list is the match [re] reports. *)

Inductive cclass : Type :=
| Any                 (* .  *)
| Digit               (* \d *)
| Space               (* \s *)
| Lit (c : char).     (* a literal character *)

Inductive item : Type :=
| Chr (c : cclass)
| Rep (c : cclass) (lo : nat) (hi : option nat) (greedy : bool).

Inductive atom : Type :=
| Plain (i : item)
| Group (i : item).   (* ( ... ), group 1 *)

Record regex : Type := {
  pattern : list atom;
  IGNORECASE : bool;
  DOTALL : bool
}.

(** [re.IGNORECASE] on a [str] pattern.  [re] compiles a cased literal [c]
    to the set of [lo = tolower(c)] and of the other characters that share
    its upper case ([fixes[lo]], the table [_EXTRA_CASES] of [re._casefix]),
    and a character [x] of the text matches when [tolower(x)] is in the
    set; a literal without case matches itself only.

    The literals of the patterns that have a case are Cyrillic letters:
    [lower] is the simple lower-case mapping on the Latin and Cyrillic
    capitals, which is exact on every character whose lower case is a
    Cyrillic letter of U+0430..U+044F, and [casefix] is the table for these
    letters. *)
Definition lower (c : char) : char :=
  if ((65 <=? c) && (c <=? 90))%N then (c + 32)%N
  else if ((1040 <=? c) && (c <=? 1071))%N then (c + 32)%N
  else if ((1024 <=? c) && (c <=? 1039))%N then (c + 80)%N
  else c.

Definition casefix (lo : char) : list char :=
  if (lo =? 1074)%N then [7296%N]                 (* U+0432, U+1C80 *)
  else if (lo =? 1076)%N then [7297%N]            (* U+0434, U+1C81 *)
  else if (lo =? 1086)%N then [7298%N]            (* U+043E, U+1C82 *)
  else if (lo =? 1089)%N then [7299%N]            (* U+0441, U+1C83 *)
  else if (lo =? 1090)%N then [7300%N; 7301%N]    (* U+0442, U+1C84, U+1C85 *)
  else if (lo =? 1098)%N then [7302%N]            (* U+044A, U+1C86 *)
  else [].

Definition class_match (re : regex) (k : cclass) (x : char) : bool :=
  match k with
  | Any => DOTALL re || negb (char_eqb x 10)
  | Digit => is_decimal x
  | Space => is_space x
  | Lit c =>
    if IGNORECASE re
    then existsb (char_eqb (lower x)) (lower c :: casefix (lower c))
    else char_eqb c x
  end.

(** Length of the longest prefix of [s] made of characters of the class. *)
Fixpoint run (f : char -> bool) (s : pystr) : nat :=
  match s with
  | [] => 0
  | c :: r => if f c then S (run f r) else 0
  end.

(** The repetition counts to try, in order, when [avail] characters of the
    class are available. *)
Definition counts (lo : nat) (hi : option nat) (greedy : bool) (avail : nat)
  : list nat :=
  let up := match hi with Some h => Nat.min h avail | None => avail end in
  let ascending := seq lo (S up - lo) in
  if greedy then rev ascending else ascending.

Definition match_item (re : regex) (i : item) (s : pystr)
  : list (pystr * pystr) :=
  match i with
  | Chr k =>
    match s with
    | x :: r => if class_match re k x then [([x], r)] else []
    | [] => []
    end
  | Rep k lo hi greedy =>
    map (fun n => (firstn n s, skipn n s))
        (counts lo hi greedy (run (class_match re k) s))
  end.

(** All matches of the atoms at the start of [s]: the text of group 1 and
    the rest of the string. *)
Fixpoint match_atoms (re : regex) (atoms : list atom) (cap : option pystr)
  (s : pystr) : list (option pystr * pystr) :=
  match atoms with
  | [] => [(cap, s)]
  | Plain i :: atoms' =>
    flat_map (fun mr => match_atoms re atoms' cap (snd mr)) (match_item re i s)
  | Group i :: atoms' =>
    flat_map (fun mr => match_atoms re atoms' (Some (fst mr)) (snd mr))
             (match_item re i s)
  end.

(** A match object: where the match starts, and [group(1)]. *)
Record Match : Type := { m_start : nat; group1 : option pystr }.

Definition match_at (re : regex) (s : pystr) : option (option pystr) :=
  match match_atoms re (pattern re) None s with
  | [] => None
  | (g, _) :: _ => Some g
  end.

(** [re.search]: the leftmost position at which the pattern matches. *)
Fixpoint search_from (re : regex) (pos : nat) (s : pystr) : option Match :=
  match match_at re s with
  | Some g => Some {| m_start := pos; group1 := g |}
  | None =>
    match s with
    | [] => None
    | _ :: s' => search_from re (S pos) s'
    end
  end.

Definition search (re : regex) (s : pystr) : option Match := search_from re 0 s.

Definition literal (s : pystr) : list atom := map (fun c => Plain (Chr (Lit c))) s.

(** ** [extract_doc_number] *)

(** [r"Номер\s+документа.*?(\d{4,9})"], [re.IGNORECASE | re.DOTALL] *)
Definition DOCNO_RE_1 : regex := {|
  pattern :=
    literal (py "Номер") ++ [Plain (Rep Space 1 None true)]
    ++ literal (py "документа")
    ++ [Plain (Rep Any 0 None false); Group (Rep Digit 4 (Some 9) true)];
  IGNORECASE := true;
  DOTALL := true
|}.

(** [r"(\d{1,9})\s+\d{2}\.\d{2}\.\d{4}"] *)
Definition DOCNO_RE_2 : regex := {|
  pattern :=
    [Group (Rep Digit 1 (Some 9) true); Plain (Rep Space 1 None true);
     Plain (Rep Digit 2 (Some 2) true); Plain (Chr (Lit 46));
     Plain (Rep Digit 2 (Some 2) true); Plain (Chr (Lit 46));
     Plain (Rep Digit 4 (Some 4) true)];
  IGNORECASE := false;
  DOTALL := false
|}.

(** [sep.join(l)] *)
Fixpoint join (sep : pystr) (l : list pystr) : pystr :=
  match l with
  | [] => []
  | [x] => x
  | x :: r => x ++ sep ++ join sep r
  end.

(** ** Tables and documents *)

(** A table as the extractor returns it and as the selector trims it:
    column labels and rows of cells. *)
Record DataFrame : Type := {
  df_columns : list cell;
  df_rows : list (list cell)
}.

(** What the external readers return for a PDF file: the text of each page
    ([None] when a page has no text) and the tables found on all pages. *)
Record document : Type := {
  pdf_path : pystr;
  pages : list (option pystr);
  tables : list (option DataFrame)
}.

Definition page_text (p : option pystr) : pystr :=
  match p with
  | Some t => t
  | None => []
  end.

Definition extract_doc_number (d : document) : option pystr :=
  let text := join [10%N] (map page_text (pages d)) in
  match search DOCNO_RE_1 text with
  | Some m => group1 m
  | None =>
    match search DOCNO_RE_2 text with
    | Some m => group1 m
    | None => None
    end
  end.

(** ** [_choose_and_clean_table] *)

Definition df_len (t : DataFrame) : nat := length (df_rows t).
Definition df_ncols (t : DataFrame) : nat := length (df_columns t).

(** [DataFrame.empty] *)
Definition df_empty (t : DataFrame) : bool :=
  (df_len t =? 0) || (df_ncols t =? 0).

(** The offsets [(start, k)] stand for the slice [start : -k]. *)
Definition slice_rules : list (nat * (nat * nat)) := [(0, (3, 2)); (2, (1, 2))].
Definition default_slice : nat * nat := (3, 2).

(** [dict.get(key, default)] *)
Fixpoint dict_get {V : Type} (d : list (nat * V)) (key : nat) (default : V) : V :=
  match d with
  | [] => default
  | (k, v) :: d' => if k =? key then v else dict_get d' key default
  end.

(** [tbl.iloc[start : -k]] *)
Definition iloc_slice (start k : nat) (t : DataFrame) : DataFrame :=
  {| df_columns := df_columns t;
     df_rows := skipn start (firstn (df_len t - k) (df_rows t)) |}.

(** The loop over [enumerate(tables)], from index [i] on. *)
Fixpoint choose_from (i : nat) (tables : list (option DataFrame))
  : option DataFrame :=
  match tables with
  | [] => None
  | tbl :: rest =>
    match tbl with
    | None => choose_from (S i) rest
    | Some t =>
      if df_empty t then choose_from (S i) rest
      else if (df_len t <=? 5) || (df_ncols t <=? 2) then choose_from (S i) rest
      else
        let (start, k) := dict_get slice_rules i default_slice in
        let df := iloc_slice start k t in
        if df_empty df || (df_len df <? 2) then choose_from (S i) rest
        else
          Some {| df_columns := hd [] (df_rows df);
                  df_rows := tl (df_rows df) |}
    end
  end.

Definition _choose_and_clean_table (tables : list (option DataFrame))
  : option DataFrame :=
  choose_from 0 tables.

Definition extract_table (d : document) : option DataFrame :=
  _choose_and_clean_table (tables d).

(** ** Exceptions *)

Inductive exn : Type :=
| ValueError_columns (path : pystr) (missing : list pystr) (available : list cell)
    (* line 100: f"{pdf_path}: нет колонок {missing}. Доступны: {list(df.columns)}" *)
| ValueError_length (expected got : nat).
    (* pandas, on [df.columns = [...]]: "Length mismatch" *)

Inductive result (A : Type) : Type :=
| Ok (a : A)
| Raise (e : exn).

Arguments Ok {A} a.
Arguments Raise {A} e.

Definition bind {A B : Type} (m : result A) (f : A -> result B) : result B :=
  match m with
  | Ok a => f a
  | Raise e => Raise e
  end.

Notation "x <- m ;; k" := (bind m (fun x => k))
  (at level 61, m at next level, right associativity).

(** The text of the error of line 100, given Python's [repr] of a column
    label. *)
Definition list_repr {A : Type} (repr : A -> pystr) (l : list A) : pystr :=
  py "[" ++ join (py ", ") (map repr l) ++ py "]".

Definition message (repr : cell -> pystr) (e : exn) : pystr :=
  match e with
  | ValueError_columns path missing available =>
    path ++ py ": нет колонок " ++ list_repr repr (map (@Some pystr) missing)
         ++ py ". Доступны: " ++ list_repr repr available
  | ValueError_length expected got => py "Length mismatch"
  end.

(** ** Grouping *)

Definition cell_eqb (a b : cell) : bool :=
  match a, b with
  | Some x, Some y => str_eqb x y
  | _, _ => false
  end.

Definition notna {A : Type} (c : option A) : bool :=
  match c with
  | Some _ => true
  | None => false
  end.

Fixpoint dropna {A : Type} (l : list (option A)) : list A :=
  match l with
  | [] => []
  | Some x :: r => x :: dropna r
  | None :: r => dropna r
  end.

Fixpoint insert_key (k : pystr) (l : list pystr) : list pystr :=
  match l with
  | [] => [k]
  | x :: r =>
    match str_compare k x with
    | Lt => k :: l
    | Eq => l
    | Gt => x :: insert_key k r
    end
  end.

(** The distinct keys of a [groupby] or of an outer [merge], ascending. *)
Definition sorted_keys (l : list pystr) : list pystr := fold_right insert_key [] l.

(** The rows of one group, in their original order. *)
Definition group_of {A : Type} (k : pystr) (l : list (pystr * A)) : list A :=
  map snd (filter (fun r => str_eqb (fst r) k) l).

(** [lambda x: x.dropna().iloc[0] if len(x.dropna()) else pd.NA] *)
Definition first_valid (x : list cell) : cell :=
  match dropna x with
  | [] => None
  | v :: _ => Some v
  end.

(** [skipna]: a missing value counts as 0 in a sum. *)
Definition nan0 (v : option Q) : Q :=
  match v with
  | Some q => q
  | None => 0%Q
  end.

(** [Series.sum(skipna=True)], as an exact sum: the sum that pandas computes
    when the values are whole numbers and stay below 2^53 ([exact_values]). *)
Definition qsum (l : list (option Q)) : Q :=
  fold_right (fun v acc => Qplus (nan0 v) acc) 0%Q l.

(** ** [build_doc_df] *)

(** One row of a document table: [код], [наименование], [<doc_number>]. *)
Record doc_row : Type := {
  d_code : pystr;
  d_label : cell;
  d_value : Q
}.

Record doc_df : Type := {
  doc_number : pystr;
  d_rows : list doc_row
}.

Definition required : list pystr := [py "2"; py "3"; py "10"].

(** [c in df.columns] *)
Definition in_columns (c : pystr) (cols : list cell) : bool :=
  existsb (cell_eqb (Some c)) cols.

(** The positions of the columns labelled [c]. *)
Fixpoint positions_from (i : nat) (c : pystr) (cols : list cell) : list nat :=
  match cols with
  | [] => []
  | x :: r =>
    if cell_eqb x (Some c) then i :: positions_from (S i) c r
    else positions_from (S i) c r
  end.

(** [df.loc[:, labels]]: every column carrying one of the labels. *)
Definition loc_columns (labels : list pystr) (cols : list cell) : list nat :=
  flat_map (fun c => positions_from 0 c cols) labels.

Definition cell_at (row : list cell) (p : nat) : cell := nth p row None.

(** Lines 105-120 on the three selected columns. *)
Definition group_rows (rows : list (cell * cell * cell)) : list doc_row :=
  let cleaned :=
    map (fun r => match r with (l, c, v) =>
           (clean_code_series c, (clean_text_series l, clean_text_series v)) end)
        rows in
  let kept := flat_map (fun r => match fst r with
                                 | Some c => [(c, snd r)]
                                 | None => []
                                 end) cleaned in
  let numbered := map (fun r => (fst r, (fst (snd r), _to_number_series (snd (snd r)))))
                      kept in
  map (fun k =>
         let g := group_of k numbered in
         {| d_code := k;
            d_label := first_valid (map fst g);
            d_value := qsum (map snd g) |})
      (sorted_keys (map fst numbered)).

Definition build_doc_df (d : document)
  : result (option doc_df * option pystr) :=
  match extract_doc_number d with
  | None => Ok (None, None)
  | Some [] => Ok (None, None)
  | Some doc_number =>
    match extract_table d with
    | None => Ok (None, Some doc_number)
    | Some df =>
      let missing := filter (fun c => negb (in_columns c (df_columns df))) required in
      match missing with
      | _ :: _ => Raise (ValueError_columns (pdf_path d) missing (df_columns df))
      | [] =>
        match loc_columns required (df_columns df) with
        | [p1; p2; p3] =>
          let rows := map (fun r => (cell_at r p1, cell_at r p2, cell_at r p3))
                          (df_rows df) in
          Ok (Some {| doc_number := doc_number; d_rows := group_rows rows |},
              Some doc_number)
        | ps => Raise (ValueError_length (length ps) 3)
        end
      end
    end
  end.

(** ** Reconciled tables *)

(** A row of the wide table: [наименование], [код] and one numeric cell for
    each of the other columns, in the order of the columns. *)
Record row : Type := {
  label : cell;
  code : cell;
  vals : list (option Q)
}.

(** The wide table: the names of the columns after [наименование] and [код],
    and the rows. *)
Record frame : Type := {
  value_columns : list pystr;
  rows : list row
}.

Definition add_val (r : row) (v : option Q) : row :=
  {| label := label r; code := code r; vals := vals r ++ [v] |}.

(** [DataFrame.empty]: the two fixed columns are always there. *)
Definition empty (f : frame) : bool :=
  match rows f with
  | [] => true
  | _ :: _ => false
  end.

(** [left.merge(right, on="код", how="outer")] where [right] has the columns
    [код] and [name]: the keys in ascending order, a missing key last; for
    each key the matching rows of both sides are paired, and a row without a
    partner gets missing values.  The new column is placed after the columns
    of [left] under the name [name].  This is the merge for a name that
    [left] does not have yet, as with the identifiers of distinct documents:
    the suffixes that pandas adds to names that clash, and the error that it
    raises when a suffixed name clashes again, are not modelled. *)
Definition merge_outer (left : frame) (name : pystr) (right : list (pystr * Q))
  : frame :=
  let n := length (value_columns left) in
  let keys := sorted_keys (dropna (map code (rows left)) ++ map fst right) in
  let for_key k :=
    let ls := filter (fun r => cell_eqb (code r) (Some k)) (rows left) in
    let rs := group_of k right in
    match ls, rs with
    | [], _ =>
      map (fun v => {| label := None; code := Some k;
                       vals := repeat None n ++ [Some v] |}) rs
    | _ :: _, [] => map (fun r => add_val r None) ls
    | _ :: _, _ :: _ => flat_map (fun r => map (fun v => add_val r (Some v)) rs) ls
    end in
  {| value_columns := value_columns left ++ [name];
     rows := flat_map for_key keys
             ++ map (fun r => add_val r None)
                    (filter (fun r => negb (notna (code r))) (rows left)) |}.

(** Lines 190-209 of [process_pdfs]. *)
Definition reconcile (doc_dfs : list doc_df) : frame :=
  let names := flat_map (fun d => map (fun r => (Some (d_code r), d_label r))
                                      (d_rows d)) doc_dfs in
  let names := flat_map (fun r => match fst r with
                                  | Some c => [(c, snd r)]
                                  | None => []
                                  end) names in
  let merged :=
    {| value_columns := [];
       rows := map (fun k => {| label := first_valid (group_of k names);
                                code := Some k; vals := [] |})
                   (sorted_keys (map fst names)) |} in
  fold_left (fun merged dfi =>
               merge_outer merged (doc_number dfi)
                           (map (fun r => (d_code r, d_value r)) (d_rows dfi)))
            doc_dfs merged.

(** ** [add_totals] *)

Definition CODE_NUM : pystr := py "_code_num".
Definition ROW_TOTAL : pystr := py "ИТОГО_СТРОКА".
Definition COLUMN_TOTAL : pystr := py "ИТОГО_СТОЛБЕЦ".

Fixpoint index_of (name : pystr) (cols : list pystr) : nat :=
  match cols with
  | [] => 0
  | c :: r => if str_eqb c name then 0 else S (index_of name r)
  end.

(** [df[name]] for one row. *)
Definition get_value (f : frame) (name : pystr) (r : row) : option Q :=
  nth (index_of name (value_columns f)) (vals r) None.

(** [df.assign(name=col)] and [df[name] = col] for a new column. *)
Definition assign (name : pystr) (col : list (option Q)) (f : frame) : frame :=
  {| value_columns := value_columns f ++ [name];
     rows := map (fun rv => add_val (fst rv) (snd rv)) (combine (rows f) col) |}.

Fixpoint remove_nth {A : Type} (n : nat) (l : list A) : list A :=
  match n, l with
  | _, [] => []
  | O, _ :: r => r
  | S n', x :: r => x :: remove_nth n' r
  end.

(** [df.drop(columns=[name])] *)
Definition drop (name : pystr) (f : frame) : frame :=
  let i := index_of name (value_columns f) in
  {| value_columns := remove_nth i (value_columns f);
     rows := map (fun r => {| label := label r; code := code r;
                              vals := remove_nth i (vals r) |}) (rows f) |}.

(** Comparison of two keys, a missing key after every other
    ([na_position="last"]).  Numeric keys are compared as exact numbers,
    which is how pandas compares the 64-bit numbers it holds when the codes
    are written with at most 15 digits. *)
Definition compare_na_last {A : Type} (cmp : A -> A -> comparison)
  (a b : option A) : comparison :=
  match a, b with
  | Some x, Some y => cmp x y
  | Some _, None => Lt
  | None, Some _ => Gt
  | None, None => Eq
  end.

Definition key_compare (a b : option Q * cell) : comparison :=
  match compare_na_last Qcompare (fst a) (fst b) with
  | Eq => compare_na_last str_compare (snd a) (snd b)
  | c => c
  end.

Definition key_leb (a b : option Q * cell) : bool :=
  match key_compare a b with
  | Gt => false
  | _ => true
  end.

Section Sort.
Variable A : Type.
Variable leb : A -> A -> bool.

Fixpoint insert_sorted (x : A) (l : list A) : list A :=
  match l with
  | [] => [x]
  | y :: r => if leb x y then x :: l else y :: insert_sorted x r
  end.

(** A stable sort: equal elements keep their order. *)
Definition stable_sort (l : list A) : list A := fold_right insert_sorted [] l.
End Sort.

(** [df.sort_values(by=[num, "код"], ascending=True, na_position="last")] *)
Definition sort_values (num : pystr) (f : frame) : frame :=
  {| value_columns := value_columns f;
     rows := stable_sort
               (fun a b => key_leb (get_value f num a, code a)
                                   (get_value f num b, code b))
               (rows f) |}.

(** The column at position [j]. *)
Definition column (j : nat) (l : list row) : list (option Q) :=
  map (fun r => nth j (vals r) None) l.

(** [num.sum(axis=1, skipna=True)] re-indexed on the rows of [df], where
    [num] holds the document columns ([pd.to_numeric] leaves numeric cells
    as they are): without document columns [num] has no rows and every total
    is missing. *)
Definition row_totals (f : frame) : list (option Q) :=
  match value_columns f with
  | [] => map (fun _ => None) (rows f)
  | _ :: _ => map (fun r => Some (qsum (vals r))) (rows f)
  end.

Definition sorted_by_code (final_df : frame) : frame :=
  let df := final_df in
  let code_num := map (fun r => to_numeric_cell (code r)) (rows df) in
  let df := assign CODE_NUM code_num df in
  drop CODE_NUM (sort_values CODE_NUM df).

Definition totals_row (doc_cols : list pystr) (df : frame) : row :=
  {| label := Some COLUMN_TOTAL;
     code := None;
     vals := map (fun j => Some (qsum (column j (rows df))))
                 (seq 0 (length doc_cols))
             ++ [Some (qsum (map (get_value df ROW_TOTAL) (rows df)))] |}.

(** [pd.concat([df, pd.DataFrame([r])], ignore_index=True)] for a row with
    the columns of [df]. *)
Definition concat_row (df : frame) (r : row) : frame :=
  {| value_columns := value_columns df; rows := rows df ++ [r] |}.

Definition add_totals (final_df : frame) : frame :=
  if empty final_df then final_df
  else
    let df := sorted_by_code final_df in
    let doc_cols := value_columns df in
    let df := assign ROW_TOTAL (row_totals df) df in
    concat_row df (totals_row doc_cols df).

(** ** [process_pdfs] *)

(** The loop of lines 170-182: the tables of the documents that have an
    identifier and a table; an exception of [build_doc_df] ends the run. *)
Fixpoint collect (docs : list document) : result (list doc_df) :=
  match docs with
  | [] => Ok []
  | d :: rest =>
    r <- build_doc_df d ;;
    match r with
    | (Some dfi, Some _) => doc_dfs <- collect rest ;; Ok (dfi :: doc_dfs)
    | _ => collect rest
    end
  end.

Definition empty_frame : frame := {| value_columns := []; rows := [] |}.

(** The run: the loop, then the reconciliation of lines 190-209 and the
    totals.  [reconcile] is the reconciliation of documents with distinct
    identifiers of which one at least has a code; on other batches pandas
    may rename columns or raise an error of its own, which is not
    modelled. *)
Definition process_pdfs (docs : list document) : result frame :=
  doc_dfs <- collect docs ;;
  match doc_dfs with
  | [] => Ok (add_totals empty_frame)
  | _ :: _ => Ok (add_totals (reconcile doc_dfs))
  end.

(** ** [add_totals] on a store of objects

    Python passes frames by reference.  A store holds the frames allocated
    so far; a location is an index into it.  A pandas call that returns a new
    frame allocates, and [df[name] = col] updates the frame in place. *)

Definition loc := nat.
Definition store := list frame.
Definition St (A : Type) : Type := store -> A * store.

Definition ret {A : Type} (a : A) : St A := fun h => (a, h).

Definition bindS {A B : Type} (m : St A) (f : A -> St B) : St B :=
  fun h => let (a, h') := m h in f a h'.

Notation "x <~ m ;; k" := (bindS m (fun x => k))
  (at level 61, m at next level, right associativity).

Definition read (l : loc) : St frame := fun h => (nth l h empty_frame, h).

Definition alloc (f : frame) : St loc := fun h => (length h, h ++ [f]).

Fixpoint update {A : Type} (n : nat) (x : A) (l : list A) : list A :=
  match n, l with
  | _, [] => []
  | O, _ :: r => x :: r
  | S n', y :: r => y :: update n' x r
  end.

Definition write (l : loc) (f : frame) : St unit := fun h => (tt, update l f h).

Definition add_totals_st (final_df : loc) : St loc :=
  f <~ read final_df ;;
  if empty f then ret final_df
  else
    df <~ (f <~ read final_df ;; alloc f) ;;                  (* final_df.copy() *)
    f <~ read df ;;
    let code_num := map (fun r => to_numeric_cell (code r)) (rows f) in
    df <~ alloc (assign CODE_NUM code_num f) ;;               (* df.assign(...) *)
    f <~ read df ;;
    df <~ alloc (sort_values CODE_NUM f) ;;                   (* .sort_values(...) *)
    f <~ read df ;;
    df <~ alloc (drop CODE_NUM f) ;;                          (* .drop(...) *)
    f <~ read df ;;
    let doc_cols := value_columns f in
    _ <~ write df (assign ROW_TOTAL (row_totals f) f) ;;      (* df[...] = ... *)
    f <~ read df ;;
    alloc (concat_row f (totals_row doc_cols f)).             (* pd.concat(...) *)

(** ** [to_excel_bytes]: the widths of the columns

    The loop of lines 227-238 over the columns of the sheet.  A cell of the
    sheet holds a value or nothing; [str] is Python's rendering of a value
    as a text.  The writing of the workbook itself is not modelled. *)

Section Widths.
Variable value : Type.
Variable str : value -> pystr.

Definition max_len (col_name : option value) (cells : list (option value)) : nat :=
  fold_left (fun max_len val =>
               match val with
               | None => max_len
               | Some v => Nat.max max_len (length (str v))
               end)
            cells
            (match col_name with
             | Some c => length (str c)
             | None => 0
             end).

Definition width (col_name : option value) (cells : list (option value)) : nat :=
  Nat.min (max_len col_name cells + 2) 60.

(** The widths of all the columns: the column [col_idx] of the sheet holds
    the cells at position [col_idx] of the rows. *)
Definition column_widths (columns : list (option value))
  (sheet : list (list (option value))) : list nat :=
  map (fun ic => width (snd ic) (map (fun r => nth (fst ic) r None) sheet))
      (combine (seq 0 (length columns)) columns).
End Widths.


(** ** [process_pdfs] with its log

    The lines that [process_pdfs] hands to the callback [log], one
    constructor for each call of [_log] (lines 165, 171, 175, 178, 181, 187
    and 212); the rendering of a line as a text is left out.  A computation
    yields the lines it has logged and its result; after an exception nothing
    more is logged.  The line that announces a file names it by
    [os.path.basename], which depends on the platform and is a parameter. *)

Inductive log_line : Type :=
| Files_received (n : nat)
| Processing (path : pystr)
| Warn_no_number
| Warn_no_table (docno : pystr)
| Doc_ok (docno : pystr) (codes : nat)
| No_data
| Finished (n : nat).

Definition Log (A : Type) : Type := (list log_line * result A)%type.

Definition retL {A : Type} (a : A) : Log A := ([], Ok a).

Definition bindL {A B : Type} (m : Log A) (k : A -> Log B) : Log B :=
  match m with
  | (l1, Ok a) => let (l2, r) := k a in (l1 ++ l2, r)
  | (l1, Raise e) => (l1, Raise e)
  end.

Notation "x <<- m ;; k" := (bindL m (fun x => k))
  (at level 61, m at next level, right associativity).

Definition _log (line : log_line) : Log unit := ([line], Ok tt).

Definition lift {A : Type} (r : result A) : Log A := ([], r).

Section Logging.
Variable basename : pystr -> pystr.

(** The loop of lines 170-182. *)
Fixpoint collect_log (docs : list document) : Log (list doc_df) :=
  match docs with
  | [] => retL []
  | d :: rest =>
    _ <<- _log (Processing (basename (pdf_path d))) ;;
    r <<- lift (build_doc_df d) ;;
    match r with
    | (_, None) =>
      _ <<- _log Warn_no_number ;; collect_log rest
    | (None, Some docno) =>
      _ <<- _log (Warn_no_table docno) ;; collect_log rest
    | (Some dfi, Some docno) =>
      _ <<- _log (Doc_ok docno (length (d_rows dfi))) ;;
      doc_dfs <<- collect_log rest ;;
      retL (dfi :: doc_dfs)
    end
  end.

Definition process_pdfs_log (docs : list document) : Log frame :=
  _ <<- _log (Files_received (length docs)) ;;
  doc_dfs <<- collect_log docs ;;
  match doc_dfs with
  | [] =>
    let final_df := add_totals empty_frame in
    _ <<- _log No_data ;;
    retL final_df
  | _ :: _ =>
    let final_df := add_totals (reconcile doc_dfs) in
    _ <<- _log (Finished (length (rows final_df))) ;;
    retL final_df
  end.
End Logging.


(* ================================================================== *)
(** * Part II: the notions of the specification *)
(* ================================================================== *)

(** [sub] occurs in [s]. *)
Definition contains (sub s : pystr) : Prop := exists a b, s = a ++ sub ++ b.

(** ** Table Selector *)

(** The trim rule in the words of the specification: rows [1 : end-2) for
    the table at index 2, rows [3 : end-2) for every other index. *)
Definition trimmed (i : nat) (t : DataFrame) : list (list cell) :=
  let start := if i =? 2 then 1 else 3 in
  skipn start (firstn (df_len t - 2) (df_rows t)).

Definition too_small (t : DataFrame) : Prop := df_len t <= 5 \/ df_ncols t <= 2.

(** The table at index [i] is passed over by the selector. *)
Definition passed_over (i : nat) (tbl : option DataFrame) : Prop :=
  match tbl with
  | None => True
  | Some t => too_small t \/ length (trimmed i t) < 2
  end.

(** A table of seven rows and three columns, every cell of row [k] reading
    [rk]. *)
Definition example_row (s : string) : list cell :=
  [Some (py s); Some (py s); Some (py s)].

Definition example_table_7 : DataFrame := {|
  df_columns := [Some (py "a"); Some (py "b"); Some (py "c")];
  df_rows := map example_row ["r0"; "r1"; "r2"; "r3"; "r4"; "r5"; "r6"]%string
|}.

(** ** Field Normalizer *)

(** The characters that can occur in a text that [pd.to_numeric] converts. *)
Definition numeric_char (c : char) : bool :=
  is_digit c || is_ascii_space c
  || char_eqb c 43 || char_eqb c 45 || char_eqb c 46
  || char_eqb c 69 || char_eqb c 101.

(** A text made of such characters only. *)
Definition allowed (s : pystr) : Prop := forallb numeric_char s = true.

(** ** Identifier Extractor *)

(** The text that the patterns are applied to. *)
Definition document_text (d : document) : pystr :=
  join [10%N] (map page_text (pages d)).

(** A text of ASCII digits, and a text of decimal digits of any script. *)
Definition digits (s : pystr) : Prop := forallb is_digit s = true.
Definition decimal_digits (s : pystr) : Prop := forallb is_decimal s = true.
Definition spaces (s : pystr) : Prop := forallb is_space s = true.

(** The ways to write a Cyrillic letter of U+0410..U+044F: the small
    letter, the capital letter, and for some letters the old variant forms
    of the small letter (U+1C80..U+1C86), which have the same capital. *)
Definition variant_forms (small : char) : list char :=
  if (small =? 1074)%N then [7296%N]
  else if (small =? 1076)%N then [7297%N]
  else if (small =? 1086)%N then [7298%N]
  else if (small =? 1089)%N then [7299%N]
  else if (small =? 1090)%N then [7300%N; 7301%N]
  else if (small =? 1098)%N then [7302%N]
  else [].

Definition letter_forms (c : char) : list char :=
  let small := if (c <=? 1071)%N then (c + 32)%N else c in
  small :: (small - 32)%N :: variant_forms small.

Definition cyrillic (c : char) : Prop := (1040 <= c <= 1103)%N.

(** [s] spells the phrase [lit], whatever the form of its letters. *)
Definition spells (lit s : pystr) : Prop :=
  Forall2 (fun c x => In x (letter_forms c)) lit s.

(** The primary pattern occurs in [text] with the number [g]: the label
    phrase, then any characters (line breaks included), then 4 to 9
    digits. *)
Definition primary_shape (text g : pystr) : Prop :=
  exists pre l1 ws l2 mid post,
    text = pre ++ l1 ++ ws ++ l2 ++ mid ++ g ++ post /\
    spells (py "Номер") l1 /\ ws <> [] /\ spaces ws /\
    spells (py "документа") l2 /\
    decimal_digits g /\ 4 <= length g <= 9.

(** Two digits, a point, two digits, a point, four digits. *)
Definition date_token (s : pystr) : Prop :=
  exists d1 d2 d3,
    s = d1 ++ [46%N] ++ d2 ++ [46%N] ++ d3 /\
    decimal_digits d1 /\ length d1 = 2 /\ decimal_digits d2 /\ length d2 = 2 /\
    decimal_digits d3 /\ length d3 = 4.

(** The fallback pattern occurs in [text] with the number [g], [pre] being
    the text before it: 1 to 9 digits, white space, a date token. *)
Definition fallback_shape_at (text pre g : pystr) : Prop :=
  exists ws date post,
    text = pre ++ g ++ ws ++ date ++ post /\
    decimal_digits g /\ 1 <= length g <= 9 /\
    ws <> [] /\ spaces ws /\ date_token date.

Definition fallback_shape (text g : pystr) : Prop :=
  exists pre, fallback_shape_at text pre g.

(** The character before position [pos] of [text] is a digit. *)
Definition preceded_by_digit (text : pystr) (pos : nat) : bool :=
  match pos with
  | O => false
  | S p =>
    match nth_error text p with
    | Some c => is_decimal c
    | None => false
    end
  end.

(** What an item and a sequence of atoms match, stated on the text. *)
Definition item_ok (re : regex) (i : item) (m : pystr) : Prop :=
  match i with
  | Chr k => exists x, m = [x] /\ class_match re k x = true
  | Rep k lo hi _ =>
    forallb (class_match re k) m = true /\ lo <= length m /\
    match hi with
    | Some h => length m <= h
    | None => True
    end
  end.

Fixpoint atoms_ok (re : regex) (atoms : list atom) (cap : option pystr)
  (s : pystr) (cap' : option pystr) (r : pystr) : Prop :=
  match atoms with
  | [] => cap' = cap /\ r = s
  | Plain i :: atoms' =>
    exists m s', s = m ++ s' /\ item_ok re i m /\ atoms_ok re atoms' cap s' cap' r
  | Group i :: atoms' =>
    exists m s', s = m ++ s' /\ item_ok re i m /\
                 atoms_ok re atoms' (Some m) s' cap' r
  end.

Definition example_tail_document : document := {|
  pdf_path := py "a.pdf";
  pages := [Some (py "1234567890 01.02.2020")];
  tables := []
|}.

(** The label phrase in capitals and in old letter forms, and a number in
    Arabic-Indic digits on the next page. *)
Definition example_arabic_document : document := {|
  pdf_path := py "c.pdf";
  pages := [Some (py "НОМЕР Дᲂкуменᲄа"); Some (py "от ١٢٣٤٥")];
  tables := []
|}.

Definition example_labelled_document : document := {|
  pdf_path := py "b.pdf";
  pages := [Some (py "Акт"); None; Some (py "НОМЕР  документа: 123456 от 01.02.2020")];
  tables := []
|}.

(** ** Document Table Builder *)

(** Strictly ascending keys. *)
Definition keys_sorted (l : list pystr) : Prop :=
  StronglySorted (fun a b => str_compare a b = Lt) l.


(** The position of the column labelled [c]. *)
Definition position (c : pystr) (cols : list cell) : nat :=
  hd 0 (positions_from 0 c cols).

(** The cells of the three source columns, row by row: label, code, value. *)
Definition selected_columns (df : DataFrame) : list (cell * cell * cell) :=
  map (fun r => (cell_at r (position (py "2") (df_columns df)),
                 cell_at r (position (py "3") (df_columns df)),
                 cell_at r (position (py "10") (df_columns df))))
      (df_rows df).

(** A source row after field normalisation. *)
Definition normalise (t : cell * cell * cell) : cell * cell * option Q :=
  (clean_text_series (fst (fst t)),
   clean_code_series (snd (fst t)),
   _to_number_series (clean_text_series (snd t))).



Definition row_value (t : cell * cell * option Q) : option Q := snd t.

(** [v] is the first value of [x] that is not missing, or all are missing. *)
Definition first_non_missing (x : list cell) (v : cell) : Prop :=
  match v with
  | None => forall w, ~ In (Some w) x
  | Some l => exists a b, x = a ++ Some l :: b /\ forall w, ~ In (Some w) a
  end.

(** A document with the identifier 12345 and one table: three rows of
    heading, the row that numbers the columns, three data rows of which two
    share a code, and two closing rows. *)
Definition example_cells (a b c : string) : list cell :=
  [Some (py a); Some (py b); Some (py c)].

Definition example_raw_table : DataFrame := {|
  df_columns := example_cells "x" "y" "z";
  df_rows :=
    [example_cells "Отчёт" "" ""; example_cells "" "" ""; example_cells "Наименование" "Код" "Сумма";
     example_cells "2" "3" "10";
     example_cells "Хлеб" "101" "1 234,56";
     [None; Some (py "101.0"); Some (py "10")];
     example_cells "Молоко" " 102 " "N/A";
     example_cells "Итого" "" ""; example_cells "" "" ""]
|}.

Definition example_document : document := {|
  pdf_path := py "doc.pdf";
  pages := [Some (py "Номер документа 12345")];
  tables := [Some example_raw_table]
|}.

Definition example_selected : DataFrame := {|
  df_columns := example_cells "2" "3" "10";
  df_rows :=
    [example_cells "Хлеб" "101" "1 234,56";
     [None; Some (py "101.0"); Some (py "10")];
     example_cells "Молоко" " 102 " "N/A"]
|}.

(** The same document when the row that numbers the columns lacks the
    column 10. *)
Definition example_bad_table : DataFrame := {|
  df_columns := example_cells "x" "y" "z";
  df_rows :=
    [example_cells "Отчёт" "" ""; example_cells "" "" ""; example_cells "Наименование" "Код" "Сумма";
     example_cells "2" "3" "9";
     example_cells "Хлеб" "101" "1 234,56";
     example_cells "Молоко" "102" "7";
     example_cells "Итого" "" ""; example_cells "" "" ""]
|}.

Definition example_bad_document : document := {|
  pdf_path := py "bad.pdf";
  pages := [Some (py "Номер документа 12345")];
  tables := [Some example_bad_table]
|}.

(** A document without an identifier. *)
Definition example_anonymous_document : document := {|
  pdf_path := py "none.pdf";
  pages := [Some (py "Акт сверки без номера")];
  tables := [Some example_raw_table]
|}.

(** ** Batch Reconciler *)

(** The RowCodes of a document table and of a reconciled table. *)
Definition doc_codes (d : doc_df) : list pystr := map d_code (d_rows d).

Definition frame_codes (f : frame) : list cell := map code (rows f).

(** The (code, value) pairs that a document contributes. *)
Definition doc_pairs (d : doc_df) : list (pystr * Q) :=
  map (fun r => (d_code r, d_value r)) (d_rows d).

(** The cell of a row with code [c] in the column of document [d]: missing
    when the document lacks the code, a value of the document otherwise. *)
Definition cell_of_document (d : doc_df) (c : pystr) (x : option (option Q)) : Prop :=
  (~ In c (doc_codes d) -> x = Some None) /\
  (In c (doc_codes d) -> exists q, x = Some (Some q) /\ In (c, q) (doc_pairs d)).

Definition all_codes (dfs : list doc_df) : list pystr := flat_map doc_codes dfs.

(** The state of the merge loop of [process_pdfs] once the documents
    [merged] have been joined, out of the documents [dfs] of the run. *)
Definition merged_upto (dfs merged : list doc_df) (f : frame) : Prop :=
  value_columns f = map doc_number merged /\
  (forall c, In (Some c) (frame_codes f) <-> In c (all_codes dfs)) /\
  (forall r, In r (rows f) -> code r <> None /\ length (vals r) = length merged) /\
  (forall r c i d, In r (rows f) -> code r = Some c -> nth_error merged i = Some d ->
                   cell_of_document d c (nth_error (vals r) i)).

(** A document identifier: a non-empty text of decimal digits. *)
Definition identifier (s : pystr) : Prop := s <> [] /\ decimal_digits s.

(** A reconciled table: its value columns are named by distinct document
    identifiers, every row has a cell in every column, and a table with rows
    has at least one document column. *)
Definition reconciled_table (f : frame) : Prop :=
  Forall identifier (value_columns f) /\
  NoDup (value_columns f) /\
  Forall (fun r => length (vals r) = length (value_columns f)) (rows f) /\
  (rows f <> [] -> value_columns f <> []).

(** The two documents of the end-to-end scenario of the specification. *)
Definition example_doc_row (c : string) (v : Q) : doc_row :=
  {| d_code := py c; d_label := None; d_value := v |}.

Definition example_doc_A : doc_df :=
  {| doc_number := py "100";
     d_rows := [example_doc_row "1" 10; example_doc_row "2" 20] |}.

Definition example_doc_B : doc_df :=
  {| doc_number := py "200";
     d_rows := [example_doc_row "2" 5; example_doc_row "3" 7] |}.

(** ** Totals Calculator *)

(** The sort key of a row: its code as a number, and its code. *)
Definition row_key (r : row) : option Q * cell := (to_numeric_cell (code r), code r).

Definition row_leb (a b : row) : bool := key_leb (row_key a) (row_key b).

(** Lexical order of codes, a missing code last. *)
Definition text_le (a b : cell) : Prop :=
  match a, b with
  | Some s, Some t => str_compare s t <> Gt
  | Some _, None => True
  | None, Some _ => False
  | None, None => True
  end.

(** The order of the rows in the words of the specification: codes that
    parse as numbers come first, in numeric order, equal numbers in the
    lexical order of the codes; the other codes follow in lexical order. *)
Definition code_order (a b : cell) : Prop :=
  match to_numeric_cell a, to_numeric_cell b with
  | Some x, Some y => (x < y)%Q \/ ((x == y)%Q /\ text_le a b)
  | Some _, None => True
  | None, Some _ => False
  | None, None => text_le a b
  end.

(** A row with its total: the sum of its document cells, a missing cell
    counting as 0. *)
Definition with_total (r : row) : row := add_val r (Some (qsum (vals r))).

(** The document cells of a row of the result, without the total. *)
Definition document_cells (r : row) : list (option Q) := removelast (vals r).

(** The cell of a row of the result in the total column. *)
Definition total_cell (r : row) : option Q := last (vals r) None.

Definition example_row_of (c : string) (v : Q) : row :=
  {| label := None; code := Some (py c); vals := [Some v] |}.

(** A reconciled table with the codes 10, 2 and abc, in this order. *)
Definition example_codes_frame : frame :=
  {| value_columns := [py "300"];
     rows := [example_row_of "10" 1; example_row_of "2" 3; example_row_of "abc" 2] |}.

(** A table of three rows. *)
Definition example_small_table : DataFrame := {|
  df_columns := example_cells "x" "y" "z";
  df_rows := [example_cells "a" "b" "c"; example_cells "d" "e" "f";
              example_cells "g" "h" "i"]
|}.

(** ** Normal forms of the normalised fields *)

(** Every white-space character of [s] is a space that follows a character
    which is not white space; [prev] tells that the character before [s]
    is white space. *)
Fixpoint single_spaced (prev : bool) (s : pystr) : bool :=
  match s with
  | [] => true
  | c :: r =>
    if is_space c then char_eqb c 32 && negb prev && single_spaced true r
    else single_spaced false r
  end.

(** A text in the form that [clean_text_series] produces: not empty, no
    white space at either end, and words separated by single spaces. *)
Definition normal_text (t : pystr) : Prop :=
  t <> [] /\ single_spaced true t = true /\ is_space (last t 0%N) = false.

(** A text without white space at either end. *)
Definition trimmed_text (s : pystr) : Prop :=
  s <> [] /\ is_space (hd 0%N s) = false /\ is_space (last s 0%N) = false.

(** The value of a run of decimal digits. *)
Definition decimal (ds : pystr) : Z :=
  fold_left (fun acc c => (10 * acc + digit_val c)%Z) ds 0%Z.

(** The text that [_to_number_series] hands to [pd.to_numeric]. *)
Definition number_text (s : pystr) : pystr :=
  replace_char 44 [46%N] (replace_char 32 [] (replace_char 160 [32%N] s)).

Definition minus_sign (neg : bool) : pystr := if neg then [45%N] else [].

(** The numeric values of the source rows that have a code, in row order. *)
Definition kept_values (raw : list (cell * cell * cell)) : list (option Q) :=
  map row_value (filter (fun t => notna (snd (fst t))) (map normalise raw)).

(** A document with the column 2 twice in the row that numbers the
    columns. *)
Definition example_twice_table : DataFrame := {|
  df_columns := [Some (py "w"); Some (py "x"); Some (py "y"); Some (py "z")];
  df_rows :=
    map (fun r => Some (py "") :: r)
        [example_cells "Отчёт" "" ""; example_cells "" "" "";
         example_cells "Наименование" "Код" "Сумма"]
    ++ [[Some (py "2"); Some (py "2"); Some (py "3"); Some (py "10")];
        [Some (py "Хлеб"); Some (py "белый"); Some (py "101"); Some (py "5")];
        [Some (py "Молоко"); None; Some (py "102"); Some (py "7")];
        [Some (py "Итого"); None; None; None]; [None; None; None; None]]
|}.

Definition example_twice_document : document := {|
  pdf_path := py "twice.pdf";
  pages := [Some (py "Номер документа 12345")];
  tables := [Some example_twice_table]
|}.

(** ** The reconciled table, row by row *)

(** The value of a document for a code, missing when it has none. *)
Definition doc_value (c : pystr) (d : doc_df) : option Q :=
  match group_of c (doc_pairs d) with
  | [] => None
  | v :: _ => Some v
  end.

(** The labels that the documents give to a code, in the order of the
    documents and of their rows. *)
Definition labels_of_code (c : pystr) (dfs : list doc_df) : list cell :=
  flat_map (fun d => map d_label (filter (fun r => str_eqb (d_code r) c) (d_rows d)))
           dfs.

(** The row of the reconciled table for a code. *)
Definition reconciled_row (dfs : list doc_df) (c : pystr) : row :=
  {| label := first_valid (labels_of_code c dfs);
     code := Some c;
     vals := map (doc_value c) dfs |}.

(** Two documents that name the code 2 differently. *)
Definition example_doc_C : doc_df :=
  {| doc_number := py "100";
     d_rows := [{| d_code := py "1"; d_label := None; d_value := 10 |};
                {| d_code := py "2"; d_label := Some (py "Хлеб"); d_value := 20 |}] |}.

Definition example_doc_D : doc_df :=
  {| doc_number := py "200";
     d_rows := [{| d_code := py "1"; d_label := Some (py "Соль"); d_value := 4 |};
                {| d_code := py "2"; d_label := Some (py "Батон"); d_value := 5 |}] |}.

(** The example documents as the upload stores them. *)
Definition example_stored_anonymous : document := {|
  pdf_path := py "tmp_uploads/0a1b_none.pdf";
  pages := pages example_anonymous_document;
  tables := tables example_anonymous_document
|}.

Definition example_stored_document : document := {|
  pdf_path := py "tmp_uploads/2c3d_doc.pdf";
  pages := pages example_document;
  tables := tables example_document
|}.

Definition example_stored_bad : document := {|
  pdf_path := py "tmp_uploads/4e5f_bad.pdf";
  pages := pages example_bad_document;
  tables := tables example_bad_document
|}.

(** The tables that a run over a document without identifier and the
    example document collects. *)
Definition example_collected : list doc_df :=
  Eval vm_compute in
    match collect [example_anonymous_document; example_document] with
    | Ok l => l
    | Raise _ => []
    end.

(** A text without its white space. *)
Definition without_space (s : pystr) : pystr :=
  filter (fun c => negb (is_space c)) s.

(** ** The log of a run *)

(** [posixpath.basename]: what follows the last slash. *)
Fixpoint until_slash (s : pystr) : pystr :=
  match s with
  | [] => []
  | c :: r => if char_eqb c 47 then [] else c :: until_slash r
  end.

Definition posix_basename (p : pystr) : pystr := rev (until_slash (rev p)).

(** The lines that one document leaves in the log. *)
Definition doc_lines (basename : pystr -> pystr) (d : document) : list log_line :=
  Processing (basename (pdf_path d)) ::
  match build_doc_df d with
  | Ok (_, None) => [Warn_no_number]
  | Ok (None, Some docno) => [Warn_no_table docno]
  | Ok (Some dfi, Some docno) => [Doc_ok docno (length (d_rows dfi))]
  | Raise _ => []
  end.

(** The last line of the log of a run that collected the tables [dfs] and
    returned [out]. *)
Definition final_line (dfs : list doc_df) (out : frame) : log_line :=
  match dfs with
  | [] => No_data
  | _ :: _ => Finished (length (rows out))
  end.

(** ** The numbers of the program and the numbers of the model

    The program computes with the 64-bit numbers of pandas (floats, or
    integers for a column of whole numbers); the model with exact
    rationals, without infinities.  The two agree on the inputs described
    here, which the statements about numeric values and about the order of
    numeric codes assume. *)

(** The sum of the values of a list of cells, a missing cell counting for
    nothing. *)
Fixpoint total (vs : list (option Q)) : Q :=
  match vs with
  | [] => 0%Q
  | Some q :: r => (q + total r)%Q
  | None :: r => total r
  end.

Definition ascii_lower (c : char) : char :=
  if ((65 <=? c) && (c <=? 90))%N then (c + 32)%N else c.

(** The texts that [pd.to_numeric] reads as an infinite number: [inf] and
    [infinity], with or without a sign, in any case. *)
Definition infinity_token (s : pystr) : bool :=
  existsb (str_eqb (map ascii_lower s))
          [py "inf"; py "+inf"; py "-inf";
           py "infinity"; py "+infinity"; py "-infinity"].

(** A text with at most 15 digits and no exponent mark: when it is a
    number, a 64-bit float holds it to within its 15 digits, so that two
    such numbers are equal as floats only if they are equal. *)
Definition short_number (s : pystr) : bool :=
  (length (filter is_digit s) <=? 15)
  && negb (existsb (fun c => char_eqb c 69 || char_eqb c 101) s).

(** A text that the program and the model read alike: not an infinity
    token, without the character U+0000 (where a C string ends) and, if it
    is a number, a short one. *)
Definition plain_number_text (s : pystr) : Prop :=
  infinity_token s = false /\ existsb (char_eqb 0) s = false /\
  (to_numeric s = None \/ short_number s = true).


(** The same for the cell of a value column, which is cleaned as a text
    and rid of its separators before it is read as a number. *)
Definition plain_value (v : cell) : Prop :=
  forall s, clean_text_series v = Some s -> plain_number_text (number_text s).

Definition whole (v : option Q) : bool :=
  match v with
  | Some q => (Qden (Qred q) =? 1)%positive
  | None => true
  end.

(** The sum of the absolute values. *)
Definition magnitude (vs : list (option Q)) : Q := total (map (option_map Qabs) vs).

(** Values that the program adds up exactly, in whatever order and whether
    it holds them as integers or as floats: whole numbers whose absolute
    values add up to at most 2^53. *)
Definition exact_values (vs : list (option Q)) : Prop :=
  forallb whole vs = true /\ Qle_bool (magnitude vs) (inject_Z (2 ^ 53)) = true.

Definition exact_table (f : frame) : Prop := exact_values (flat_map vals (rows f)).

(** The rows of a source table that have a code read alike by the program
    and the model, and their values are added up exactly. *)
Definition exact_source (raw : list (cell * cell * cell)) : Prop :=
  (forall t, In t raw -> clean_code_series (snd (fst t)) <> None ->
             plain_value (snd t)) /\
  exact_values (kept_values raw).

(** [r'] is the row [r] followed by its total. *)
Definition totalled (r r' : row) : Prop :=
  label r' = label r /\ code r' = code r /\
  exists t, vals r' = vals r ++ [Some t] /\ (t == total (vals r))%Q.



Definition example_whole_selected : DataFrame := {|
  df_columns := example_cells "2" "3" "10";
  df_rows :=
    [example_cells "Хлеб" "101" "1 234";
     [None; Some (py "101.0"); Some (py "10")];
     example_cells "Молоко" " 102 " "N/A"]
|}.

(* ================================================================== *)
(** * Part III: lemmas and theorems *)
(* ================================================================== *)

Unset Implicit Arguments.

(** ** Strings *)

Lemma char_eqb_eq (a b : char) : char_eqb a b = true <-> a = b.
Proof. apply N.eqb_eq. Qed.

Lemma str_eqb_eq (a b : pystr) : str_eqb a b = true <-> a = b.
Proof.
  revert b; induction a as [|x a IH]; intros [|y b]; simpl; split;
    try congruence; try reflexivity.
  - intros H. apply andb_true_iff in H as [H1 H2].
    apply char_eqb_eq in H1. apply IH in H2. congruence.
  - intros H. injection H as -> ->. apply andb_true_iff. split.
    + now apply char_eqb_eq.
    + now apply IH.
Qed.

Lemma str_eqb_refl (a : pystr) : str_eqb a a = true.
Proof. now apply str_eqb_eq. Qed.

Lemma str_compare_eq (a b : pystr) : str_compare a b = Eq <-> a = b.
Proof.
  revert b; induction a as [|x a IH]; intros [|y b]; simpl; split;
    try congruence; try reflexivity.
  - destruct (x ?= y)%N eqn:E; try discriminate.
    apply N.compare_eq in E. intros H. apply IH in H. congruence.
  - intros H. injection H as -> ->. rewrite N.compare_refl. now apply IH.
Qed.

Lemma str_compare_antisym (a b : pystr) :
  str_compare b a = CompOpp (str_compare a b).
Proof.
  revert b; induction a as [|x a IH]; intros [|y b]; simpl; try reflexivity.
  rewrite (N.compare_antisym x y).
  destruct (x ?= y)%N; simpl; auto.
Qed.

Lemma str_compare_trans (a b c : pystr) :
  str_compare a b = Lt -> str_compare b c = Lt -> str_compare a c = Lt.
Proof.
  revert b c; induction a as [|x a IH]; intros [|y b] [|z c]; simpl;
    try congruence.
  destruct (x ?= y)%N eqn:E1; try discriminate;
    destruct (y ?= z)%N eqn:E2; try discriminate; intros H1 H2.
  - apply N.compare_eq in E1, E2. subst. rewrite N.compare_refl. eauto.
  - apply N.compare_eq in E1. subst. now rewrite E2.
  - apply N.compare_eq in E2. subst. now rewrite E1.
  - rewrite N.compare_lt_iff in E1, E2.
    assert (E : (x ?= z)%N = Lt) by (apply N.compare_lt_iff; lia).
    now rewrite E.
Qed.

(** ** Table Selector *)

Lemma dict_get_slice_rules (i : nat) :
  dict_get slice_rules i default_slice = (if i =? 2 then 1 else 3, 2).
Proof.
  destruct i as [|[|[|i]]]; reflexivity.
Qed.

Lemma iloc_slice_trimmed (i : nat) (t : DataFrame) :
  df_rows (let (start, k) := dict_get slice_rules i default_slice in
           iloc_slice start k t) = trimmed i t.
Proof.
  rewrite dict_get_slice_rules. reflexivity.
Qed.

Lemma choose_from_cons (i : nat) (t : DataFrame) rest :
  choose_from i (Some t :: rest) =
  if df_empty t then choose_from (S i) rest
  else if (df_len t <=? 5) || (df_ncols t <=? 2) then choose_from (S i) rest
  else
    let (start, k) := dict_get slice_rules i default_slice in
    let df := iloc_slice start k t in
    if df_empty df || (df_len df <? 2) then choose_from (S i) rest
    else Some {| df_columns := hd [] (df_rows df); df_rows := tl (df_rows df) |}.
Proof. reflexivity. Qed.

(** One step of the loop on a table that is large enough. *)
Lemma choose_from_considered (i : nat) (t : DataFrame) rest :
  5 < df_len t -> 2 < df_ncols t ->
  choose_from i (Some t :: rest) =
  if length (trimmed i t) <? 2 then choose_from (S i) rest
  else Some {| df_columns := hd [] (trimmed i t); df_rows := tl (trimmed i t) |}.
Proof.
  intros Hl Hc. rewrite choose_from_cons.
  assert (E0 : (df_len t =? 0) = false) by (apply Nat.eqb_neq; lia).
  assert (E1 : (df_ncols t =? 0) = false) by (apply Nat.eqb_neq; lia).
  assert (E2 : (df_len t <=? 5) = false) by (apply Nat.leb_gt; lia).
  assert (E3 : (df_ncols t <=? 2) = false) by (apply Nat.leb_gt; lia).
  unfold df_empty at 1. rewrite E0, E1, E2, E3. cbn [orb].
  rewrite dict_get_slice_rules.
  set (df := iloc_slice (if i =? 2 then 1 else 3) 2 t).
  assert (Hr : df_rows df = trimmed i t) by reflexivity.
  assert (Hn : df_ncols df = df_ncols t) by reflexivity.
  unfold df_empty, df_len. rewrite Hn, Hr, E1.
  destruct (length (trimmed i t)) as [|[|n]] eqn:E; reflexivity.
Qed.

(** One step of the loop on a table that is too small. *)
Lemma choose_from_too_small (i : nat) (t : DataFrame) rest :
  too_small t -> choose_from i (Some t :: rest) = choose_from (S i) rest.
Proof.
  intros H. rewrite choose_from_cons.
  destruct (df_empty t); [reflexivity|].
  destruct H as [H|H].
  - apply Nat.leb_le in H. now rewrite H.
  - apply Nat.leb_le in H. rewrite H. now rewrite orb_true_r.
Qed.

Lemma too_small_dec (t : DataFrame) : {too_small t} + {5 < df_len t /\ 2 < df_ncols t}.
Proof.
  unfold too_small.
  destruct (le_lt_dec (df_len t) 5); [left; now left|].
  destruct (le_lt_dec (df_ncols t) 2); [left; now right|].
  right. now split.
Qed.

(** The loop returns the first table, in the order of the list, that is not
    passed over; the index that selects the offsets counts from the start
    of the original list. *)
Lemma choose_from_spec (tables : list (option DataFrame)) : forall i0,
  match choose_from i0 tables with
  | Some df =>
    exists i t,
      nth_error tables i = Some (Some t) /\
      5 < df_len t /\ 2 < df_ncols t /\
      trimmed (i0 + i) t = df_columns df :: df_rows df /\
      2 <= length (trimmed (i0 + i) t) /\
      forall j tbl, j < i -> nth_error tables j = Some tbl ->
                    passed_over (i0 + j) tbl
  | None =>
    forall j tbl, nth_error tables j = Some tbl -> passed_over (i0 + j) tbl
  end.
Proof.
  induction tables as [|tbl rest IH]; intros i0.
  - simpl. intros [|j] tbl H; discriminate.
  - assert (Hskip : passed_over i0 tbl ->
                    choose_from i0 (tbl :: rest) = choose_from (S i0) rest ->
                    match choose_from i0 (tbl :: rest) with
                    | Some df =>
                      exists i t,
                        nth_error (tbl :: rest) i = Some (Some t) /\
                        5 < df_len t /\ 2 < df_ncols t /\
                        trimmed (i0 + i) t = df_columns df :: df_rows df /\
                        2 <= length (trimmed (i0 + i) t) /\
                        forall j tbl', j < i -> nth_error (tbl :: rest) j = Some tbl' ->
                                       passed_over (i0 + j) tbl'
                    | None =>
                      forall j tbl', nth_error (tbl :: rest) j = Some tbl' ->
                                     passed_over (i0 + j) tbl'
                    end).
    { intros Hp Heq. rewrite Heq. specialize (IH (S i0)).
      destruct (choose_from (S i0) rest) as [df|].
      - destruct IH as (i & t & Hn & Hl & Hc & Ht & H2 & Hj).
        exists (S i), t. rewrite Nat.add_succ_r. repeat split; auto.
        intros [|j] tbl' Hlt Hnth; simpl in Hnth.
        + injection Hnth as <-. now rewrite Nat.add_0_r.
        + rewrite Nat.add_succ_r. apply (Hj j); [lia|assumption].
      - intros [|j] tbl' Hnth; simpl in Hnth.
        + injection Hnth as <-. now rewrite Nat.add_0_r.
        + rewrite Nat.add_succ_r. now apply (IH j). }
    destruct tbl as [t|]; [|apply Hskip; [exact I|reflexivity]].
    destruct (too_small_dec t) as [Hs|[Hl Hc]].
    + apply Hskip; [now left|now apply choose_from_too_small].
    + pose proof (choose_from_considered i0 t rest Hl Hc) as Heq.
      destruct (length (trimmed i0 t) <? 2) eqn:E.
      * apply Nat.ltb_lt in E. apply Hskip; [now right|assumption].
      * apply Nat.ltb_ge in E. rewrite Heq.
        exists 0, t. rewrite Nat.add_0_r. simpl.
        repeat split; auto.
        -- destruct (trimmed i0 t); [simpl in E; lia|reflexivity].
        -- intros j tbl' Hlt. lia.
Qed.

(** C4.  The Table Selector goes through the raw tables in their original
    order.  A table with 5 or fewer rows or 2 or fewer columns is skipped.
    A table that is considered is trimmed by offsets chosen by its index in
    the original list: rows [1 : end-2) at index 2 and rows [3 : end-2) at
    index 0 and at every other index; the selected table is the first one,
    in list order, that is not passed over, its first trimmed row being the
    header.  A first-positioned table with 3 rows is rejected. *)
Theorem table_selector_positional_trim :
  (forall tables,
      match _choose_and_clean_table tables with
      | Some df =>
        exists i t,
          nth_error tables i = Some (Some t) /\
          5 < df_len t /\ 2 < df_ncols t /\
          trimmed i t = df_columns df :: df_rows df /\
          forall j tbl, j < i -> nth_error tables j = Some tbl -> passed_over j tbl
      | None =>
        forall j tbl, nth_error tables j = Some tbl -> passed_over j tbl
      end) /\
  (forall i t rest,
      too_small t -> choose_from i (Some t :: rest) = choose_from (S i) rest) /\
  (forall i t,
      trimmed i t = skipn (if i =? 2 then 1 else 3)
                          (firstn (df_len t - 2) (df_rows t)) /\
      df_rows (let (start, k) := dict_get slice_rules i default_slice in
               iloc_slice start k t) = trimmed i t) /\
  (forall t rest,
      df_len t = 3 ->
      _choose_and_clean_table (Some t :: rest) = choose_from 1 rest).
Proof.
  split; [|split; [|split]].
  - intros tables. unfold _choose_and_clean_table.
    pose proof (choose_from_spec tables 0) as H.
    destruct (choose_from 0 tables) as [df|]; simpl in H.
    + destruct H as (i & t & H1 & H2 & H3 & H4 & _ & H6).
      exists i, t. repeat split; auto.
    + exact H.
  - intros i t rest. apply choose_from_too_small.
  - intros i t. split; [reflexivity|apply iloc_slice_trimmed].
  - intros t rest H. unfold _choose_and_clean_table.
    apply choose_from_too_small. left. lia.
Qed.

Lemma table_selector_positional_trim_witness :
  (df_len example_small_table = 3 /\ too_small example_small_table) /\
  _choose_and_clean_table [Some example_small_table; Some example_raw_table]
  = choose_from 1 [Some example_raw_table] /\
  exists i t,
    nth_error [Some example_small_table; Some example_raw_table] i = Some (Some t) /\
    trimmed i t = df_columns example_selected :: df_rows example_selected /\
    forall j tbl, j < i ->
                  nth_error [Some example_small_table; Some example_raw_table] j = Some tbl ->
                  passed_over j tbl.
Proof.
  assert (H3 : df_len example_small_table = 3) by reflexivity.
  assert (Hs : too_small example_small_table) by (left; rewrite H3; lia).
  split; [split; assumption|].
  destruct table_selector_positional_trim as (Hsel & _ & _ & Hfirst).
  split; [exact (Hfirst example_small_table [Some example_raw_table] H3)|].
  pose proof (Hsel [Some example_small_table; Some example_raw_table]) as H.
  assert (E : _choose_and_clean_table [Some example_small_table; Some example_raw_table]
              = Some example_selected) by (vm_compute; reflexivity).
  rewrite E in H. destruct H as (i & t & H1 & _ & _ & H4 & H5).
  exists i, t. auto.
Defined.

(** C5 (as stated).  A table at index 0 with seven rows is trimmed to
    exactly two rows; the selector accepts it, with a single data row left
    after the header is removed. *)
Lemma selector_accepts_single_data_row :
  5 < df_len example_table_7 /\ 2 < df_ncols example_table_7 /\
  length (trimmed 0 example_table_7) = 2 /\
  _choose_and_clean_table [Some example_table_7] =
    Some {| df_columns := example_row "r3"; df_rows := [example_row "r4"] |} /\
  ~ 2 <= length [example_row "r4"].
Proof.
  repeat split; try (vm_compute; lia); vm_compute; reflexivity.
Qed.

(** C5 (amended).  For every table that is considered, the first row left by
    the positional trim becomes the header and is removed; the table is
    accepted exactly when the trim leaves at least 2 rows, that is at least 1
    data row under the header.  When the trim leaves fewer than 2 rows the
    table is rejected and the loop goes on with the next raw table. *)
Theorem selector_header_and_minimum_rows (i : nat) (t : DataFrame)
  (rest : list (option DataFrame)) :
  5 < df_len t -> 2 < df_ncols t ->
  (2 <= length (trimmed i t) ->
   exists header data,
     trimmed i t = header :: data /\ 1 <= length data /\
     choose_from i (Some t :: rest)
     = Some {| df_columns := header; df_rows := data |}) /\
  (length (trimmed i t) < 2 ->
   choose_from i (Some t :: rest) = choose_from (S i) rest).
Proof.
  intros Hl Hc. rewrite (choose_from_considered i t rest Hl Hc). split.
  - intros H. destruct (trimmed i t) as [|header data] eqn:E; [simpl in H; lia|].
    exists header, data. simpl in H. repeat split; [lia|].
    destruct (length (header :: data) <? 2) eqn:E2; [|reflexivity].
    apply Nat.ltb_lt in E2. simpl in E2. lia.
  - intros H. apply Nat.ltb_lt in H. now rewrite H.
Qed.

Lemma selector_header_and_minimum_rows_witness :
  (5 < df_len example_table_7 /\ 2 < df_ncols example_table_7) /\
  ((2 <= length (trimmed 0 example_table_7) ->
    exists header data,
      trimmed 0 example_table_7 = header :: data /\ 1 <= length data /\
      choose_from 0 [Some example_table_7]
      = Some {| df_columns := header; df_rows := data |}) /\
   (length (trimmed 0 example_table_7) < 2 ->
    choose_from 0 [Some example_table_7] = choose_from 1 [])).
Proof.
  split.
  - split; vm_compute; lia.
  - apply (selector_header_and_minimum_rows 0 example_table_7 []);
      vm_compute; lia.
Defined.

(** ** Field Normalizer *)

Lemma allowed_cons (c : char) (s : pystr) :
  numeric_char c = true -> allowed s -> allowed (c :: s).
Proof. unfold allowed. simpl. intros -> ->. reflexivity. Qed.

Lemma skip_ascii_space_allowed (s : pystr) :
  allowed (skip_ascii_space s) -> allowed s.
Proof.
  induction s as [|c s IH]; simpl; [auto|].
  destruct (is_ascii_space c) eqn:E; [|auto].
  intros H. apply allowed_cons; [|auto].
  unfold numeric_char. rewrite E. now rewrite orb_true_r.
Qed.

Lemma read_sign_allowed (s : pystr) : allowed (snd (read_sign s)) -> allowed s.
Proof.
  destruct s as [|c s]; simpl; [auto|].
  destruct (char_eqb c 45) eqn:E1; simpl.
  - intros H. apply allowed_cons; [|auto]. unfold numeric_char.
    rewrite E1. now rewrite !orb_true_r.
  - destruct (char_eqb c 43) eqn:E2; simpl; [|auto].
    intros H. apply allowed_cons; [|auto]. unfold numeric_char.
    rewrite E2. now rewrite !orb_true_r.
Qed.

Lemma read_digits_allowed (s : pystr) : forall acc n,
  allowed (snd (read_digits acc n s)) -> allowed s.
Proof.
  induction s as [|c s IH]; intros acc n; simpl; [auto|].
  destruct (is_digit c) eqn:E; [|auto].
  intros H. apply allowed_cons; [|eauto].
  unfold numeric_char. now rewrite E.
Qed.

Lemma read_exponent_allowed (s : pystr) (e : Z) (r : pystr) :
  read_exponent s = Some (e, r) -> allowed r -> allowed s.
Proof.
  destruct s as [|c s]; simpl.
  - intros [= <- <-]. auto.
  - destruct (char_eqb c 101 || char_eqb c 69) eqn:E.
    + destruct (read_sign s) as [neg r1] eqn:E1.
      destruct (read_digits 0 0 r1) as [[e' k] r2] eqn:E2.
      destruct k; [discriminate|]. intros [= <- <-] H.
      apply allowed_cons.
      * unfold numeric_char. apply orb_true_iff in E as [E|E]; rewrite E;
          now rewrite !orb_true_r.
      * apply read_sign_allowed. rewrite E1. simpl.
        apply (read_digits_allowed r1 0%Z 0). now rewrite E2.
    + intros [= <- <-]. auto.
Qed.

(** A text that [pd.to_numeric] converts is made of digits, signs, points,
    exponent marks and ASCII white space only. *)
Lemma to_numeric_allowed (s : pystr) (q : Q) : to_numeric s = Some q -> allowed s.
Proof.
  unfold to_numeric. intros H.
  apply skip_ascii_space_allowed.
  destruct (read_sign (skip_ascii_space s)) as [neg s1] eqn:E1.
  apply read_sign_allowed. rewrite E1. simpl.
  destruct (read_digits 0 0 s1) as [[ip n1] s2] eqn:E2.
  apply (read_digits_allowed s1 0%Z 0). rewrite E2. simpl.
  assert (Hfrac : forall m n2 s3,
             match s2 with
             | c :: r => if char_eqb c 46 then read_digits ip 0 r else (ip, 0, s2)
             | [] => (ip, 0, s2)
             end = (m, n2, s3) -> allowed s3 -> allowed s2).
  { intros m n2 s3. destruct s2 as [|c r].
    - intros [= <- <- <-]. auto.
    - destruct (char_eqb c 46) eqn:E.
      + intros E3 H3. apply allowed_cons.
        * unfold numeric_char. rewrite E. now rewrite !orb_true_r.
        * apply (read_digits_allowed r ip 0). now rewrite E3.
      + intros [= <- <- <-]. auto. }
  destruct (match s2 with
            | c :: r => if char_eqb c 46 then read_digits ip 0 r else (ip, 0, s2)
            | [] => (ip, 0, s2)
            end) as [[m n2] s3] eqn:E3.
  apply (Hfrac m n2 s3 eq_refl).
  destruct (n1 + n2); [discriminate|].
  destruct (read_exponent s3) as [[e s4]|] eqn:E4; [|discriminate].
  apply (read_exponent_allowed s3 e s4 E4).
  apply skip_ascii_space_allowed.
  destruct (skip_ascii_space s4); [reflexivity|discriminate].
Qed.

Lemma allowed_In (s : pystr) (c : char) : allowed s -> In c s -> numeric_char c = true.
Proof.
  unfold allowed. rewrite forallb_forall. auto.
Qed.

Lemma replace_char_keeps (a : char) (b s : pystr) (c : char) :
  In c s -> c <> a -> In c (replace_char a b s).
Proof.
  intros Hin Hne. unfold replace_char. apply in_flat_map.
  exists c. split; [assumption|].
  destruct (char_eqb c a) eqn:E; [apply char_eqb_eq in E; contradiction|].
  now left.
Qed.

Lemma empty_to_na_nonempty (s : pystr) : empty_to_na s <> Some [].
Proof. destruct s; simpl; congruence. Qed.

(** C8.  The three normalisers are functions from cells to cells: every
    input, missing or any text, has a result and none raises.  A missing or
    empty input gives the missing marker, the text and code normalisers
    never return an empty text, and a text with a character that cannot
    occur in a number is missing after numeric normalisation, unless it is
    one of the tokens for infinity.  The listed examples hold. *)
Theorem field_normalizers_total :
  (clean_text_series None = None /\ clean_code_series None = None /\
   _to_number_series None = None) /\
  (clean_text_series (Some []) = None /\ clean_code_series (Some []) = None /\
   _to_number_series (Some []) = None) /\
  (forall c, clean_text_series c <> Some []) /\
  (forall c, clean_code_series c <> Some []) /\
  (forall s c, In c s -> numeric_char c = false -> c <> 160%N -> c <> 44%N ->
               ~ In 0%N s -> infinity_token (number_text s) = false ->
               _to_number_series (Some s) = None) /\
  (exists q, _to_number_series (Some (py "1 234,56")) = Some q /\
             (q == 1234.56)%Q) /\
  _to_number_series (Some (py "1234")) = Some 1234%Q /\
  _to_number_series (Some (py "")) = None /\
  _to_number_series (Some (py "N/A")) = None /\
  clean_code_series (Some (py "123.0")) = Some (py "123") /\
  clean_code_series (Some (py "  45  ")) = Some (py "45").
Proof.
  split; [repeat split|].
  split; [repeat split|].
  split; [intros c; apply empty_to_na_nonempty|].
  split; [intros c; apply empty_to_na_nonempty|].
  split.
  - intros s c Hin Hnum H160 H44 _ _.
    destruct (_to_number_series (Some s)) as [q|] eqn:E; [|reflexivity].
    exfalso. unfold _to_number_series in E. simpl in E.
    apply to_numeric_allowed in E.
    assert (Hc : numeric_char c = true).
    { apply (allowed_In _ c E).
      apply replace_char_keeps; [|assumption].
      apply replace_char_keeps.
      - apply replace_char_keeps; assumption.
      - intros ->. discriminate Hnum. }
    congruence.
  - split.
    + eexists. split; [vm_compute; reflexivity|]. vm_compute. reflexivity.
    + repeat split; vm_compute; reflexivity.
Qed.

Lemma field_normalizers_total_witness :
  (In 78%N (py "N/A") /\ numeric_char 78 = false /\ 78%N <> 160%N /\ 78%N <> 44%N /\
   ~ In 0%N (py "N/A") /\ infinity_token (number_text (py "N/A")) = false) /\
  _to_number_series (Some (py "N/A")) = None.
Proof.
  assert (H1 : In 78%N (py "N/A")) by (left; reflexivity).
  assert (H2 : numeric_char 78 = false) by reflexivity.
  assert (H3 : 78%N <> 160%N) by discriminate.
  assert (H4 : 78%N <> 44%N) by discriminate.
  assert (H5 : ~ In 0%N (py "N/A")).
  { vm_compute. intros [H|[H|[H|[]]]]; discriminate H. }
  assert (H6 : infinity_token (number_text (py "N/A")) = false)
    by (vm_compute; reflexivity).
  split; [repeat split; assumption|].
  destruct field_normalizers_total as (_ & _ & _ & _ & H & _).
  exact (H (py "N/A") 78%N H1 H2 H3 H4 H5 H6).
Defined.

(** ** Regular expressions *)

Lemma run_firstn (f : char -> bool) (s : pystr) : forall n,
  n <= run f s -> forallb f (firstn n s) = true /\ length (firstn n s) = n.
Proof.
  induction s as [|c s IH]; intros [|n] H; simpl in *; auto; try lia.
  destruct (f c) eqn:E; [|lia].
  destruct (IH n) as [H1 H2]; [lia|]. rewrite H1, H2. auto.
Qed.

Lemma run_app (f : char -> bool) (m r : pystr) :
  forallb f m = true -> length m <= run f (m ++ r).
Proof.
  induction m as [|c m IH]; simpl; [lia|].
  intros H. apply andb_true_iff in H as [H1 H2]. rewrite H1.
  apply IH in H2. lia.
Qed.

Lemma firstn_run_prefix (f : char -> bool) (s m r : pystr) :
  s = m ++ r -> firstn (length m) s = m /\ skipn (length m) s = r.
Proof.
  intros ->. split.
  - rewrite firstn_app, Nat.sub_diag, firstn_all. simpl. apply app_nil_r.
  - rewrite skipn_app, Nat.sub_diag, skipn_all. reflexivity.
Qed.

Lemma counts_In (lo : nat) (hi : option nat) (greedy : bool) (avail n : nat) :
  In n (counts lo hi greedy avail) <->
  lo <= n /\ n <= avail /\ match hi with Some h => n <= h | None => True end.
Proof.
  unfold counts.
  assert (H : In n (seq lo (S (match hi with
                                | Some h => Nat.min h avail
                                | None => avail
                                end) - lo)) <->
              lo <= n /\ n <= avail /\
              match hi with Some h => n <= h | None => True end).
  { rewrite in_seq. destruct hi as [h|]; lia. }
  destruct greedy; [rewrite <- in_rev|]; exact H.
Qed.

Lemma match_item_iff (re : regex) (i : item) (s m r : pystr) :
  In (m, r) (match_item re i s) <-> s = m ++ r /\ item_ok re i m.
Proof.
  destruct i as [k|k lo hi greedy]; simpl.
  - destruct s as [|x s]; simpl.
    + split; [tauto|]. intros [H (y & -> & _)]. discriminate.
    + destruct (class_match re k x) eqn:E; simpl.
      * split.
        -- intros [[= <- <-]|[]]. split; [reflexivity|]. now exists x.
        -- intros [H (y & -> & _)]. injection H as -> ->. now left.
      * split; [tauto|]. intros [H (y & -> & Hy)]. injection H as -> ->.
        congruence.
  - rewrite in_map_iff. split.
    + intros (n & [= <- <-] & Hn). apply counts_In in Hn as (H1 & H2 & H3).
      destruct (run_firstn (class_match re k) s n H2) as [Hf Hl].
      split; [symmetry; apply firstn_skipn|]. rewrite Hl. auto.
    + intros (-> & Hf & Hlo & Hhi). exists (length m).
      destruct (firstn_run_prefix (class_match re k) (m ++ r) m r eq_refl)
        as [-> ->].
      split; [reflexivity|]. apply counts_In.
      split; [assumption|]. split; [now apply run_app|assumption].
Qed.

Lemma match_atoms_iff (re : regex) (atoms : list atom) :
  forall cap s cap' r,
    In (cap', r) (match_atoms re atoms cap s) <-> atoms_ok re atoms cap s cap' r.
Proof.
  induction atoms as [|a atoms IH]; intros cap s cap' r.
  - simpl. split.
    + intros [[= <- <-]|[]]. auto.
    + intros [-> ->]. now left.
  - destruct a as [i|i]; simpl; rewrite in_flat_map; split.
    + intros ([m s'] & Hi & Hrest). simpl in Hrest.
      apply match_item_iff in Hi as [-> Hi]. apply IH in Hrest.
      exists m, s'. auto.
    + intros (m & s' & -> & Hi & Hrest). exists (m, s'). split.
      * apply match_item_iff. auto.
      * simpl. now apply IH.
    + intros ([m s'] & Hi & Hrest). simpl in Hrest.
      apply match_item_iff in Hi as [-> Hi]. apply IH in Hrest.
      exists m, s'. auto.
    + intros (m & s' & -> & Hi & Hrest). exists (m, s'). split.
      * apply match_item_iff. auto.
      * simpl. now apply IH.
Qed.

(** What [search] finds matches the pattern at the reported position. *)
Lemma search_from_sound (re : regex) (s : pystr) : forall pos m,
  search_from re pos s = Some m ->
  exists pre suf r,
    s = pre ++ suf /\ m_start m = pos + length pre /\
    atoms_ok re (pattern re) None suf (group1 m) r.
Proof.
  induction s as [|c s IH]; intros pos m; simpl; unfold match_at.
  - destruct (match_atoms re (pattern re) None []) as [|[g r] l] eqn:E;
      [discriminate|].
    intros [= <-]. exists [], [], r. simpl. repeat split; [lia|].
    apply match_atoms_iff. rewrite E. now left.
  - destruct (match_atoms re (pattern re) None (c :: s)) as [|[g r] l] eqn:E.
    + intros H. apply IH in H as (pre & suf & r & -> & Hs & Hok).
      exists (c :: pre), suf, r. simpl. repeat split; [lia|assumption].
    + intros [= <-]. exists [], (c :: s), r. simpl. repeat split; [lia|].
      apply match_atoms_iff. rewrite E. now left.
Qed.

(** [search] finds a match as soon as the pattern matches somewhere. *)
Lemma search_from_complete (re : regex) (pre suf : pystr) cap r : forall pos,
  atoms_ok re (pattern re) None suf cap r ->
  search_from re pos (pre ++ suf) <> None.
Proof.
  intros pos H. apply match_atoms_iff in H.
  assert (Hat : match_at re suf <> None).
  { unfold match_at. destruct (match_atoms re (pattern re) None suf) as [|[g r'] l];
      [contradiction|discriminate]. }
  clear H. revert pos. induction pre as [|c pre IH]; intros pos.
  - simpl. destruct suf; simpl; destruct (match_at re _); congruence.
  - simpl. destruct (match_at re (c :: pre ++ suf)); [discriminate|apply IH].
Qed.

(** ** Identifier Extractor *)

Lemma digit_class (re : regex) (m : pystr) :
  forallb (class_match re Digit) m = true <-> decimal_digits m.
Proof. reflexivity. Qed.

Lemma space_class (re : regex) (m : pystr) :
  forallb (class_match re Space) m = true <-> spaces m.
Proof. reflexivity. Qed.

Lemma nonempty_length (m : pystr) : 1 <= length m -> m <> [].
Proof. destruct m; simpl; [lia|discriminate]. Qed.

(** The fallback pattern matches exactly the fallback shape. *)
Lemma fallback_atoms_iff (suf : pystr) (cap : option pystr) (r : pystr) :
  atoms_ok DOCNO_RE_2 (pattern DOCNO_RE_2) None suf cap r <->
  exists g ws date,
    cap = Some g /\ suf = g ++ ws ++ date ++ r /\
    decimal_digits g /\ 1 <= length g <= 9 /\
    ws <> [] /\ spaces ws /\ date_token date.
Proof.
  unfold DOCNO_RE_2 at 2. cbn [pattern atoms_ok item_ok]. split.
  - intros (g & s1 & -> & (Hg & Hg1 & Hg2) &
            ws & s2 & -> & (Hws & Hws1 & _) &
            d1 & s3 & -> & (Hd1 & Hd1a & Hd1b) &
            p1 & s4 & -> & (x1 & -> & Hx1) &
            d2 & s5 & -> & (Hd2 & Hd2a & Hd2b) &
            p2 & s6 & -> & (x2 & -> & Hx2) &
            d3 & s7 & -> & (Hd3 & Hd3a & Hd3b) & -> & ->).
    change (char_eqb 46 x1 = true) in Hx1. change (char_eqb 46 x2 = true) in Hx2.
    apply char_eqb_eq in Hx1, Hx2. subst x1 x2.
    change (decimal_digits g) in Hg. change (spaces ws) in Hws.
    change (decimal_digits d1) in Hd1. change (decimal_digits d2) in Hd2. change (decimal_digits d3) in Hd3.
    exists g, ws, (d1 ++ [46%N] ++ d2 ++ [46%N] ++ d3).
    repeat split; auto.
    + now rewrite <- !app_assoc.
    + now apply nonempty_length.
    + exists d1, d2, d3. repeat split; auto; lia.
  - change (forall m, forallb (class_match DOCNO_RE_2 Digit) m = true)
      with (forall m, decimal_digits m).
    intros (g & ws & date & -> & -> & Hg & [Hg1 Hg2] & Hws1 & Hws &
            d1 & d2 & d3 & -> & Hd1 & Hl1 & Hd2 & Hl2 & Hd3 & Hl3).
    exists g, (ws ++ (d1 ++ [46%N] ++ d2 ++ [46%N] ++ d3) ++ r).
    split; [reflexivity|]. split; [auto|].
    exists ws, ((d1 ++ [46%N] ++ d2 ++ [46%N] ++ d3) ++ r).
    split; [reflexivity|]. split.
    { repeat split; auto. destruct ws; [contradiction|simpl; lia]. }
    exists d1, ([46%N] ++ d2 ++ [46%N] ++ d3 ++ r).
    split; [now rewrite <- !app_assoc|]. split; [repeat split; auto; lia|].
    exists [46%N], (d2 ++ [46%N] ++ d3 ++ r).
    split; [reflexivity|]. split; [now exists 46%N|].
    exists d2, ([46%N] ++ d3 ++ r).
    split; [reflexivity|]. split; [repeat split; auto; lia|].
    exists [46%N], (d3 ++ r).
    split; [reflexivity|]. split; [now exists 46%N|].
    exists d3, r.
    split; [reflexivity|]. split; [repeat split; auto; lia|]. auto.
Qed.

Lemma literal_atoms_iff (re : regex) (lit : pystr) (atoms : list atom) :
  forall cap s cap' r,
    atoms_ok re (literal lit ++ atoms) cap s cap' r <->
    exists l s',
      s = l ++ s' /\
      Forall2 (fun c x => class_match re (Lit c) x = true) lit l /\
      atoms_ok re atoms cap s' cap' r.
Proof.
  induction lit as [|c lit IH]; intros cap s cap' r.
  - simpl. split.
    + intros H. exists [], s. repeat split; [constructor|assumption].
    + intros (l & s' & -> & Hl & H). inversion Hl. subst. exact H.
  - cbn [literal map app atoms_ok item_ok]. split.
    + intros (m & s1 & -> & (x & -> & Hx) & H).
      apply IH in H as (l & s' & -> & Hl & H).
      exists (x :: l), s'. repeat split; [constructor|]; assumption.
    + intros (l & s' & -> & Hl & H). inversion Hl as [|c' x lit' l' Hx Hl']. subst.
      exists [x], (l' ++ s'). split; [reflexivity|]. split; [now exists x|].
      apply IH. exists l', s'. auto.
Qed.

Lemma lower_cyrillic (c : char) :
  cyrillic c -> lower c = if (c <=? 1071)%N then (c + 32)%N else c.
Proof.
  unfold cyrillic, lower. intros [H1 H2].
  destruct (N.leb_spec 65 c), (N.leb_spec c 90), (N.leb_spec 1040 c),
    (N.leb_spec c 1071), (N.leb_spec 1024 c), (N.leb_spec c 1039);
    simpl; try reflexivity; lia.
Qed.

(** The characters whose lower case is a given small Cyrillic letter. *)
Lemma lower_small (x lo : char) :
  (1072 <= lo <= 1103)%N -> (lower x = lo <-> x = lo \/ x = (lo - 32)%N).
Proof.
  intros Hlo. unfold lower.
  destruct (N.leb_spec 65 x), (N.leb_spec x 90), (N.leb_spec 1040 x),
    (N.leb_spec x 1071), (N.leb_spec 1024 x), (N.leb_spec x 1039);
    simpl; lia.
Qed.

(** The variant forms are their own lower case. *)
Lemma lower_variant (x v : char) :
  (7296 <= v <= 7302)%N -> (lower x = v <-> x = v).
Proof.
  intros Hv. unfold lower.
  destruct (N.leb_spec 65 x), (N.leb_spec x 90), (N.leb_spec 1040 x),
    (N.leb_spec x 1071), (N.leb_spec 1024 x), (N.leb_spec x 1039);
    simpl; lia.
Qed.

Lemma casefix_variants (lo v : char) : In v (casefix lo) -> (7296 <= v <= 7302)%N.
Proof.
  unfold casefix.
  repeat match goal with
         | |- context [if ?b then _ else _] => destruct b
         end; simpl; intros H; intuition lia.
Qed.

(** With [re.IGNORECASE] a Cyrillic letter of the pattern matches exactly
    the forms of the letter. *)
Lemma letter_class (c x : char) :
  cyrillic c ->
  (class_match DOCNO_RE_1 (Lit c) x = true <-> In x (letter_forms c)).
Proof.
  intros Hc. cbn [class_match DOCNO_RE_1 IGNORECASE].
  rewrite (lower_cyrillic c Hc). unfold letter_forms, cyrillic in *.
  set (lo := if (c <=? 1071)%N then (c + 32)%N else c).
  assert (Hlo : (1072 <= lo <= 1103)%N).
  { subst lo. destruct (N.leb_spec c 1071); lia. }
  change (variant_forms lo) with (casefix lo).
  cbn [existsb In]. rewrite orb_true_iff, existsb_exists.
  unfold char_eqb. rewrite N.eqb_eq. rewrite (lower_small x lo Hlo).
  split.
  - intros [[H|H]|(v & Hv & E)]; auto.
    apply N.eqb_eq in E.
    apply (lower_variant x v (casefix_variants lo v Hv)) in E. subst v. auto.
  - intros [H|[H|H]]; auto.
    right. exists x. split; [assumption|]. apply N.eqb_eq.
    now apply (lower_variant x x (casefix_variants lo x H)).
Qed.

Lemma spells_class (lit l : pystr) :
  Forall cyrillic lit ->
  (Forall2 (fun c x => class_match DOCNO_RE_1 (Lit c) x = true) lit l <->
   spells lit l).
Proof.
  unfold spells. intros Hlit. split; intros H; induction H; constructor;
    inversion Hlit; subst; auto; now apply (letter_class x y).
Qed.

Lemma label_cyrillic :
  Forall cyrillic (py "Номер") /\ Forall cyrillic (py "документа").
Proof. split; repeat constructor; vm_compute; intros H; discriminate H. Qed.

Lemma any_class (m : pystr) : forallb (class_match DOCNO_RE_1 Any) m = true.
Proof. induction m; simpl; auto. Qed.

(** The primary pattern matches exactly the primary shape. *)
Lemma primary_atoms_iff (suf : pystr) (cap : option pystr) (r : pystr) :
  atoms_ok DOCNO_RE_1 (pattern DOCNO_RE_1) None suf cap r <->
  exists l1 ws l2 mid g,
    cap = Some g /\ suf = l1 ++ ws ++ l2 ++ mid ++ g ++ r /\
    spells (py "Номер") l1 /\ ws <> [] /\ spaces ws /\
    spells (py "документа") l2 /\
    decimal_digits g /\ 4 <= length g <= 9.
Proof.
  unfold DOCNO_RE_1 at 2. cbn [pattern]. split.
  - intros H. apply literal_atoms_iff in H as (l1 & s1 & -> & Hl1 & H).
    cbn [app atoms_ok item_ok] in H.
    destruct H as (ws & s2 & -> & (Hws & Hws1 & _) & H).
    apply literal_atoms_iff in H as (l2 & s3 & -> & Hl2 & H).
    cbn [app atoms_ok item_ok] in H.
    destruct H as (mid & s4 & -> & _ & g & s5 & -> & (Hg & Hg1 & Hg2) & -> & ->).
    apply (spells_class _ _ (proj1 label_cyrillic)) in Hl1.
    apply (spells_class _ _ (proj2 label_cyrillic)) in Hl2.
    exists l1, ws, l2, mid, g. repeat split; auto.
    now apply nonempty_length.
  - intros (l1 & ws & l2 & mid & g & -> & -> & Hl1 & Hws1 & Hws & Hl2 & Hg & Hg1 & Hg2).
    apply (spells_class _ _ (proj1 label_cyrillic)) in Hl1.
    apply (spells_class _ _ (proj2 label_cyrillic)) in Hl2.
    apply literal_atoms_iff. exists l1, (ws ++ l2 ++ mid ++ g ++ r).
    split; [reflexivity|]. split; [assumption|].
    cbn [app atoms_ok item_ok].
    exists ws, (l2 ++ mid ++ g ++ r). split; [reflexivity|]. split.
    { repeat split; auto. destruct ws; [contradiction|simpl; lia]. }
    apply literal_atoms_iff. exists l2, (mid ++ g ++ r).
    split; [reflexivity|]. split; [assumption|].
    cbn [app atoms_ok item_ok].
    exists mid, (g ++ r). split; [reflexivity|]. split.
    { repeat split; [apply any_class|lia]. }
    exists g, r. repeat split; auto.
Qed.

Lemma search_start (re : regex) (text : pystr) (m : Match) :
  search re text = Some m ->
  exists pre suf r,
    text = pre ++ suf /\ m_start m = length pre /\
    atoms_ok re (pattern re) None suf (group1 m) r.
Proof.
  intros H. apply search_from_sound in H as (pre & suf & r & H1 & H2 & H3).
  exists pre, suf, r. auto.
Qed.

(** A match of the primary pattern gives a number in the primary shape. *)
Lemma primary_sound (text : pystr) (m : Match) :
  search DOCNO_RE_1 text = Some m ->
  exists g, group1 m = Some g /\ primary_shape text g.
Proof.
  intros H. apply search_start in H as (pre & suf & r & -> & _ & H).
  apply primary_atoms_iff in H
    as (l1 & ws & l2 & mid & g & Hc & -> & H1 & H2 & H3 & H4 & H5 & H6).
  exists g. split; [assumption|].
  exists pre, l1, ws, l2, mid, r. repeat split; auto; lia.
Qed.

Lemma primary_complete (text g : pystr) :
  primary_shape text g -> search DOCNO_RE_1 text <> None.
Proof.
  intros (pre & l1 & ws & l2 & mid & post & -> & H1 & H2 & H3 & H4 & H5 & H6).
  apply (search_from_complete DOCNO_RE_1 pre _ (Some g) post).
  apply primary_atoms_iff. exists l1, ws, l2, mid, g. repeat split; auto; lia.
Qed.

(** A match of the fallback pattern gives a number in the fallback shape,
    at the position where the match starts. *)
Lemma fallback_sound (text : pystr) (m : Match) :
  search DOCNO_RE_2 text = Some m ->
  exists g pre, group1 m = Some g /\ length pre = m_start m /\
                fallback_shape_at text pre g.
Proof.
  intros H. apply search_start in H as (pre & suf & r & -> & Hs & H).
  apply fallback_atoms_iff in H
    as (g & ws & date & Hc & -> & H1 & H2 & H3 & H4 & H5).
  exists g, pre. split; [assumption|]. split; [auto|].
  exists ws, date, r. repeat split; auto; lia.
Qed.

Lemma fallback_complete (text g : pystr) :
  fallback_shape text g -> search DOCNO_RE_2 text <> None.
Proof.
  intros (pre & ws & date & post & -> & H1 & H2 & H3 & H4 & H5).
  apply (search_from_complete DOCNO_RE_2 pre _ (Some g) post).
  apply fallback_atoms_iff. exists g, ws, date. repeat split; auto; lia.
Qed.

(** An identifier is a text of 1 to 9 decimal digits. *)
Lemma extract_doc_number_digits (d : document) (g : pystr) :
  extract_doc_number d = Some g -> decimal_digits g /\ 1 <= length g <= 9.
Proof.
  unfold extract_doc_number. fold (document_text d).
  destruct (search DOCNO_RE_1 (document_text d)) as [m|] eqn:E1.
  - apply primary_sound in E1 as (g' & Hg & Hs). rewrite Hg. intros [= <-].
    destruct Hs as (pre & l1 & ws & l2 & mid & post & _ & _ & _ & _ & _ & H5 & H6).
    split; [assumption|lia].
  - destruct (search DOCNO_RE_2 (document_text d)) as [m|] eqn:E2; [|discriminate].
    apply fallback_sound in E2 as (g' & pre & Hg & _ & Hs). rewrite Hg.
    intros [= <-].
    destruct Hs as (ws & date & post & _ & H5 & H6 & _). split; [assumption|lia].
Qed.

(** C9 (as stated).  In the text [1234567890 01.02.2020] the primary pattern
    does not match and the fallback pattern matches from the second
    character on: the identifier returned is the tail of a run of ten
    digits, not a standalone run. *)
Lemma fallback_number_not_standalone :
  search DOCNO_RE_1 (document_text example_tail_document) = None /\
  search DOCNO_RE_2 (document_text example_tail_document)
  = Some {| m_start := 1; group1 := Some (py "234567890") |} /\
  extract_doc_number example_tail_document = Some (py "234567890") /\
  preceded_by_digit (document_text example_tail_document) 1 = true.
Proof.
  repeat split; vm_compute; reflexivity.
Qed.

(** C9 (amended).  The patterns are applied in a fixed order and the first
    that matches gives the identifier.  The primary pattern matches when the
    text holds the label phrase, in any case of its letters, followed,
    possibly across line breaks, by 4 to 9 decimal digits (of any script),
    which it returns.  The fallback pattern matches when the
    text holds 1 to 9 digits followed by white space and a date token (two
    digits, a point, two digits, a point, four digits); the digits returned
    start where the match starts and may be the tail of a longer run of
    digits.  When neither pattern matches the result is "not found". *)
Theorem identifier_patterns_in_order (d : document) :
  (forall m, search DOCNO_RE_1 (document_text d) = Some m ->
             extract_doc_number d = group1 m) /\
  (search DOCNO_RE_1 (document_text d) = None ->
   forall m, search DOCNO_RE_2 (document_text d) = Some m ->
             extract_doc_number d = group1 m) /\
  (search DOCNO_RE_1 (document_text d) = None ->
   search DOCNO_RE_2 (document_text d) = None ->
   extract_doc_number d = None) /\
  (forall m, search DOCNO_RE_1 (document_text d) = Some m ->
             exists g, group1 m = Some g /\ primary_shape (document_text d) g) /\
  (forall m, search DOCNO_RE_2 (document_text d) = Some m ->
             exists g pre, group1 m = Some g /\ length pre = m_start m /\
                           fallback_shape_at (document_text d) pre g) /\
  (forall g, primary_shape (document_text d) g ->
             search DOCNO_RE_1 (document_text d) <> None) /\
  (forall g, fallback_shape (document_text d) g ->
             search DOCNO_RE_2 (document_text d) <> None).
Proof.
  unfold extract_doc_number. fold (document_text d).
  repeat split.
  - intros m ->. reflexivity.
  - intros -> m ->. reflexivity.
  - intros -> ->. reflexivity.
  - apply primary_sound.
  - apply fallback_sound.
  - apply primary_complete.
  - apply fallback_complete.
Qed.

Lemma identifier_patterns_in_order_witness :
  (exists m, search DOCNO_RE_1 (document_text example_labelled_document) = Some m /\
             extract_doc_number example_labelled_document = group1 m /\
             group1 m = Some (py "123456")) /\
  (exists m, search DOCNO_RE_1 (document_text example_arabic_document) = Some m /\
             extract_doc_number example_arabic_document = group1 m /\
             group1 m = Some (py "١٢٣٤٥") /\
             primary_shape (document_text example_arabic_document) (py "١٢٣٤٥")).
Proof.
  split.
  - exists {| m_start := 5; group1 := Some (py "123456") |}.
    assert (H : search DOCNO_RE_1 (document_text example_labelled_document)
                = Some {| m_start := 5; group1 := Some (py "123456") |})
      by (vm_compute; reflexivity).
    split; [exact H|]. split; [|reflexivity].
    exact (proj1 (identifier_patterns_in_order example_labelled_document) _ H).
  - exists {| m_start := 0; group1 := Some (py "١٢٣٤٥") |}.
    assert (H : search DOCNO_RE_1 (document_text example_arabic_document)
                = Some {| m_start := 0; group1 := Some (py "١٢٣٤٥") |})
      by (vm_compute; reflexivity).
    destruct (identifier_patterns_in_order example_arabic_document)
      as (H1 & _ & _ & H4 & _).
    split; [exact H|]. split; [exact (H1 _ H)|]. split; [reflexivity|].
    destruct (H4 _ H) as (g & Hg & Hs). cbn [group1] in Hg.
    injection Hg as <-. exact Hs.
Defined.

(** ** Grouping *)

Lemma insert_key_In (k x : pystr) (l : list pystr) :
  In x (insert_key k l) <-> x = k \/ In x l.
Proof.
  induction l as [|y l IH]; simpl.
  - intuition.
  - destruct (str_compare k y) eqn:E; simpl.
    + apply str_compare_eq in E. subst. intuition.
    + intuition.
    + rewrite IH. intuition.
Qed.

Lemma sorted_keys_In (x : pystr) (l : list pystr) :
  In x (sorted_keys l) <-> In x l.
Proof.
  induction l as [|y l IH]; simpl; [tauto|].
  rewrite insert_key_In, IH. intuition.
Qed.

Lemma insert_key_sorted (k : pystr) (l : list pystr) :
  keys_sorted l -> keys_sorted (insert_key k l).
Proof.
  unfold keys_sorted. induction l as [|y l IH]; intros H; simpl.
  - constructor; constructor.
  - inversion H as [|? ? Hl Hy]; subst.
    destruct (str_compare k y) eqn:E.
    + assumption.
    + constructor; [assumption|]. constructor; [assumption|].
      rewrite Forall_forall in *. intros z Hz.
      apply (str_compare_trans k y z E). auto.
    + constructor; [auto|].
      rewrite Forall_forall in *. intros z Hz.
      apply insert_key_In in Hz as [->|Hz]; [|auto].
      rewrite str_compare_antisym, E. reflexivity.
Qed.

Lemma sorted_keys_sorted (l : list pystr) : keys_sorted (sorted_keys l).
Proof.
  induction l as [|y l IH]; simpl.
  - constructor.
  - now apply insert_key_sorted.
Qed.

Lemma keys_sorted_NoDup (l : list pystr) : keys_sorted l -> NoDup l.
Proof.
  unfold keys_sorted. induction 1 as [|x l Hl IH Hx]; constructor; [|assumption].
  intros Hin. rewrite Forall_forall in Hx. specialize (Hx x Hin).
  assert (E : str_compare x x = Eq) by now apply str_compare_eq.
  congruence.
Qed.

Lemma sorted_keys_NoDup (l : list pystr) : NoDup (sorted_keys l).
Proof. apply keys_sorted_NoDup, sorted_keys_sorted. Qed.

Lemma first_valid_spec (x : list cell) : first_non_missing x (first_valid x).
Proof.
  unfold first_valid. induction x as [|[v|] x IH]; simpl.
  - intros w [].
  - exists [], x. split; [reflexivity|]. intros w [].
  - destruct (dropna x) as [|v l]; simpl in *.
    + intros w [H|H]; [discriminate|]. now apply (IH w).
    + destruct IH as (a & b & -> & Ha). exists (None :: a), b.
      split; [reflexivity|]. intros w [H|H]; [discriminate|]. now apply (Ha w).
Qed.

(** ** Document Table Builder *)

Lemma cell_eqb_eq (a : cell) (c : pystr) : cell_eqb a (Some c) = true <-> a = Some c.
Proof.
  destruct a as [x|]; simpl.
  - rewrite str_eqb_eq. split; congruence.
  - split; discriminate.
Qed.

Lemma cell_eqb_sym (a b : cell) : cell_eqb a b = cell_eqb b a.
Proof.
  destruct a as [x|], b as [y|]; simpl; auto.
  destruct (str_eqb x y) eqn:E.
  - apply str_eqb_eq in E. subst. now rewrite str_eqb_refl.
  - destruct (str_eqb y x) eqn:E'; [|reflexivity].
    apply str_eqb_eq in E'. subst. now rewrite str_eqb_refl in E.
Qed.







(** The sum that pandas computes is the total of the values. *)
Lemma qsum_total (l : list (option Q)) : (qsum l == total l)%Q.
Proof.
  induction l as [|[q|] l IH]; simpl.
  - reflexivity.
  - now rewrite IH.
  - rewrite IH. apply Qplus_0_l.
Qed.


Lemma example_whole_source : exact_source (selected_columns example_whole_selected).
Proof.
  split; [|split; vm_compute; reflexivity].
  intros t Ht _ s Hs. unfold selected_columns in Ht.
  apply in_map_iff in Ht as (r & <- & Hr).
  destruct Hr as [<-|[<-|[<-|[]]]]; vm_compute in Hs; injection Hs as <-;
    (split; [vm_compute; reflexivity|]); (split; [vm_compute; reflexivity|]);
    first [left; vm_compute; reflexivity | right; vm_compute; reflexivity].
Qed.


(** ** Error message *)

Lemma contains_refl (s : pystr) : contains s s.
Proof. exists [], []. simpl. now rewrite app_nil_r. Qed.

Lemma contains_app_l (x a s : pystr) : contains x s -> contains x (a ++ s).
Proof.
  intros (p & q & ->). exists (a ++ p), q. now rewrite <- app_assoc.
Qed.

Lemma contains_app_r (x s b : pystr) : contains x s -> contains x (s ++ b).
Proof.
  intros (p & q & ->). exists p, (q ++ b). now rewrite <- !app_assoc.
Qed.

Lemma contains_join (sep x : pystr) (l : list pystr) :
  In x l -> contains x (join sep l).
Proof.
  induction l as [|y l IH]; [intros []|].
  intros [->|H].
  - destruct l as [|z l]; simpl; [apply contains_refl|].
    apply contains_app_r, contains_refl.
  - destruct l as [|z l]; [destruct H|].
    change (join sep (y :: z :: l)) with (y ++ sep ++ join sep (z :: l)).
    now apply contains_app_l, contains_app_l, IH.
Qed.

Lemma contains_list_repr {A : Type} (repr : A -> pystr) (x : A) (l : list A) :
  In x l -> contains (repr x) (list_repr repr l).
Proof.
  intros H. unfold list_repr.
  apply contains_app_l, contains_app_r, contains_join. now apply in_map.
Qed.

(** ** Batch processing *)

Lemma collect_app_raise (d : document) (e : exn) (after : list document) :
  build_doc_df d = Raise e ->
  forall before dfs, collect before = Ok dfs ->
                     collect (before ++ d :: after) = Raise e.
Proof.
  intros He. induction before as [|b before IH]; intros dfs H; simpl.
  - now rewrite He.
  - simpl in H. destruct (build_doc_df b) as [[o1 o2]|e']; simpl in *;
      [|discriminate].
    destruct o1 as [dfi|]; [destruct o2 as [n|]|]; try now apply (IH dfs).
    destruct (collect before) as [dfs'|e']; simpl in *; [|discriminate].
    now rewrite (IH dfs' eq_refl).
Qed.

(** C7.  For every document whose identifier is found and whose selected
    table lacks one of the required labels 2, 3 and 10, the Document Table
    Builder raises the structural error instead of skipping the document,
    and so does the run over a batch that reaches this document; the text
    of the error contains the path of the document, the missing labels and
    the names of the available columns. *)
Theorem missing_column_raises (d : document) (docno : pystr) (df : DataFrame) :
  extract_doc_number d = Some docno ->
  extract_table d = Some df ->
  (exists c, In c required /\ in_columns c (df_columns df) = false) ->
  exists missing,
    build_doc_df d = Raise (ValueError_columns (pdf_path d) missing (df_columns df)) /\
    missing <> [] /\
    (forall c, In c missing <-> In c required /\ in_columns c (df_columns df) = false) /\
    (forall before after dfs,
        collect before = Ok dfs ->
        process_pdfs (before ++ d :: after)
        = Raise (ValueError_columns (pdf_path d) missing (df_columns df))) /\
    (forall repr : cell -> pystr,
        let msg := message repr (ValueError_columns (pdf_path d) missing (df_columns df)) in
        contains (pdf_path d) msg /\
        (forall c, In c missing -> contains (repr (Some c)) msg) /\
        (forall c, In c (df_columns df) -> contains (repr c) msg)).
Proof.
  intros Hd Ht (c0 & Hreq & Hin).
  set (missing := filter (fun c => negb (in_columns c (df_columns df))) required).
  assert (Hmiss : forall c, In c missing <->
                            In c required /\ in_columns c (df_columns df) = false).
  { intros c. unfold missing. rewrite filter_In, negb_true_iff. tauto. }
  assert (Hne : missing <> []).
  { intros E. assert (H : In c0 missing) by (apply Hmiss; auto).
    rewrite E in H. destruct H. }
  assert (Hb : build_doc_df d
               = Raise (ValueError_columns (pdf_path d) missing (df_columns df))).
  { unfold build_doc_df. rewrite Hd.
    apply extract_doc_number_digits in Hd as [_ Hlen].
    destruct docno as [|x docno]; [simpl in Hlen; lia|].
    rewrite Ht. fold missing. destruct missing; [congruence|reflexivity]. }
  exists missing. repeat split; auto; try apply Hmiss; try tauto.
  - intros before after dfs Hc. unfold process_pdfs.
    now rewrite (collect_app_raise d _ after Hb before dfs Hc).
  - apply contains_app_r, contains_refl.
  - intros c Hc. cbn [message].
    apply contains_app_l, contains_app_l, contains_app_r.
    apply (contains_list_repr repr (Some c)). now apply in_map.
  - intros c Hc. cbn [message].
    apply contains_app_l, contains_app_l, contains_app_l, contains_app_l.
    now apply contains_list_repr.
Qed.

Lemma missing_column_raises_witness :
  (extract_doc_number example_bad_document = Some (py "12345") /\
   (exists df, extract_table example_bad_document = Some df /\
               In (py "10") required /\ in_columns (py "10") (df_columns df) = false)) /\
  exists missing,
    build_doc_df example_bad_document
    = Raise (ValueError_columns (py "bad.pdf") missing (example_cells "2" "3" "9")) /\
    missing <> [] /\
    process_pdfs [example_document; example_bad_document]
    = Raise (ValueError_columns (py "bad.pdf") missing (example_cells "2" "3" "9")).
Proof.
  assert (H1 : extract_doc_number example_bad_document = Some (py "12345"))
    by (vm_compute; reflexivity).
  set (df := {| df_columns := example_cells "2" "3" "9";
                df_rows := [example_cells "Хлеб" "101" "1 234,56";
                            example_cells "Молоко" "102" "7"] |}).
  assert (H2 : extract_table example_bad_document = Some df)
    by (vm_compute; reflexivity).
  assert (H3 : In (py "10") required /\ in_columns (py "10") (df_columns df) = false)
    by (split; [right; right; left; reflexivity|vm_compute; reflexivity]).
  split.
  - split; [exact H1|]. exists df. tauto.
  - destruct (missing_column_raises example_bad_document (py "12345") df H1 H2
                (ex_intro _ (py "10") H3)) as (missing & Hb & Hne & _ & Hp & _).
    exists missing. split; [exact Hb|]. split; [exact Hne|].
    apply (Hp [example_document] [] [{| doc_number := py "12345";
                                        d_rows := group_rows (selected_columns example_selected) |}]).
    vm_compute. reflexivity.
Defined.

Lemma build_doc_df_skipped (d : document) :
  extract_doc_number d = None \/ extract_table d = None ->
  exists o, build_doc_df d = Ok (None, o).
Proof.
  unfold build_doc_df. intros [H|H].
  - rewrite H. eauto.
  - destruct (extract_doc_number d) as [[|c g]|]; eauto. rewrite H. eauto.
Qed.

Lemma collect_none (docs : list document) :
  (forall d, In d docs -> extract_doc_number d = None \/ extract_table d = None) ->
  collect docs = Ok [].
Proof.
  induction docs as [|d docs IH]; intros H; simpl; [reflexivity|].
  destruct (build_doc_df_skipped d) as [o ->]; [apply H; now left|].
  simpl. apply IH. intros d' Hd'. apply H. now right.
Qed.

(** C6 (as stated).  A batch whose only document has no identifier gives a
    table without any row and without a total column: there is no totals
    row. *)
Lemma no_eligible_document_no_totals_row :
  extract_doc_number example_anonymous_document = None /\
  exists f, process_pdfs [example_anonymous_document] = Ok f /\
            length (rows f) = 0 /\ ~ In ROW_TOTAL (value_columns f).
Proof.
  split; [vm_compute; reflexivity|].
  exists empty_frame. split; [vm_compute; reflexivity|].
  split; [reflexivity|]. intros [].
Qed.

(** C6 (amended).  When no document is eligible, every document lacking an
    identifier or a table, the run is not an error: it returns the empty
    reconciled table, which has the label and code columns only.  The Totals
    Calculator is applied to it and returns it unchanged, without totals row
    and without total column. *)
Theorem no_eligible_document_empty_table (docs : list document) :
  (forall d, In d docs -> extract_doc_number d = None \/ extract_table d = None) ->
  process_pdfs docs = Ok (add_totals empty_frame) /\
  add_totals empty_frame = empty_frame /\
  rows empty_frame = [] /\ value_columns empty_frame = [].
Proof.
  intros H. unfold process_pdfs. rewrite (collect_none docs H).
  repeat split.
Qed.

Lemma no_eligible_document_empty_table_witness :
  (forall d, In d [example_anonymous_document] ->
             extract_doc_number d = None \/ extract_table d = None) /\
  process_pdfs [example_anonymous_document] = Ok (add_totals empty_frame).
Proof.
  assert (H : forall d, In d [example_anonymous_document] ->
                        extract_doc_number d = None \/ extract_table d = None).
  { intros d [<-|[]]. left. vm_compute. reflexivity. }
  split; [exact H|].
  exact (proj1 (no_eligible_document_empty_table [example_anonymous_document] H)).
Defined.

(** ** Batch Reconciler *)

Lemma dropna_In {A : Type} (x : A) (l : list (option A)) :
  In x (dropna l) <-> In (Some x) l.
Proof.
  induction l as [|[y|] l IH]; simpl.
  - tauto.
  - rewrite IH. split; intros [H|H]; auto; left; congruence.
  - rewrite IH. split; [auto|]. intros [H|H]; [discriminate|assumption].
Qed.

Lemma group_of_In {A : Type} (k : pystr) (v : A) (l : list (pystr * A)) :
  In v (group_of k l) <-> In (k, v) l.
Proof.
  unfold group_of. rewrite in_map_iff. split.
  - intros ([k' v'] & <- & H). apply filter_In in H as [H E]. simpl in *.
    apply str_eqb_eq in E. now subst.
  - intros H. exists (k, v). split; [reflexivity|]. apply filter_In.
    split; [assumption|]. apply str_eqb_refl.
Qed.

Lemma group_of_nil {A : Type} (k : pystr) (l : list (pystr * A)) :
  group_of k l = [] -> ~ In k (map fst l).
Proof.
  intros E H. apply in_map_iff in H as ([k' v] & <- & H).
  apply (group_of_In k' v l) in H. simpl in E. rewrite E in H. destruct H.
Qed.

Lemma filter_nil {A : Type} (f : A -> bool) (l : list A) (x : A) :
  filter f l = [] -> In x l -> f x = false.
Proof.
  intros E H. destruct (f x) eqn:Ef; [|reflexivity].
  assert (Hin : In x (filter f l)) by (apply filter_In; auto).
  rewrite E in Hin. destruct Hin.
Qed.

(** The rows of an outer merge: a row of the left table extended by a cell,
    or a row made for a key that only the right table has. *)
Lemma merge_outer_rows (left : frame) (name : pystr) (right : list (pystr * Q))
  (r' : row) :
  In r' (rows (merge_outer left name right)) ->
  (exists r v, In r (rows left) /\ r' = add_val r v /\
               match v with
               | Some q => exists k, code r = Some k /\ In (k, q) right
               | None => forall k, code r = Some k -> ~ In k (map fst right)
               end) \/
  (exists k q,
      r' = {| label := None; code := Some k;
              vals := repeat None (length (value_columns left)) ++ [Some q] |} /\
      In (k, q) right /\ ~ In (Some k) (map code (rows left))).
Proof.
  unfold merge_outer. cbn [rows]. intros H. apply in_app_or in H as [H|H].
  - apply in_flat_map in H as (k & _ & H).
    destruct (filter (fun r => cell_eqb (code r) (Some k)) (rows left))
      as [|r0 ls] eqn:El.
    + right. apply in_map_iff in H as (q & <- & Hq). exists k, q.
      split; [reflexivity|]. split; [now apply group_of_In|].
      intros Hin. apply in_map_iff in Hin as (r & Hc & Hr).
      pose proof (filter_nil _ _ r El Hr) as Hf. simpl in Hf.
      rewrite Hc in Hf. simpl in Hf. now rewrite str_eqb_refl in Hf.
    + left. destruct (group_of k right) as [|q0 rs] eqn:Er.
      * apply in_map_iff in H as (r & <- & Hr). rewrite <- El in Hr.
        apply filter_In in Hr as [Hr Hc]. apply cell_eqb_eq in Hc.
        exists r, None. split; [assumption|]. split; [reflexivity|].
        intros k' Hk'. assert (k' = k) by congruence. subst k'.
        now apply group_of_nil.
      * apply in_flat_map in H as (r & Hr & H). rewrite <- El in Hr.
        apply filter_In in Hr as [Hr Hc]. apply cell_eqb_eq in Hc.
        apply in_map_iff in H as (q & <- & Hq). rewrite <- Er in Hq.
        exists r, (Some q). split; [assumption|]. split; [reflexivity|].
        exists k. split; [assumption|]. now apply group_of_In.
  - left. apply in_map_iff in H as (r & <- & Hr).
    apply filter_In in Hr as [Hr Hc].
    exists r, None. split; [assumption|]. split; [reflexivity|].
    intros k Hk. rewrite Hk in Hc. discriminate.
Qed.

(** An outer merge keeps every key of both sides. *)
Lemma merge_outer_keeps (left : frame) (name : pystr) (right : list (pystr * Q))
  (c : pystr) :
  In (Some c) (map code (rows left)) \/ In c (map fst right) ->
  In (Some c) (map code (rows (merge_outer left name right))).
Proof.
  intros H. unfold merge_outer. cbn [rows]. rewrite map_app. apply in_or_app. left.
  assert (Hk : In c (sorted_keys (dropna (map code (rows left)) ++ map fst right))).
  { apply sorted_keys_In, in_or_app. destruct H as [H|H]; [left|now right].
    now apply dropna_In. }
  apply in_map_iff.
  destruct (filter (fun r => cell_eqb (code r) (Some c)) (rows left))
    as [|r0 ls] eqn:El.
  - assert (Hr : In c (map fst right)).
    { destruct H as [H|H]; [|assumption]. exfalso.
      apply in_map_iff in H as (r & Hc & Hr).
      pose proof (filter_nil _ _ r El Hr) as Hf. simpl in Hf.
      rewrite Hc in Hf. simpl in Hf. now rewrite str_eqb_refl in Hf. }
    apply in_map_iff in Hr as ([k q] & Hkq & Hq). simpl in Hkq. subst k.
    exists {| label := None; code := Some c;
              vals := repeat None (length (value_columns left)) ++ [Some q] |}.
    split; [reflexivity|]. apply in_flat_map. exists c. split; [assumption|].
    rewrite El. apply in_map_iff. exists q. split; [reflexivity|].
    now apply group_of_In.
  - assert (Hr0 : In r0 (rows left) /\ code r0 = Some c).
    { assert (Hin : In r0 (filter (fun r => cell_eqb (code r) (Some c)) (rows left)))
        by (rewrite El; now left).
      apply filter_In in Hin as [Hin Hc]. apply cell_eqb_eq in Hc. auto. }
    destruct Hr0 as [Hr0 Hc0].
    destruct (group_of c right) as [|q0 rs] eqn:Er.
    + exists (add_val r0 None). split; [exact Hc0|].
      apply in_flat_map. exists c. split; [assumption|].
      rewrite El, Er. now left.
    + exists (add_val r0 (Some q0)). split; [exact Hc0|].
      apply in_flat_map. exists c. split; [assumption|].
      rewrite El, Er. cbn [flat_map map]. now left.
Qed.

Lemma names_codes (dfs : list doc_df) :
  map fst (flat_map (fun r : cell * cell => match fst r with
                                            | Some c => [(c, snd r)]
                                            | None => []
                                            end)
                    (flat_map (fun d => map (fun r => (Some (d_code r), d_label r))
                                            (d_rows d)) dfs))
  = all_codes dfs.
Proof.
  unfold all_codes, doc_codes.
  induction dfs as [|d dfs IH]; simpl; [reflexivity|].
  rewrite flat_map_app, map_app, IH. f_equal.
  induction (d_rows d) as [|r l IHl]; simpl; [reflexivity|]. now rewrite IHl.
Qed.

Lemma merged_upto_start (dfs : list doc_df) (lab : pystr -> cell) :
  merged_upto dfs []
    {| value_columns := [];
       rows := map (fun k => {| label := lab k; code := Some k; vals := [] |})
                   (sorted_keys (all_codes dfs)) |}.
Proof.
  unfold merged_upto, frame_codes. cbn [value_columns rows]. repeat split.
  - intros H. apply in_map_iff in H as (r & Hc & Hr).
    apply in_map_iff in Hr as (k & <- & Hk). simpl in Hc.
    injection Hc as <-. now apply sorted_keys_In.
  - intros H. apply in_map_iff.
    exists {| label := lab c; code := Some c; vals := [] |}. split; [reflexivity|].
    apply in_map_iff. exists c. split; [reflexivity|]. now apply sorted_keys_In.
  - apply in_map_iff in H as (k & <- & _). discriminate.
  - apply in_map_iff in H as (k & <- & _). reflexivity.
  - destruct i; discriminate.
  - destruct i; discriminate.
Qed.

Lemma doc_pairs_codes (d : doc_df) : map fst (doc_pairs d) = doc_codes d.
Proof. unfold doc_pairs, doc_codes. rewrite map_map. reflexivity. Qed.

Lemma nth_error_snoc {A : Type} (l : list A) (x : A) (i : nat) (y : A) :
  nth_error (l ++ [x]) i = Some y ->
  (i < length l /\ nth_error l i = Some y) \/ (i = length l /\ y = x).
Proof.
  intros H. destruct (Nat.lt_ge_cases i (length l)) as [Hlt|Hge].
  - left. split; [assumption|]. now rewrite nth_error_app1 in H.
  - right. rewrite nth_error_app2 in H by assumption.
    destruct (i - length l) as [|n] eqn:E; simpl in H.
    + injection H as <-. split; [lia|reflexivity].
    + destruct n; discriminate.
Qed.

(** One turn of the merge loop. *)
Lemma merged_upto_step (dfs merged : list doc_df) (d : doc_df) (f : frame) :
  merged_upto dfs merged f ->
  (forall c, In c (doc_codes d) -> In c (all_codes dfs)) ->
  merged_upto dfs (merged ++ [d]) (merge_outer f (doc_number d) (doc_pairs d)).
Proof.
  intros (Hcols & Hcodes & Hrows & Hcells) Hsub.
  assert (Hnew : forall r', In r' (rows (merge_outer f (doc_number d) (doc_pairs d))) ->
                 exists r v, In r (rows f) /\ r' = add_val r v /\
                             match v with
                             | Some q => exists k, code r = Some k /\ In (k, q) (doc_pairs d)
                             | None => forall k, code r = Some k ->
                                                 ~ In k (map fst (doc_pairs d))
                             end).
  { intros r' Hr'. apply merge_outer_rows in Hr' as [H|(k & q & _ & Hq & Hk)];
      [assumption|].
    exfalso. apply Hk. apply Hcodes, Hsub. rewrite <- doc_pairs_codes.
    apply in_map_iff. now exists (k, q). }
  unfold merged_upto. split; [|split; [|split]].
  - unfold merge_outer. cbn [value_columns]. now rewrite Hcols, map_app.
  - intros c. split.
    + intros H. apply in_map_iff in H as (r' & Hc & Hr').
      apply Hnew in Hr' as (r & v & Hr & -> & _). simpl in Hc.
      apply Hcodes. apply in_map_iff. now exists r.
    + intros H. apply merge_outer_keeps. left. now apply Hcodes.
  - intros r' Hr'. apply Hnew in Hr' as (r & v & Hr & -> & _).
    destruct (Hrows r Hr) as [H1 H2]. simpl. split; [assumption|].
    rewrite !length_app, H2. reflexivity.
  - intros r' c i d' Hr' Hc Hi. apply Hnew in Hr' as (r & v & Hr & -> & Hv).
    simpl in Hc. destruct (Hrows r Hr) as [_ Hlen]. cbn [add_val vals].
    apply nth_error_snoc in Hi as [[Hlt Hi]|[-> ->]].
    + rewrite nth_error_app1 by lia. now apply (Hcells r c i d').
    + rewrite nth_error_app2 by lia. rewrite Hlen, Nat.sub_diag. simpl.
      unfold cell_of_document. destruct v as [q|].
      * destruct Hv as (k & Hk & Hq). assert (k = c) by congruence. subst k.
        split.
        -- intros Hn. exfalso. apply Hn. rewrite <- doc_pairs_codes.
           apply in_map_iff. now exists (c, q).
        -- intros _. exists q. auto.
      * split; [reflexivity|]. intros Hin. exfalso.
        apply (Hv c Hc). now rewrite doc_pairs_codes.
Qed.

Lemma merged_upto_fold (dfs rest : list doc_df) : forall merged f,
  merged_upto dfs merged f ->
  (forall d c, In d rest -> In c (doc_codes d) -> In c (all_codes dfs)) ->
  merged_upto dfs (merged ++ rest)
    (fold_left (fun m dfi => merge_outer m (doc_number dfi) (doc_pairs dfi)) rest f).
Proof.
  induction rest as [|d rest IH]; intros merged f H Hsub; simpl.
  - now rewrite app_nil_r.
  - change (merged ++ d :: rest) with (merged ++ [d] ++ rest).
    rewrite app_assoc. apply IH.
    + apply merged_upto_step; [assumption|]. intros c. apply Hsub. now left.
    + intros d' c Hd'. apply Hsub. now right.
Qed.

Lemma all_codes_In (dfs : list doc_df) (c : pystr) :
  In c (all_codes dfs) <-> exists d, In d dfs /\ In c (doc_codes d).
Proof. unfold all_codes. apply in_flat_map. Qed.

Lemma reconcile_merged_upto (dfs : list doc_df) : merged_upto dfs dfs (reconcile dfs).
Proof.
  unfold reconcile. rewrite names_codes.
  apply (merged_upto_fold dfs dfs []).
  - apply merged_upto_start.
  - intros d c Hd Hc. apply all_codes_In. now exists d.
Qed.

(** C2.  For every list of document tables with distinct identifiers, the
    RowCodes of the reconciled table are exactly the RowCodes of the input
    tables taken together: none is lost and none is invented, and every row
    has a code.  The table has one value column for each document, in the
    order of the documents, and in the column of a document that lacks the
    code of a row the cell is missing, not zero; where the document has the
    code, the cell holds a value of the document for it. *)
Theorem reconciled_codes_are_union (dfs : list doc_df) :
  NoDup (map doc_number dfs) ->
  (forall c, In (Some c) (frame_codes (reconcile dfs)) <->
             exists d, In d dfs /\ In c (doc_codes d)) /\
  (forall r, In r (rows (reconcile dfs)) -> code r <> None) /\
  value_columns (reconcile dfs) = map doc_number dfs /\
  (forall r c i d,
      In r (rows (reconcile dfs)) -> code r = Some c -> nth_error dfs i = Some d ->
      cell_of_document d c (nth_error (vals r) i)).
Proof.
  intros _. destruct (reconcile_merged_upto dfs) as (H1 & H2 & H3 & H4).
  split; [|split; [|split]].
  - intros c. rewrite H2. apply all_codes_In.
  - intros r Hr. apply (H3 r Hr).
  - exact H1.
  - exact H4.
Qed.

Lemma reconciled_codes_are_union_witness :
  NoDup (map doc_number [example_doc_A; example_doc_B]) /\
  (forall c, In (Some c) (frame_codes (reconcile [example_doc_A; example_doc_B])) <->
             exists d, In d [example_doc_A; example_doc_B] /\ In c (doc_codes d)) /\
  value_columns (reconcile [example_doc_A; example_doc_B]) = [py "100"; py "200"].
Proof.
  assert (H : NoDup (map doc_number [example_doc_A; example_doc_B])).
  { repeat constructor; simpl; intuition discriminate. }
  split; [exact H|].
  destruct (reconciled_codes_are_union [example_doc_A; example_doc_B] H)
    as (H1 & _ & H3 & _).
  split; [exact H1|exact H3].
Defined.

(** ** Sorting *)

Section SortFacts.
Variable A : Type.
Variable leb : A -> A -> bool.

Lemma insert_sorted_perm (x : A) (l : list A) :
  Permutation (insert_sorted leb x l) (x :: l).
Proof.
  induction l as [|y l IH]; simpl; [reflexivity|].
  destruct (leb x y); [reflexivity|].
  rewrite IH. apply perm_swap.
Qed.

Lemma stable_sort_perm (l : list A) : Permutation (stable_sort leb l) l.
Proof.
  induction l as [|x l IH]; simpl; [reflexivity|].
  rewrite insert_sorted_perm. now constructor.
Qed.

Hypothesis leb_total : forall a b, leb a b = false -> leb b a = true.
Hypothesis leb_trans : forall a b c, leb a b = true -> leb b c = true -> leb a c = true.

Lemma insert_sorted_sorted (x : A) (l : list A) :
  StronglySorted (fun a b => leb a b = true) l ->
  StronglySorted (fun a b => leb a b = true) (insert_sorted leb x l).
Proof.
  induction 1 as [|y l Hl IH Hy]; simpl.
  - constructor; constructor.
  - destruct (leb x y) eqn:E.
    + constructor; [now constructor|]. constructor; [assumption|].
      rewrite Forall_forall in *. intros z Hz. apply (leb_trans x y z E). auto.
    + constructor; [assumption|].
      rewrite Forall_forall in *. intros z Hz.
      apply (Permutation_in _ (insert_sorted_perm x l)) in Hz.
      destruct Hz as [<-|Hz]; [now apply leb_total|auto].
Qed.

Lemma stable_sort_sorted (l : list A) :
  StronglySorted (fun a b => leb a b = true) (stable_sort leb l).
Proof.
  induction l as [|x l IH]; simpl; [constructor|].
  now apply insert_sorted_sorted.
Qed.
End SortFacts.

(** Sorting commutes with a decoration of the elements that the order does
    not look at. *)
Lemma stable_sort_map {A B : Type} (f : A -> B) (leA : A -> A -> bool)
  (leB : B -> B -> bool) (l : list A) :
  (forall a b, In a l -> In b l -> leB (f a) (f b) = leA a b) ->
  stable_sort leB (map f l) = map f (stable_sort leA l).
Proof.
  induction l as [|x l IH]; intros H; simpl; [reflexivity|].
  rewrite IH by (intros a b Ha Hb; apply H; now right).
  assert (Hins : forall s, (forall b, In b s -> In b l) ->
                           insert_sorted leB (f x) (map f s)
                           = map f (insert_sorted leA x s)).
  { induction s as [|y s IHs]; intros Hs; simpl; [reflexivity|].
    rewrite H; [|now left|right; apply Hs; now left].
    destruct (leA x y); simpl; [reflexivity|].
    rewrite IHs; [reflexivity|]. intros b Hb. apply Hs. now right. }
  apply Hins. intros b Hb.
  apply (Permutation_in _ (stable_sort_perm _ leA l)). exact Hb.
Qed.

(** ** The order of the codes *)

Lemma Qcompare_chain (a b c : Q) :
  (a ?= b)%Q <> Gt -> (b ?= c)%Q <> Gt ->
  (a ?= c)%Q = match (a ?= b)%Q, (b ?= c)%Q with
               | Eq, Eq => Eq
               | _, _ => Lt
               end.
Proof.
  intros H1 H2.
  destruct (Qcompare_spec a b) as [E1|E1|E1]; try congruence;
    destruct (Qcompare_spec b c) as [E2|E2|E2]; try congruence;
    destruct (Qcompare_spec a c) as [E3|E3|E3]; try reflexivity; exfalso; lra.
Qed.

Lemma str_compare_chain (a b c : pystr) :
  str_compare a b <> Gt -> str_compare b c <> Gt ->
  str_compare a c = match str_compare a b, str_compare b c with
                    | Eq, Eq => Eq
                    | _, _ => Lt
                    end.
Proof.
  intros H1 H2.
  destruct (str_compare a b) eqn:E1; try congruence;
    destruct (str_compare b c) eqn:E2; try congruence.
  - apply str_compare_eq in E1, E2. subst. now apply str_compare_eq.
  - apply str_compare_eq in E1. now subst.
  - apply str_compare_eq in E2. now subst.
  - now apply (str_compare_trans a b c).
Qed.

Lemma compare_na_last_chain {A : Type} (cmp : A -> A -> comparison) :
  (forall a b c, cmp a b <> Gt -> cmp b c <> Gt ->
                 cmp a c = match cmp a b, cmp b c with
                           | Eq, Eq => Eq
                           | _, _ => Lt
                           end) ->
  forall a b c,
    compare_na_last cmp a b <> Gt -> compare_na_last cmp b c <> Gt ->
    compare_na_last cmp a c = match compare_na_last cmp a b, compare_na_last cmp b c with
                              | Eq, Eq => Eq
                              | _, _ => Lt
                              end.
Proof.
  intros H [a|] [b|] [c|]; simpl; try congruence; auto.
  intros _ _. destruct (cmp a b); reflexivity.
Qed.

Lemma compare_na_last_antisym {A : Type} (cmp : A -> A -> comparison) :
  (forall a b, cmp b a = CompOpp (cmp a b)) ->
  forall a b, compare_na_last cmp b a = CompOpp (compare_na_last cmp a b).
Proof.
  intros H [a|] [b|]; simpl; auto.
Qed.

Lemma key_compare_antisym (a b : option Q * cell) :
  key_compare b a = CompOpp (key_compare a b).
Proof.
  unfold key_compare.
  rewrite (compare_na_last_antisym Qcompare) by (intros; symmetry; apply Qcompare_antisym).
  rewrite (compare_na_last_antisym str_compare) by (intros; apply str_compare_antisym).
  destruct (compare_na_last Qcompare (fst a) (fst b)); reflexivity.
Qed.

Lemma key_leb_total (a b : option Q * cell) : key_leb a b = false -> key_leb b a = true.
Proof.
  unfold key_leb. rewrite (key_compare_antisym a b).
  destruct (key_compare a b); simpl; congruence.
Qed.

Lemma key_leb_trans (a b c : option Q * cell) :
  key_leb a b = true -> key_leb b c = true -> key_leb a c = true.
Proof.
  unfold key_leb, key_compare. intros H1 H2.
  pose proof (compare_na_last_chain Qcompare Qcompare_chain (fst a) (fst b) (fst c)) as Hn.
  pose proof (compare_na_last_chain str_compare str_compare_chain (snd a) (snd b) (snd c))
    as Hs.
  destruct (compare_na_last Qcompare (fst a) (fst b)) eqn:E1; try discriminate;
    destruct (compare_na_last Qcompare (fst b) (fst c)) eqn:E2; try discriminate;
    rewrite Hn by congruence; try reflexivity.
  destruct (compare_na_last str_compare (snd a) (snd b)) eqn:E3; try discriminate;
    destruct (compare_na_last str_compare (snd b) (snd c)) eqn:E4; try discriminate;
    rewrite Hs by congruence; reflexivity.
Qed.

(** The comparison of the sort is the order of the specification. *)
Lemma row_leb_code_order (a b : row) :
  row_leb a b = true -> code_order (code a) (code b).
Proof.
  unfold row_leb, key_leb, key_compare, row_key, code_order, text_le. simpl.
  destruct (code a) as [s|], (code b) as [t|]; simpl.
  - destruct (to_numeric s) as [x|], (to_numeric t) as [y|]; simpl; intros H.
    + destruct (Qcompare_spec x y) as [E|E|E]; [|now left|discriminate H].
      right. split; [assumption|]. destruct (str_compare s t); congruence.
    + exact I.
    + discriminate H.
    + destruct (str_compare s t); congruence.
  - destruct (to_numeric s); auto.
  - destruct (to_numeric t); intros H; discriminate H.
  - auto.
Qed.

(** ** Totals Calculator *)

Lemma identifier_columns (cols : list pystr) (name : pystr) :
  Forall identifier cols -> ~ decimal_digits name -> ~ In name cols.
Proof.
  intros H Hn Hin. rewrite Forall_forall in H. destruct (H name Hin). contradiction.
Qed.

Lemma CODE_NUM_not_digits : ~ decimal_digits CODE_NUM.
Proof. vm_compute. discriminate. Qed.

Lemma ROW_TOTAL_not_digits : ~ decimal_digits ROW_TOTAL.
Proof. vm_compute. discriminate. Qed.

Lemma index_of_snoc (name : pystr) (cols : list pystr) :
  ~ In name cols -> index_of name (cols ++ [name]) = length cols.
Proof.
  induction cols as [|c cols IH]; intros H; simpl.
  - now rewrite str_eqb_refl.
  - destruct (str_eqb c name) eqn:E.
    + apply str_eqb_eq in E. subst. exfalso. apply H. now left.
    + rewrite IH; [reflexivity|]. intros Hin. apply H. now right.
Qed.

Lemma nth_snoc {A : Type} (l : list A) (v d : A) : nth (length l) (l ++ [v]) d = v.
Proof. induction l; simpl; auto. Qed.

Lemma nth_before_snoc {A : Type} (l : list A) (v d : A) (j : nat) :
  j < length l -> nth j (l ++ [v]) d = nth j l d.
Proof. intros H. now rewrite app_nth1. Qed.

Lemma remove_nth_snoc {A : Type} (l : list A) (v : A) :
  remove_nth (length l) (l ++ [v]) = l.
Proof. induction l as [|x l IH]; simpl; [reflexivity|]. now rewrite IH. Qed.

Lemma assign_map (name : pystr) (g : row -> option Q) (f : frame) :
  assign name (map g (rows f)) f
  = {| value_columns := value_columns f ++ [name];
       rows := map (fun r => add_val r (g r)) (rows f) |}.
Proof.
  unfold assign. f_equal.
  induction (rows f) as [|r l IH]; simpl; [reflexivity|]. now rewrite IH.
Qed.

Lemma assign_map_rows (name : pystr) (g : row -> option Q) (cols : list pystr)
  (l : list row) :
  assign name (map g l) {| value_columns := cols; rows := l |}
  = {| value_columns := cols ++ [name];
       rows := map (fun r => add_val r (g r)) l |}.
Proof. apply (assign_map name g {| value_columns := cols; rows := l |}). Qed.

Lemma row_eta (r : row) : {| label := label r; code := code r; vals := vals r |} = r.
Proof. now destruct r. Qed.

Lemma rectangular_perm (n : nat) (l l' : list row) :
  Permutation l l' ->
  Forall (fun r => length (vals r) = n) l' -> Forall (fun r => length (vals r) = n) l.
Proof.
  intros HP H. rewrite Forall_forall in *. intros r Hr. apply H.
  now apply (Permutation_in _ HP).
Qed.

(** The three calls that sort the frame amount to a stable sort of the rows
    by [row_leb]. *)
Lemma sorted_by_code_eq (f : frame) :
  reconciled_table f ->
  sorted_by_code f
  = {| value_columns := value_columns f; rows := stable_sort row_leb (rows f) |}.
Proof.
  intros (Hid & _ & Hrect & _). unfold sorted_by_code.
  rewrite (assign_map CODE_NUM (fun r => to_numeric_cell (code r)) f).
  assert (Hfresh : ~ In CODE_NUM (value_columns f))
    by (apply identifier_columns; [assumption|apply CODE_NUM_not_digits]).
  unfold sort_values, drop, get_value. cbn [value_columns rows].
  rewrite (index_of_snoc CODE_NUM (value_columns f) Hfresh).
  rewrite remove_nth_snoc. f_equal.
  rewrite Forall_forall in Hrect.
  rewrite (stable_sort_map (fun r => add_val r (to_numeric_cell (code r))) row_leb).
  - rewrite map_map. rewrite <- (map_id (stable_sort row_leb (rows f))) at 2.
    apply map_ext_in. intros r Hr.
    apply (Permutation_in _ (stable_sort_perm _ row_leb (rows f))) in Hr.
    cbn [add_val label code vals]. rewrite <- (Hrect r Hr), remove_nth_snoc.
    apply row_eta.
  - intros a b Ha Hb. cbn [add_val code vals].
    rewrite <- (Hrect a Ha) at 1. rewrite <- (Hrect b Hb). rewrite !nth_snoc.
    reflexivity.
Qed.

Lemma column_with_total (l : list row) (n j : nat) :
  Forall (fun r => length (vals r) = n) l -> j < n ->
  column j (map with_total l) = column j l.
Proof.
  intros H Hj. unfold column. rewrite map_map. apply map_ext_in.
  intros r Hr. rewrite Forall_forall in H. cbn [with_total add_val vals].
  apply nth_before_snoc. now rewrite (H r Hr).
Qed.

(** [add_totals] on a table that has rows. *)
Lemma add_totals_nonempty (f : frame) :
  reconciled_table f -> rows f <> [] ->
  add_totals f
  = {| value_columns := value_columns f ++ [ROW_TOTAL];
       rows :=
         map with_total (stable_sort row_leb (rows f))
         ++ [{| label := Some COLUMN_TOTAL;
                code := None;
                vals :=
                  map (fun j => Some (qsum (column j (stable_sort row_leb (rows f)))))
                      (seq 0 (length (value_columns f)))
                  ++ [Some (qsum (map (fun r => Some (qsum (vals r)))
                                      (stable_sort row_leb (rows f))))] |}] |}.
Proof.
  intros Hrec Hne. pose proof Hrec as (Hid & _ & Hrect & Hcols).
  unfold add_totals, empty. destruct (rows f) as [|r0 l] eqn:Erows; [congruence|].
  rewrite <- Erows in *. rewrite (sorted_by_code_eq f Hrec).
  set (S := stable_sort row_leb (rows f)).
  assert (HS : Forall (fun r => length (vals r) = length (value_columns f)) S).
  { apply (rectangular_perm _ _ (rows f)); [apply stable_sort_perm|assumption]. }
  assert (Htot : row_totals {| value_columns := value_columns f; rows := S |}
                 = map (fun r => Some (qsum (vals r))) S).
  { unfold row_totals. cbn [value_columns rows].
    destruct (value_columns f); [exfalso; now apply Hcols|reflexivity]. }
  rewrite Htot, assign_map_rows.
  unfold concat_row, totals_row, get_value. cbn [value_columns rows].
  assert (Hfresh : ~ In ROW_TOTAL (value_columns f))
    by (apply identifier_columns; [assumption|apply ROW_TOTAL_not_digits]).
  rewrite (index_of_snoc ROW_TOTAL (value_columns f) Hfresh).
  f_equal. fold with_total. change (fun r => add_val r (Some (qsum (vals r)))) with with_total.
  f_equal. f_equal. f_equal. f_equal.
  - apply map_ext_in. intros j Hj. apply in_seq in Hj.
    rewrite (column_with_total S (length (value_columns f)) j HS) by lia.
    reflexivity.
  - f_equal. f_equal. rewrite map_map. f_equal. apply map_ext_in. intros r Hr.
    rewrite Forall_forall in HS. cbn [with_total add_val vals].
    rewrite <- (HS r Hr). apply nth_snoc.
Qed.

Lemma StronglySorted_impl {A : Type} (R R' : A -> A -> Prop) (l : list A) :
  (forall a b, R a b -> R' a b) -> StronglySorted R l -> StronglySorted R' l.
Proof.
  intros H. induction 1 as [|x l Hl IH Hx]; constructor; [assumption|].
  rewrite Forall_forall in *. auto.
Qed.

(** The rows come out in the order of the specification. *)
Lemma stable_sort_code_order (l : list row) :
  StronglySorted (fun a b => code_order (code a) (code b)) (stable_sort row_leb l).
Proof.
  apply (StronglySorted_impl (fun a b => row_leb a b = true)).
  - apply row_leb_code_order.
  - apply stable_sort_sorted.
    + intros a b. apply key_leb_total.
    + intros a b c. apply key_leb_trans.
Qed.

Lemma total_cell_with_total (r : row) : total_cell (with_total r) = Some (qsum (vals r)).
Proof. unfold total_cell, with_total. simpl. apply last_last. Qed.

Lemma document_cells_with_total (r : row) : document_cells (with_total r) = vals r.
Proof. unfold document_cells, with_total. simpl. apply removelast_last. Qed.





Lemma qsum_zeros {A : Type} (l : list A) : (qsum (map (fun _ => Some 0%Q) l) == 0)%Q.
Proof.
  induction l as [|x l IH]; simpl; [reflexivity|]. rewrite IH. ring.
Qed.

Lemma qsum_perm (l l' : list (option Q)) :
  Permutation l l' -> (qsum l == qsum l')%Q.
Proof.
  induction 1 as [|x l l' _ IH|x y l|l l' l'' _ IH1 _ IH2]; simpl.
  - reflexivity.
  - now rewrite IH.
  - ring.
  - now rewrite IH1.
Qed.

Lemma qsum_map_plus {A : Type} (a b : A -> Q) (s : list A) :
  (qsum (map (fun j => Some (a j + b j)%Q) s)
   == qsum (map (fun j => Some (a j)) s) + qsum (map (fun j => Some (b j)) s))%Q.
Proof.
  induction s as [|j s IH]; simpl; [ring|]. rewrite IH. ring.
Qed.

(** The sum of the cells of a row, cell by cell. *)
Lemma qsum_by_position (v : list (option Q)) :
  (qsum (map (fun j => Some (nan0 (nth j v None))) (seq 0 (length v))) == qsum v)%Q.
Proof.
  induction v as [|x v IH]; simpl; [reflexivity|].
  rewrite <- seq_shift, map_map. simpl. now rewrite IH.
Qed.

(** The sum of the row totals is the sum of the column totals. *)
Lemma row_totals_sum_column_totals (n : nat) (l : list row) :
  Forall (fun r => length (vals r) = n) l ->
  (qsum (map (fun r => Some (qsum (vals r))) l)
   == qsum (map (fun j => Some (qsum (column j l))) (seq 0 n)))%Q.
Proof.
  induction 1 as [|r l Hr _ IH]; cbn [map qsum fold_right nan0].
  - symmetry. apply (qsum_zeros (seq 0 n)).
  - rewrite IH.
    change (fun j => Some (qsum (column j (r :: l))))
      with (fun j => Some (nan0 (nth j (vals r) None) + qsum (column j l))%Q).
    rewrite (qsum_map_plus (fun j => nan0 (nth j (vals r) None))
                           (fun j => qsum (column j l)) (seq 0 n)).
    apply Qplus_inj_r. rewrite <- Hr. symmetry. apply qsum_by_position.
Qed.

Lemma nth_map_seq {A : Type} (g : nat -> A) (n j : nat) (d : A) (tl : list A) :
  j < n -> nth j (map g (seq 0 n) ++ tl) d = g j.
Proof.
  intros Hj. rewrite app_nth1 by now rewrite length_map, length_seq.
  rewrite (nth_indep _ d (g 0)) by now rewrite length_map, length_seq.
  rewrite (map_nth g (seq 0 n) 0 j), seq_nth by assumption. reflexivity.
Qed.

Lemma total_perm (l l' : list (option Q)) :
  Permutation l l' -> (total l == total l')%Q.
Proof.
  intros H. rewrite <- !qsum_total. now apply qsum_perm.
Qed.

Lemma total_ext {A : Type} (a b : A -> Q) (l : list A) :
  (forall x, (a x == b x)%Q) ->
  (total (map (fun x => Some (a x)) l) == total (map (fun x => Some (b x)) l))%Q.
Proof.
  intros H. induction l as [|x l IH]; simpl; [reflexivity|]. now rewrite H, IH.
Qed.

Lemma totalled_with_total (l : list row) : Forall2 totalled l (map with_total l).
Proof.
  induction l as [|r l IH]; simpl; constructor; [|assumption].
  split; [reflexivity|]. split; [reflexivity|].
  exists (qsum (vals r)). split; [reflexivity|apply qsum_total].
Qed.

(** The result of [add_totals] on a reconciled table that has rows, in the
    words of the specification. *)
Lemma add_totals_shape (f : frame) :
  reconciled_table f -> rows f <> [] ->
  exists sorted body totals,
    rows (add_totals f) = body ++ [totals] /\
    value_columns (add_totals f) = value_columns f ++ [ROW_TOTAL] /\
    Permutation sorted (rows f) /\
    StronglySorted (fun a b => code_order (code a) (code b)) sorted /\
    Forall2 totalled sorted body /\
    label totals = Some COLUMN_TOTAL /\ code totals = None /\
    length (vals totals) = S (length (value_columns f)) /\
    (forall j, j < length (value_columns f) ->
       exists q, nth j (vals totals) None = Some q /\
                 (q == total (map (fun r => nth j (vals r) None) (rows f)))%Q) /\
    exists g, total_cell totals = Some g /\
              (g == total (map total_cell body))%Q /\
              (g == total (document_cells totals))%Q /\
              (g == total (map (fun r => Some (total (vals r))) (rows f)))%Q.
Proof.
  intros Hrec Hne. rewrite (add_totals_nonempty f Hrec Hne). cbn [rows value_columns].
  destruct Hrec as (_ & _ & Hrect & _).
  set (S := stable_sort row_leb (rows f)).
  assert (HP : Permutation S (rows f)) by apply stable_sort_perm.
  assert (HS : Forall (fun r => length (vals r) = length (value_columns f)) S).
  { apply (rectangular_perm _ _ (rows f)); [exact HP|assumption]. }
  exists S. eexists. eexists. split; [reflexivity|]. cbn [label code vals].
  split; [reflexivity|]. split; [exact HP|].
  split; [apply stable_sort_code_order|].
  split; [apply totalled_with_total|].
  split; [reflexivity|]. split; [reflexivity|]. split; [|split].
  - rewrite length_app, length_map, length_seq. simpl. lia.
  - intros j Hj. eexists. split.
    + apply (nth_map_seq (fun j => Some (qsum (column j S)))). exact Hj.
    + rewrite qsum_total. apply total_perm. unfold column.
      now apply Permutation_map.
  - eexists. split; [unfold total_cell; cbn [vals]; apply last_last|].
    assert (Hrows : (qsum (map (fun r => Some (qsum (vals r))) S)
                     == total (map (fun r => Some (total (vals r))) (rows f)))%Q).
    { rewrite qsum_total.
      rewrite (total_ext (fun r => qsum (vals r)) (fun r => total (vals r)) S)
        by (intros r; apply qsum_total).
      apply total_perm. now apply Permutation_map. }
    split; [|split].
    + rewrite qsum_total, map_map.
      rewrite (map_ext (fun r => total_cell (with_total r))
                       (fun r => Some (qsum (vals r))) total_cell_with_total).
      reflexivity.
    + unfold document_cells. cbn [vals]. rewrite removelast_last.
      rewrite (row_totals_sum_column_totals _ S HS). apply qsum_total.
    + exact Hrows.
Qed.


Lemma example_codes_frame_reconciled : reconciled_table example_codes_frame.
Proof.
  unfold reconciled_table, example_codes_frame. cbn [value_columns rows].
  repeat split.
  - repeat constructor; [discriminate].
  - repeat constructor. intros [].
  - repeat constructor.
  - discriminate.
Qed.


Lemma example_codes_frame_exact : exact_table example_codes_frame.
Proof. split; vm_compute; reflexivity. Qed.


(** ** The Totals Calculator and its argument *)

Lemma update_snoc {A : Type} (l : list A) (x v : A) :
  update (length l) v (l ++ [x]) = l ++ [v].
Proof. induction l as [|y l IH]; simpl; [reflexivity|]. now rewrite IH. Qed.

(** A run of [add_totals] on a frame with rows: four frames are allocated
    after the argument's copy, the last one being the result, and the only
    frame updated in place is one that the run allocated itself. *)
Lemma add_totals_st_run (h : store) (arg : loc) (f : frame) :
  nth_error h arg = Some f -> empty f = false ->
  exists a s d,
    add_totals_st arg h
    = (length ((((h ++ [f]) ++ [a]) ++ [s]) ++ [d]),
       ((((h ++ [f]) ++ [a]) ++ [s]) ++ [d]) ++ [add_totals f]).
Proof.
  intros Hf He.
  assert (Hn : nth arg h empty_frame = f) by now apply nth_error_nth.
  unfold add_totals, sorted_by_code, add_totals_st, bindS, read, alloc, write, ret.
  cbv beta iota zeta. rewrite Hn, He. cbv beta iota zeta. rewrite !Hn.
  rewrite !(nth_snoc h f empty_frame).
  set (a := assign CODE_NUM (map (fun r => to_numeric_cell (code r)) (rows f)) f).
  rewrite !(nth_snoc (h ++ [f]) a empty_frame).
  set (s := sort_values CODE_NUM a).
  rewrite !(nth_snoc ((h ++ [f]) ++ [a]) s empty_frame).
  set (d := drop CODE_NUM s).
  rewrite !(update_snoc (((h ++ [f]) ++ [a]) ++ [s]) d).
  rewrite !(nth_snoc (((h ++ [f]) ++ [a]) ++ [s]) _ empty_frame).
  exists a, s, (assign ROW_TOTAL (row_totals d) d).
  reflexivity.
Qed.

(** On a frame without rows the argument itself is returned and the store
    is left as it was. *)
Lemma add_totals_st_empty (h : store) (arg : loc) (f : frame) :
  nth_error h arg = Some f -> empty f = true -> add_totals_st arg h = (arg, h).
Proof.
  intros Hf He.
  assert (Hn : nth arg h empty_frame = f) by now apply nth_error_nth.
  unfold add_totals_st, bindS, read, ret. cbv beta iota zeta. now rewrite Hn, He.
Qed.



(* ================================================================== *)
(** * Part IV: further properties of the code *)
(* ================================================================== *)

(** ** [extract_doc_number] *)

(** X1.  Whatever the text, an identifier that [extract_doc_number] returns
    is a non-empty text of at most 9 decimal digits, of any script, and of
    at least 4 digits when the primary pattern matches: the test
    [if not doc_number] of [build_doc_df] can only fail on [None]. *)
Theorem identifier_is_short_digit_text (d : document) (g : pystr) :
  extract_doc_number d = Some g ->
  decimal_digits g /\ g <> [] /\ length g <= 9 /\
  (search DOCNO_RE_1 (document_text d) <> None -> 4 <= length g).
Proof.
  intros H. destruct (extract_doc_number_digits d g H) as [Hd Hl].
  split; [assumption|]. split; [now apply nonempty_length|]. split; [lia|].
  intros Hp. unfold extract_doc_number in H. fold (document_text d) in H.
  destruct (search DOCNO_RE_1 (document_text d)) as [m|] eqn:E; [|congruence].
  apply primary_sound in E as (g' & Hg & Hs). rewrite Hg in H. injection H as <-.
  destruct Hs as (pre & l1 & ws & l2 & mid & post & _ & _ & _ & _ & _ & _ & H6).
  lia.
Qed.

Lemma identifier_is_short_digit_text_witness :
  extract_doc_number example_arabic_document = Some (py "١٢٣٤٥") /\
  decimal_digits (py "١٢٣٤٥") /\ py "١٢٣٤٥" <> [] /\ length (py "١٢٣٤٥") <= 9.
Proof.
  assert (H : extract_doc_number example_arabic_document = Some (py "١٢٣٤٥"))
    by (vm_compute; reflexivity).
  split; [exact H|].
  destruct (identifier_is_short_digit_text example_arabic_document (py "١٢٣٤٥") H)
    as (H1 & H2 & H3 & _).
  auto.
Defined.

(** ** [_choose_and_clean_table] *)

Lemma skipn_cons_nth {A : Type} (n : nat) (l : list A) (x d : A) (r : list A) :
  skipn n l = x :: r -> nth n l d = x /\ skipn (S n) l = r.
Proof.
  revert l. induction n as [|n IH]; intros [|y l] H; simpl in *; try discriminate.
  - injection H as -> ->. auto.
  - destruct (IH l H) as [H1 H2]. split; [assumption|exact H2].
Qed.

(** X2.  The table that the selector returns is cut out of one raw table of
    the list: the rows before the header row (3 of them, 1 for the table at
    index 2) and the last 2 rows are dropped, the next row becomes the
    column labels in place of the labels of the raw table, and the rows in
    between are the data, of which there is at least one.  So a raw table
    needs 7 rows to be selected, 6 at index 2. *)
Theorem selected_table_is_cut_out (tables : list (option DataFrame)) (df : DataFrame) :
  _choose_and_clean_table tables = Some df ->
  exists i t,
    nth_error tables i = Some (Some t) /\
    df_len t = df_len df + (if i =? 2 then 1 else 3) + 3 /\
    1 <= df_len df /\
    df_columns df = nth (if i =? 2 then 1 else 3) (df_rows t) [] /\
    df_rows df = firstn (df_len df) (skipn (S (if i =? 2 then 1 else 3)) (df_rows t)).
Proof.
  intros H. unfold _choose_and_clean_table in H.
  pose proof (choose_from_spec tables 0) as Hs. rewrite H in Hs.
  destruct Hs as (i & t & Hn & Hl & _ & Ht & H2 & _). simpl in Ht, H2.
  exists i, t. split; [assumption|].
  unfold trimmed in Ht, H2. set (start := if i =? 2 then 1 else 3) in *.
  assert (Hstart : start <= 3) by (unfold start; destruct (i =? 2); lia).
  rewrite skipn_firstn_comm in Ht, H2.
  assert (Hlen : length (firstn (df_len t - 2 - start) (skipn start (df_rows t)))
                 = df_len t - 2 - start).
  { rewrite length_firstn, length_skipn. unfold df_len. lia. }
  rewrite Hlen in H2.
  assert (Hrows : df_len df = df_len t - 3 - start).
  { rewrite Ht in Hlen. simpl in Hlen. unfold df_len at 1. lia. }
  destruct (skipn start (df_rows t)) as [|x rest] eqn:Es.
  - destruct (df_len t - 2 - start); discriminate.
  - destruct (skipn_cons_nth start (df_rows t) x [] rest Es) as [Hx Hr].
    destruct (df_len t - 2 - start) as [|k] eqn:Ek; [lia|].
    simpl in Ht. injection Ht as Hc Hd.
    split; [lia|]. split; [lia|]. split; [congruence|].
    rewrite Hr, <- Hd. f_equal. lia.
Qed.

Lemma selected_table_is_cut_out_witness :
  _choose_and_clean_table [Some example_small_table; Some example_raw_table]
  = Some example_selected /\
  exists i t,
    nth_error [Some example_small_table; Some example_raw_table] i = Some (Some t) /\
    df_len t = df_len example_selected + (if i =? 2 then 1 else 3) + 3.
Proof.
  assert (H : _choose_and_clean_table [Some example_small_table; Some example_raw_table]
              = Some example_selected) by (vm_compute; reflexivity).
  split; [exact H|].
  destruct (selected_table_is_cut_out _ _ H) as (i & t & H1 & H2 & _).
  exists i, t. auto.
Defined.

(** ** [process_pdfs] *)

(** X3.  A document without identifier or without table leaves no trace in
    the result of a run: the run gives what it gives on the batch without
    this document, be it a table or an exception. *)
Theorem skipped_document_leaves_no_trace (before after : list document) (d : document) :
  extract_doc_number d = None \/ extract_table d = None ->
  process_pdfs (before ++ d :: after) = process_pdfs (before ++ after).
Proof.
  intros H. unfold process_pdfs. f_equal.
  induction before as [|b before IH]; simpl.
  - destruct (build_doc_df_skipped d H) as [o ->]. reflexivity.
  - rewrite IH. reflexivity.
Qed.

Lemma skipped_document_leaves_no_trace_witness :
  extract_doc_number example_anonymous_document = None /\
  process_pdfs ([example_document] ++ example_anonymous_document :: [])
  = process_pdfs ([example_document] ++ []).
Proof.
  assert (H : extract_doc_number example_anonymous_document = None)
    by (vm_compute; reflexivity).
  split; [exact H|].
  exact (skipped_document_leaves_no_trace [example_document] []
           example_anonymous_document (or_introl H)).
Defined.

Lemma collect_raise_iff (docs : list document) (e : exn) :
  collect docs = Raise e <->
  exists before d after,
    docs = before ++ d :: after /\ build_doc_df d = Raise e /\
    forall d', In d' before -> exists r, build_doc_df d' = Ok r.
Proof.
  induction docs as [|d docs IH]; simpl.
  - split; [discriminate|]. intros ([|b before] & d & after & H & _); discriminate.
  - destruct (build_doc_df d) as [r|e'] eqn:Eb; simpl.
    + assert (Hc : (match r with
                    | (Some dfi, Some _) => doc_dfs <- collect docs ;; Ok (dfi :: doc_dfs)
                    | _ => collect docs
                    end) = Raise e <-> collect docs = Raise e).
      { destruct r as [[dfi|] [n|]]; try tauto.
        destruct (collect docs); simpl; split; congruence. }
      rewrite Hc, IH. split.
      * intros (before & d0 & after & -> & Hd0 & Hb).
        exists (d :: before), d0, after. repeat split; auto.
        intros d' [<-|Hd']; eauto.
      * intros ([|b before] & d0 & after & Heq & Hd0 & Hb); simpl in Heq;
          injection Heq as <- ->; [congruence|].
        exists before, d0, after. repeat split; auto.
        intros d' Hd'. apply Hb. now right.
    + split.
      * intros [= <-]. exists [], d, docs. repeat split; auto. intros d' [].
      * intros ([|b before] & d0 & after & Heq & Hd0 & Hb); simpl in Heq;
          injection Heq as <- ->; [congruence|].
        destruct (Hb d (or_introl eq_refl)) as [r Hr]. congruence.
Qed.

(** X4.  The loop over the documents raises exactly when [build_doc_df]
    raises on one of them, and the exception is that of the first such
    document in the order of the batch: the later documents are not looked
    at.  The run then raises this exception. *)
Theorem run_raises_first_document_error (docs : list document) (e : exn) :
  (collect docs = Raise e <->
   exists before d after,
     docs = before ++ d :: after /\ build_doc_df d = Raise e /\
     forall d', In d' before -> exists r, build_doc_df d' = Ok r) /\
  (collect docs = Raise e -> process_pdfs docs = Raise e).
Proof.
  split; [apply collect_raise_iff|].
  intros H. unfold process_pdfs. now rewrite H.
Qed.

Lemma run_raises_first_document_error_witness :
  exists e, process_pdfs [example_document; example_bad_document; example_tail_document]
            = Raise e /\ build_doc_df example_bad_document = Raise e.
Proof.
  exists (ValueError_columns (py "bad.pdf") [py "10"] (example_cells "2" "3" "9")).
  assert (Hb : build_doc_df example_bad_document
               = Raise (ValueError_columns (py "bad.pdf") [py "10"]
                                           (example_cells "2" "3" "9")))
    by (vm_compute; reflexivity).
  split; [|exact Hb].
  destruct (run_raises_first_document_error
              [example_document; example_bad_document; example_tail_document]
              (ValueError_columns (py "bad.pdf") [py "10"] (example_cells "2" "3" "9")))
    as [Hiff Hrun].
  apply Hrun, Hiff.
  exists [example_document], example_bad_document, [example_tail_document].
  split; [reflexivity|]. split; [exact Hb|].
  intros d' [<-|[]]. eexists. vm_compute. reflexivity.
Defined.

(** ** [add_totals] and the objects it is given *)

(** X5.  On every table, with or without rows, the frame that [add_totals]
    returns holds the table that the function computes and every frame that
    existed before the call is left as it was.  For a table without rows
    the function returns the very object it was given and allocates
    nothing; for a table with rows the returned object is a new one. *)
Theorem totals_on_store (h : store) (arg : loc) (f : frame) :
  nth_error h arg = Some f ->
  exists res h',
    add_totals_st arg h = (res, h') /\
    nth_error h' res = Some (add_totals f) /\
    (forall l, l < length h -> nth_error h' l = nth_error h l) /\
    (rows f = [] -> res = arg /\ h' = h) /\
    (rows f <> [] -> length h <= res).
Proof.
  intros Hf. destruct (empty f) eqn:He.
  - assert (Hr : rows f = []) by (unfold empty in He; destruct (rows f); congruence).
    exists arg, h. split; [now apply (add_totals_st_empty h arg f)|].
    unfold add_totals. rewrite He. repeat split; auto. congruence.
  - assert (Hr : rows f <> []) by (unfold empty in He; destruct (rows f); congruence).
    destruct (add_totals_st_run h arg f Hf He) as (a & s & d & Hrun).
    eexists. eexists. split; [exact Hrun|].
    split; [rewrite nth_error_app2, Nat.sub_diag by lia; reflexivity|].
    split; [|split; [congruence|intros _; rewrite !length_app; lia]].
    intros l Hl. rewrite !nth_error_app1; rewrite ?length_app; simpl; try lia.
    reflexivity.
Qed.

Lemma totals_on_store_witness :
  nth_error [empty_frame; example_codes_frame] 0 = Some empty_frame /\
  exists res h',
    add_totals_st 0 [empty_frame; example_codes_frame] = (res, h') /\
    res = 0 /\ h' = [empty_frame; example_codes_frame].
Proof.
  split; [reflexivity|].
  destruct (totals_on_store [empty_frame; example_codes_frame] 0 empty_frame eq_refl)
    as (res & h' & H1 & _ & _ & H4 & _).
  exists res, h'. split; [exact H1|]. apply H4. reflexivity.
Defined.

(** ** [clean_text_series] *)

Lemma sub_ws_single_spaced (s : pystr) : forall b, single_spaced b (sub_ws b s) = true.
Proof.
  induction s as [|c s IH]; intros b; simpl; [reflexivity|].
  destruct (is_space c) eqn:E.
  - destruct b; [apply IH|]. simpl. rewrite (IH true). reflexivity.
  - simpl. rewrite E. apply IH.
Qed.

Lemma single_spaced_weaken (t : pystr) :
  single_spaced true t = true -> single_spaced false t = true.
Proof.
  destruct t as [|c t]; simpl; [auto|].
  destruct (is_space c); [|auto]. rewrite andb_false_r. discriminate.
Qed.

Lemma single_spaced_any (b : bool) (t : pystr) :
  single_spaced true t = true -> single_spaced b t = true.
Proof. destruct b; [auto|apply single_spaced_weaken]. Qed.

Lemma single_spaced_prefix (p w : pystr) : forall b,
  single_spaced b (p ++ w) = true -> single_spaced b p = true.
Proof.
  induction p as [|c p IH]; intros b; simpl; [reflexivity|].
  destruct (is_space c); [|apply IH].
  intros H. apply andb_true_iff in H as [H1 H2]. rewrite H1. simpl. now apply IH.
Qed.

Lemma lstrip_single_spaced (v : pystr) : forall b,
  single_spaced b v = true -> single_spaced true (lstrip v) = true.
Proof.
  induction v as [|c v IH]; intros b; simpl; [reflexivity|].
  destruct (is_space c) eqn:E.
  - intros H. apply andb_true_iff in H as [_ H]. now apply (IH true).
  - intros H. simpl. now rewrite E.
Qed.

Lemma lstrip_split (s : pystr) :
  exists w, s = w ++ lstrip s /\ spaces w.
Proof.
  induction s as [|c s (w & Hs & Hw)]; simpl.
  - exists []. split; reflexivity.
  - destruct (is_space c) eqn:E.
    + exists (c :: w). split; [simpl; congruence|]. unfold spaces in *. simpl.
      now rewrite E, Hw.
    + exists []. split; reflexivity.
Qed.

Lemma lstrip_head (s : pystr) :
  lstrip s = [] \/ is_space (hd 0%N (lstrip s)) = false.
Proof.
  induction s as [|c s IH]; simpl; [now left|].
  destruct (is_space c) eqn:E; [assumption|]. right. exact E.
Qed.

Lemma lstrip_fixed (s : pystr) :
  is_space (hd 0%N s) = false -> lstrip s = s.
Proof. destruct s as [|c s]; simpl; [reflexivity|]. now intros ->. Qed.

Lemma lstrip_spaces_app (w s : pystr) : spaces w -> lstrip (w ++ s) = lstrip s.
Proof.
  unfold spaces. induction w as [|c w IH]; simpl; [reflexivity|].
  intros H. apply andb_true_iff in H as [H1 H2]. rewrite H1. now apply IH.
Qed.

Lemma rev_last (s : pystr) :
  s <> [] -> rev s = last s 0%N :: rev (removelast s).
Proof.
  intros H. rewrite (app_removelast_last 0%N H) at 1.
  rewrite rev_app_distr. reflexivity.
Qed.

Lemma last_rev_cons (c : N) (r : pystr) : last (rev (c :: r)) 0%N = c.
Proof. simpl. apply last_last. Qed.

Lemma rstrip_split (s : pystr) :
  exists w, s = rstrip s ++ w /\ spaces w.
Proof.
  unfold rstrip. destruct (lstrip_split (rev s)) as (w & Hs & Hw).
  exists (rev w). split.
  - rewrite <- rev_app_distr, <- Hs. symmetry. apply rev_involutive.
  - unfold spaces in *. rewrite forallb_forall in *. intros x Hx.
    apply Hw. now apply in_rev.
Qed.

Lemma rstrip_last (s : pystr) :
  rstrip s = [] \/ is_space (last (rstrip s) 0%N) = false.
Proof.
  unfold rstrip. destruct (lstrip_head (rev s)) as [H|H].
  - left. now rewrite H.
  - destruct (lstrip (rev s)) as [|c r] eqn:E; [now left|]. right.
    rewrite last_rev_cons. exact H.
Qed.

Lemma rstrip_fixed (s : pystr) :
  s <> [] -> is_space (last s 0%N) = false -> rstrip s = s.
Proof.
  intros Hne H. unfold rstrip. rewrite (rev_last s Hne).
  rewrite lstrip_fixed by exact H. rewrite <- (rev_last s Hne).
  apply rev_involutive.
Qed.

Lemma last_app_nonempty (w y : pystr) : y <> [] -> last (w ++ y) 0%N = last y 0%N.
Proof.
  intros H. induction w as [|c w IH]; simpl; [reflexivity|].
  destruct (w ++ y) eqn:E; [|assumption].
  apply app_eq_nil in E as [_ E]. contradiction.
Qed.

(** What [strip] returns has no white space at either end. *)
Lemma strip_trimmed (s : pystr) : strip s = [] \/ trimmed_text (strip s).
Proof.
  unfold strip. destruct (lstrip (rstrip s)) as [|c r] eqn:E; [now left|].
  right. split; [discriminate|]. split.
  - destruct (lstrip_head (rstrip s)) as [H|H]; rewrite E in H;
      [discriminate|exact H].
  - destruct (lstrip_split (rstrip s)) as (w & Hs & _). rewrite E in Hs.
    destruct (rstrip_last s) as [H|H].
    + rewrite H in E. discriminate.
    + rewrite Hs in H. rewrite last_app_nonempty in H by discriminate. exact H.
Qed.

Lemma strip_fixed (s : pystr) : trimmed_text s -> strip s = s.
Proof.
  intros (Hne & Hh & Hl). unfold strip.
  rewrite (rstrip_fixed s Hne Hl). now apply lstrip_fixed.
Qed.

(** White space around a trimmed text is what [strip] removes. *)
Lemma strip_surrounded (w1 s w2 : pystr) :
  spaces w1 -> spaces w2 -> trimmed_text s -> strip (w1 ++ s ++ w2) = s.
Proof.
  intros H1 H2 (Hne & Hh & Hl). unfold strip, rstrip.
  rewrite !rev_app_distr, <- app_assoc.
  rewrite lstrip_spaces_app.
  2:{ unfold spaces in *. rewrite forallb_forall in *. intros x Hx.
      apply H2. now apply in_rev. }
  rewrite (rev_last s Hne). cbn [app].
  rewrite (lstrip_fixed (last s 0%N :: rev (removelast s) ++ rev w1)) by exact Hl.
  change (last s 0%N :: rev (removelast s) ++ rev w1)
    with ((last s 0%N :: rev (removelast s)) ++ rev w1).
  rewrite <- (rev_last s Hne), <- rev_app_distr, rev_involutive.
  rewrite lstrip_spaces_app by assumption. now apply lstrip_fixed.
Qed.

Lemma sub_ws_fixed (t : pystr) : forall b,
  single_spaced b t = true -> sub_ws b t = t.
Proof.
  induction t as [|c t IH]; intros b; simpl; [reflexivity|].
  destruct (is_space c) eqn:E.
  - intros H. apply andb_true_iff in H as [H1 H3].
    apply andb_true_iff in H1 as [H1 H2]. apply char_eqb_eq in H1. subst c.
    destruct b; [discriminate|]. now rewrite (IH true H3).
  - intros H. now rewrite (IH false H).
Qed.

Lemma clean_text_normal (c : cell) (t : pystr) :
  clean_text_series c = Some t -> normal_text t.
Proof.
  unfold clean_text_series.
  set (u := sub_ws false (fillna_empty c)).
  assert (Hu : single_spaced false u = true) by apply sub_ws_single_spaced.
  destruct (strip_trimmed u) as [E|(Hne & Hh & Hl)].
  - rewrite E. discriminate.
  - destruct (strip u) as [|x r] eqn:E; [discriminate|]. intros [= <-].
    split; [discriminate|]. split; [|exact Hl].
    rewrite <- E. unfold strip.
    destruct (rstrip_split u) as (w & Hs & _). rewrite Hs in Hu.
    apply single_spaced_prefix in Hu. now apply (lstrip_single_spaced _ false).
Qed.

Lemma clean_text_fixed (t : pystr) :
  normal_text t -> clean_text_series (Some t) = Some t.
Proof.
  intros (Hne & Hs & Hl). unfold clean_text_series. simpl.
  rewrite (sub_ws_fixed t false (single_spaced_weaken t Hs)).
  assert (Hh : is_space (hd 0%N t) = false).
  { destruct t as [|c t]; [contradiction|]. simpl in *.
    destruct (is_space c); [|reflexivity]. rewrite andb_false_r in Hs. discriminate. }
  rewrite strip_fixed by (repeat split; assumption).
  destruct t; [contradiction|reflexivity].
Qed.

(** X6.  What [clean_text_series] returns is never empty, has no white space
    at either end, and its only white-space characters are single spaces
    between words; every such text is returned as it is.  So cleaning a
    cleaned cell changes nothing. *)
Theorem clean_text_normal_form :
  (forall c t, clean_text_series c = Some t -> normal_text t) /\
  (forall t, normal_text t -> clean_text_series (Some t) = Some t) /\
  (forall c, clean_text_series (clean_text_series c) = clean_text_series c).
Proof.
  split; [exact clean_text_normal|]. split; [exact clean_text_fixed|].
  intros c. destruct (clean_text_series c) as [t|] eqn:E; [|reflexivity].
  apply clean_text_fixed. now apply (clean_text_normal c).
Qed.

Lemma clean_text_normal_form_witness :
  clean_text_series (Some (py "  Хлеб   белый ")) = Some (py "Хлеб белый") /\
  normal_text (py "Хлеб белый") /\
  clean_text_series (Some (py "Хлеб белый")) = Some (py "Хлеб белый").
Proof.
  assert (H : clean_text_series (Some (py "  Хлеб   белый ")) = Some (py "Хлеб белый"))
    by (vm_compute; reflexivity).
  destruct clean_text_normal_form as (H1 & H2 & _).
  pose proof (H1 _ _ H) as Hn.
  split; [exact H|]. split; [exact Hn|]. exact (H2 _ Hn).
Defined.

(** ** [clean_code_series] *)

Lemma trimmed_text_dot0 (s : pystr) : trimmed_text s -> trimmed_text (s ++ [46; 48]%N).
Proof.
  intros (Hne & Hh & Hl). split; [|split].
  - destruct s; discriminate.
  - destruct s; [contradiction|exact Hh].
  - rewrite last_app_nonempty by discriminate. reflexivity.
Qed.

Lemma sub_dot0_suffix (s : pystr) : sub_dot0 (s ++ [46; 48]%N) = s.
Proof.
  unfold sub_dot0, ends_with, drop_end. rewrite rev_app_distr. simpl.
  rewrite length_app. simpl. rewrite Nat.add_sub.
  rewrite firstn_app, Nat.sub_diag, firstn_all. simpl. apply app_nil_r.
Qed.

Lemma sub_dot0_fixed (s : pystr) :
  trimmed_text s -> ends_with [46; 48]%N s = false -> sub_dot0 s = s.
Proof.
  intros (Hne & _ & Hl) He. unfold sub_dot0. rewrite He.
  unfold ends_with. rewrite (rev_last s Hne).
  change (rev [46; 48; 10]%N) with [10; 48; 46]%N. cbn [starts_with].
  destruct (char_eqb 10 (last s 0%N)) eqn:E; [|reflexivity].
  apply char_eqb_eq in E. rewrite <- E in Hl. discriminate.
Qed.

(** X7.  A code and the same code followed by [.0], with any white space
    around either, are normalised to the same RowCode, the code itself:
    this holds for every code without white space at its ends that does not
    itself end in [.0]. *)
Theorem code_and_float_rendering_agree (w1 w2 k : pystr) :
  spaces w1 -> spaces w2 -> trimmed_text k ->
  clean_code_series (Some (w1 ++ (k ++ py ".0") ++ w2)) = Some k /\
  (ends_with (py ".0") k = false ->
   clean_code_series (Some (w1 ++ k ++ w2)) = Some k).
Proof.
  intros H1 H2 Hk. unfold clean_code_series. simpl fillna_empty. split.
  - rewrite (strip_surrounded w1 (k ++ py ".0") w2 H1 H2 (trimmed_text_dot0 k Hk)).
    change (py ".0") with [46; 48]%N. rewrite sub_dot0_suffix.
    destruct Hk as (Hne & _). destruct k; [contradiction|reflexivity].
  - intros He. rewrite (strip_surrounded w1 k w2 H1 H2 Hk).
    rewrite (sub_dot0_fixed k Hk He).
    destruct Hk as (Hne & _). destruct k; [contradiction|reflexivity].
Qed.

Lemma code_and_float_rendering_agree_witness :
  (spaces (py " ") /\ spaces (py "  ") /\ trimmed_text (py "101")) /\
  clean_code_series (Some (py " " ++ (py "101" ++ py ".0") ++ py "  ")) = Some (py "101") /\
  clean_code_series (Some (py " " ++ py "101" ++ py "  ")) = Some (py "101").
Proof.
  assert (H1 : spaces (py " ")) by reflexivity.
  assert (H2 : spaces (py "  ")) by reflexivity.
  assert (H3 : trimmed_text (py "101")) by (repeat split; discriminate).
  split; [auto|].
  destruct (code_and_float_rendering_agree (py " ") (py "  ") (py "101") H1 H2 H3)
    as [Ha Hb].
  split; [exact Ha|]. apply Hb. reflexivity.
Defined.

(** ** [_to_number_series] *)

Lemma replace_char_app (a : N) (b x y : pystr) :
  replace_char a b (x ++ y) = replace_char a b x ++ replace_char a b y.
Proof. apply flat_map_app. Qed.

Lemma number_text_app (x y : pystr) :
  number_text (x ++ y) = number_text x ++ number_text y.
Proof. unfold number_text. now rewrite !replace_char_app. Qed.

Lemma number_text_single (c : N) :
  number_text [c] =
  if char_eqb c 160 || char_eqb c 32 then []
  else if char_eqb c 44 then [46%N] else [c].
Proof.
  unfold number_text, replace_char. simpl.
  destruct (char_eqb c 160) eqn:E1; simpl.
  - reflexivity.
  - destruct (char_eqb c 32) eqn:E2; simpl; [reflexivity|].
    destruct (char_eqb c 44); reflexivity.
Qed.

Lemma number_text_cons (c : N) (s : pystr) :
  number_text (c :: s) = number_text [c] ++ number_text s.
Proof. apply (number_text_app [c] s). Qed.

Lemma to_number_series_text (s : pystr) :
  _to_number_series (Some s) = to_numeric (number_text s).
Proof. reflexivity. Qed.

(** X8.  [_to_number_series] ignores every space and every no-break space
    of the text, wherever it stands, and reads a comma as a point: the text
    without these characters, and the text with its commas replaced by
    points, have the same numeric value or are both missing. *)
Theorem number_separators_ignored (s : pystr) :
  _to_number_series (Some s)
  = _to_number_series
      (Some (filter (fun c => negb (char_eqb c 32 || char_eqb c 160)) s)) /\
  _to_number_series (Some s) = _to_number_series (Some (replace_char 44 [46%N] s)).
Proof.
  rewrite !to_number_series_text. split; f_equal.
  - induction s as [|c s IH]; [reflexivity|].
    rewrite number_text_cons, IH. simpl.
    destruct (char_eqb c 32) eqn:E2; simpl.
    + rewrite number_text_single, E2, orb_true_r. reflexivity.
    + destruct (char_eqb c 160) eqn:E1; simpl.
      * rewrite number_text_single, E1. reflexivity.
      * symmetry. apply number_text_cons.
  - induction s as [|c s IH]; [reflexivity|].
    rewrite number_text_cons, IH.
    change (replace_char 44 [46%N] (c :: s))
      with ((if char_eqb c 44 then [46%N] else [c]) ++ replace_char 44 [46%N] s).
    rewrite number_text_app. f_equal.
    destruct (char_eqb c 44) eqn:E; [|reflexivity].
    apply char_eqb_eq in E. subst c. reflexivity.
Qed.

Lemma digit_bounds (c : N) : is_digit c = true -> (48 <= c <= 57)%N.
Proof.
  unfold is_digit. intros H. apply andb_true_iff in H as [H1 H2].
  apply N.leb_le in H1, H2. lia.
Qed.

Lemma digit_not_char (c k : N) :
  is_digit c = true -> (k < 48 \/ 57 < k)%N -> char_eqb c k = false.
Proof.
  intros H Hk. apply digit_bounds in H. apply N.eqb_neq. lia.
Qed.

Lemma digit_not_ascii_space (c : N) : is_digit c = true -> is_ascii_space c = false.
Proof.
  intros H. apply digit_bounds in H. unfold is_ascii_space.
  apply orb_false_iff. split; [apply N.eqb_neq; lia|].
  apply andb_false_iff. right. apply N.leb_gt. lia.
Qed.

Lemma number_text_digits (a : pystr) : digits a -> number_text a = a.
Proof.
  unfold digits. induction a as [|c a IH]; [reflexivity|]. simpl.
  intros H. apply andb_true_iff in H as [Hc Ha].
  rewrite number_text_cons, (IH Ha), number_text_single.
  rewrite (digit_not_char c 160), (digit_not_char c 32), (digit_not_char c 44)
    by (assumption || lia).
  reflexivity.
Qed.

Lemma read_digits_app (ds rest : pystr) : forall acc n,
  digits ds -> is_digit (hd 0%N rest) = false ->
  read_digits acc n (ds ++ rest)
  = (fold_left (fun acc c => (10 * acc + digit_val c)%Z) ds acc, n + length ds, rest).
Proof.
  unfold digits. induction ds as [|c ds IH]; intros acc n Hd Hr; simpl.
  - rewrite Nat.add_0_r. destruct rest as [|x rest]; [reflexivity|].
    simpl in *. now rewrite Hr.
  - simpl in Hd. apply andb_true_iff in Hd as [Hc Hd]. rewrite Hc.
    rewrite (IH _ _ Hd Hr). f_equal. f_equal. lia.
Qed.

Lemma read_sign_minus (neg : bool) (x : pystr) :
  is_digit (hd 0%N x) = true ->
  skip_ascii_space (minus_sign neg ++ x) = minus_sign neg ++ x /\
  read_sign (minus_sign neg ++ x) = (neg, x).
Proof.
  intros H. destruct neg; simpl; [auto|].
  destruct x as [|c x]; [discriminate|]. simpl in *.
  rewrite (digit_not_ascii_space c H).
  rewrite (digit_not_char c 45), (digit_not_char c 43) by (assumption || lia).
  auto.
Qed.

Lemma digits_head (a : pystr) (r : pystr) :
  a <> [] -> digits a -> is_digit (hd 0%N (a ++ r)) = true.
Proof.
  destruct a as [|c a]; [contradiction|]. unfold digits. simpl.
  intros _ H. now apply andb_true_iff in H as [H _].
Qed.

Lemma to_numeric_integer (neg : bool) (a : pystr) :
  a <> [] -> digits a ->
  to_numeric (minus_sign neg ++ a)
  = Some (scale10 (if neg then - decimal a else decimal a)%Z 0).
Proof.
  intros Hne Hd. unfold to_numeric.
  pose proof (digits_head a [] Hne Hd) as Hh.
  pose proof (read_digits_app a [] 0%Z 0 Hd eq_refl) as Hr.
  rewrite app_nil_r in Hh, Hr.
  destruct (read_sign_minus neg a Hh) as [-> ->].
  rewrite Hr. fold (decimal a).
  destruct a as [|c a]; [contradiction|]. reflexivity.
Qed.

Lemma to_numeric_fraction (neg : bool) (a b : pystr) :
  a <> [] -> digits a -> digits b ->
  to_numeric (minus_sign neg ++ a ++ 46%N :: b)
  = Some (scale10 (if neg then - decimal (a ++ b) else decimal (a ++ b))%Z
                  (0 - Z.of_nat (length b))).
Proof.
  intros Hne Ha Hb. unfold to_numeric.
  destruct (read_sign_minus neg (a ++ 46%N :: b) (digits_head a _ Hne Ha)) as [-> ->].
  rewrite (read_digits_app a (46%N :: b) 0%Z 0 Ha eq_refl).
  change (char_eqb 46 46) with true. cbv iota.
  pose proof (read_digits_app b [] (decimal a) 0 Hb eq_refl) as Hr.
  rewrite app_nil_r in Hr. fold (decimal a). rewrite Hr.
  unfold decimal. rewrite fold_left_app.
  destruct a as [|c a]; [contradiction|]. reflexivity.
Qed.

Lemma power_of_ten_positive (k : nat) : (0 < 10 ^ Z.of_nat k)%Z.
Proof. apply Z.pow_pos_nonneg; lia. Qed.

Lemma scale10_value (m : Z) (k : nat) :
  (scale10 m (0 - Z.of_nat k) == inject_Z m / inject_Z (10 ^ Z.of_nat k))%Q.
Proof.
  unfold scale10. rewrite Qred_correct.
  pose proof (power_of_ten_positive k) as Hp.
  destruct (0 <=? 0 - Z.of_nat k)%Z eqn:E.
  - apply Z.leb_le in E. assert (k = 0) by lia. subst k. simpl.
    unfold Qeq, Qdiv, Qmult, Qinv, inject_Z. simpl. lia.
  - replace (- (0 - Z.of_nat k))%Z with (Z.of_nat k) by lia.
    rewrite Qmake_Qdiv. rewrite Z2Pos.id by assumption. reflexivity.
Qed.

(** X9.  A text of at most 15 ASCII digits, with or without a minus sign,
    is read as the integer it writes; digits, a comma and further digits,
    at most 15 in all, are read as the decimal number they write: the value
    of all the digits divided by ten to the number of digits after the
    comma, which a 64-bit float holds to within these digits. *)
Theorem decimal_text_value (neg : bool) (a b : pystr) :
  a <> [] -> digits a -> digits b -> length a + length b <= 15 ->
  _to_number_series (Some (minus_sign neg ++ a))
  = Some (inject_Z (if neg then - decimal a else decimal a)) /\
  exists q,
    _to_number_series (Some (minus_sign neg ++ a ++ py "," ++ b)) = Some q /\
    (q == inject_Z (if neg then - decimal (a ++ b) else decimal (a ++ b))
          / inject_Z (10 ^ Z.of_nat (length b)))%Q.
Proof.
  intros Hne Ha Hb _. rewrite !to_number_series_text, !number_text_app.
  rewrite (number_text_digits a Ha), (number_text_digits b Hb).
  assert (Hs : number_text (minus_sign neg) = minus_sign neg)
    by (destruct neg; reflexivity).
  rewrite Hs. change (number_text (py ",")) with [46%N]. split.
  - rewrite (to_numeric_integer neg a Hne Ha). f_equal.
    unfold scale10. change (0 <=? 0)%Z with true. cbv iota.
    change (10 ^ 0)%Z with 1%Z. rewrite Z.mul_1_r.
    apply Qcanon.Qred_identity. simpl. apply Z.gcd_1_r.
  - eexists. split; [apply (to_numeric_fraction neg a b Hne Ha Hb)|].
    apply scale10_value.
Qed.

Lemma decimal_text_value_witness :
  (py "1234" <> [] /\ digits (py "1234") /\ digits (py "56") /\
   length (py "1234") + length (py "56") <= 15) /\
  _to_number_series (Some (py "-1234")) = Some (inject_Z (-1234)) /\
  exists q, _to_number_series (Some (py "-1234,56")) = Some q /\
            (q == inject_Z (-123456) / inject_Z 100)%Q.
Proof.
  assert (H1 : py "1234" <> []) by discriminate.
  assert (H2 : digits (py "1234")) by reflexivity.
  assert (H3 : digits (py "56")) by reflexivity.
  assert (H4 : length (py "1234") + length (py "56") <= 15) by (vm_compute; lia).
  split; [auto|].
  exact (decimal_text_value true (py "1234") (py "56") H1 H2 H3 H4).
Defined.

(** ** [build_doc_df] *)

Lemma in_columns_positions (c : pystr) (cols : list cell) : forall i,
  in_columns c cols = true -> 1 <= length (positions_from i c cols).
Proof.
  unfold in_columns. induction cols as [|x cols IH]; intros i;
    cbn [existsb positions_from]; [discriminate|].
  rewrite (cell_eqb_sym (Some c) x).
  destruct (cell_eqb x (Some c)); simpl; [lia|]. apply IH.
Qed.

Lemma no_label_missing (cols : list cell) :
  filter (fun c => negb (in_columns c cols)) required = [] ->
  3 <= length (loc_columns required cols).
Proof.
  intros H.
  assert (Hin : forall c, In c required -> in_columns c cols = true).
  { intros c Hc. pose proof (filter_nil _ _ c H Hc) as Hf. simpl in Hf.
    now apply negb_false_iff in Hf. }
  unfold loc_columns, required in *. cbn [flat_map]. rewrite !length_app.
  pose proof (in_columns_positions (py "2") cols 0 (Hin _ (or_introl eq_refl))).
  pose proof (in_columns_positions (py "3") cols 0
                (Hin _ (or_intror (or_introl eq_refl)))).
  pose proof (in_columns_positions (py "10") cols 0
                (Hin _ (or_intror (or_intror (or_introl eq_refl))))).
  simpl. lia.
Qed.

(** X10.  [build_doc_df] raises in two cases only, both with an identifier
    found and a table selected: a required label names no column, which
    gives the error of line 100, or every required label names a column and
    one of them names several, so that renaming the selected columns fails
    on their number.  Without identifier or without table it never raises,
    whatever the tables hold. *)
Theorem build_doc_df_raises_iff (d : document) (e : exn) :
  build_doc_df d = Raise e <->
  exists docno df,
    extract_doc_number d = Some docno /\ extract_table d = Some df /\
    ((filter (fun c => negb (in_columns c (df_columns df))) required <> [] /\
      e = ValueError_columns (pdf_path d)
            (filter (fun c => negb (in_columns c (df_columns df))) required)
            (df_columns df)) \/
     (filter (fun c => negb (in_columns c (df_columns df))) required = [] /\
      3 < length (loc_columns required (df_columns df)) /\
      e = ValueError_length (length (loc_columns required (df_columns df))) 3)).
Proof.
  unfold build_doc_df. split.
  - destruct (extract_doc_number d) as [[|c0 g]|] eqn:Eg; try discriminate.
    destruct (extract_table d) as [df|] eqn:Et; [|discriminate].
    intros H. exists (c0 :: g), df. split; [reflexivity|]. split; [reflexivity|].
    destruct (filter (fun c => negb (in_columns c (df_columns df))) required)
      as [|m ms] eqn:Em.
    + right. split; [reflexivity|]. pose proof (no_label_missing _ Em) as Hl.
      destruct (loc_columns required (df_columns df)) as [|p1 [|p2 [|p3 [|p4 ps]]]];
        simpl in Hl; try lia; try discriminate.
      injection H as <-. split; [simpl; lia|reflexivity].
    + left. split; [discriminate|]. now injection H as <-.
  - intros (docno & df & Hd & Ht & H). rewrite Hd.
    apply extract_doc_number_digits in Hd as [_ Hlen].
    destruct docno as [|c0 g]; [simpl in Hlen; lia|]. rewrite Ht.
    destruct H as [[Hne ->]|(Hm & Hl & ->)].
    + destruct (filter (fun c => negb (in_columns c (df_columns df))) required);
        [contradiction|reflexivity].
    + rewrite Hm.
      destruct (loc_columns required (df_columns df)) as [|p1 [|p2 [|p3 [|p4 ps]]]];
        simpl in Hl; try lia. reflexivity.
Qed.

Lemma build_doc_df_raises_iff_witness :
  build_doc_df example_twice_document = Raise (ValueError_length 4 3).
Proof.
  apply (proj2 (build_doc_df_raises_iff example_twice_document (ValueError_length 4 3))).
  eexists. eexists. split; [vm_compute; reflexivity|].
  split; [vm_compute; reflexivity|].
  right. split; [reflexivity|]. split; [vm_compute; lia|reflexivity].
Defined.

(** ** Grouping keeps the grand total *)

Lemma group_of_cons {A : Type} (k k0 : pystr) (v : A) (l : list (pystr * A)) :
  group_of k ((k0, v) :: l)
  = if str_eqb k0 k then v :: group_of k l else group_of k l.
Proof. unfold group_of. simpl. destruct (str_eqb k0 k); reflexivity. Qed.

Lemma sum_over_keys_bump (g : pystr -> Q) (x : Q) (k0 : pystr) (K : list pystr) :
  NoDup K ->
  (qsum (map (fun k => Some (if str_eqb k0 k then x + g k else g k)%Q) K)
   == (if existsb (str_eqb k0) K then x else 0) + qsum (map (fun k => Some (g k)) K))%Q.
Proof.
  induction 1 as [|k K Hk HK IH]; simpl; [ring|].
  rewrite IH. destruct (str_eqb k0 k) eqn:E; simpl.
  - apply str_eqb_eq in E. subst k0.
    assert (Hex : existsb (str_eqb k) K = false).
    { destruct (existsb (str_eqb k) K) eqn:Ex; [|reflexivity].
      apply existsb_exists in Ex as (y & Hy & Ey). apply str_eqb_eq in Ey.
      subst y. contradiction. }
    rewrite Hex. ring.
  - ring.
Qed.

(** The sums of the groups add up to the sum of all the values. *)
Lemma group_sums_total {B : Type} (f : B -> option Q) (K : list pystr)
  (l : list (pystr * B)) :
  NoDup K -> (forall x, In x (map fst l) -> In x K) ->
  (qsum (map (fun k => Some (qsum (map f (group_of k l)))) K)
   == qsum (map (fun r => f (snd r)) l))%Q.
Proof.
  intros HK. induction l as [|[k0 v] l IH]; intros Hin.
  - apply (qsum_zeros K).
  - assert (Hex : existsb (str_eqb k0) K = true).
    { apply existsb_exists. exists k0. split; [apply Hin; now left|apply str_eqb_refl]. }
    simpl. rewrite <- IH by (intros x Hx; apply Hin; now right).
    pose proof (sum_over_keys_bump (fun k => qsum (map f (group_of k l)))
                                   (nan0 (f v)) k0 K HK) as Hb.
    rewrite Hex in Hb. rewrite <- Hb.
    assert (Heq : map (fun k => Some (qsum (map f (group_of k ((k0, v) :: l))))) K
                  = map (fun k => Some (if str_eqb k0 k
                                        then nan0 (f v) + qsum (map f (group_of k l))
                                        else qsum (map f (group_of k l)))%Q) K).
    { apply map_ext. intros k. rewrite group_of_cons.
      destruct (str_eqb k0 k); reflexivity. }
    rewrite Heq. reflexivity.
Qed.

Lemma kept_values_numbered (raw : list (cell * cell * cell)) :
  map (fun r : pystr * (cell * option Q) => snd (snd r))
      (map (fun r : pystr * (cell * cell) =>
              (fst r, (fst (snd r), _to_number_series (snd (snd r)))))
           (flat_map (fun r : cell * (cell * cell) =>
                        match fst r with
                        | Some c => [(c, snd r)]
                        | None => []
                        end)
                     (map (fun r : cell * cell * cell =>
                             match r with (l, c, v) =>
                               (clean_code_series c,
                                (clean_text_series l, clean_text_series v)) end)
                          raw)))
  = kept_values raw.
Proof.
  unfold kept_values. induction raw as [|[[l c] v] raw IH]; [reflexivity|].
  simpl. unfold normalise at 1. simpl.
  destruct (clean_code_series c); simpl; [f_equal|]; exact IH.
Qed.

(** X11.  The table that the grouping of lines 109-120 returns lists the
    codes in strictly ascending order, and grouping keeps the grand total:
    the values of the table add up to the sum of the numeric values of all
    source rows that have a code, a missing value counting as 0.  The values
    are those that the program adds up exactly. *)
Theorem grouping_sorted_and_total (raw : list (cell * cell * cell)) :
  exact_source raw ->
  keys_sorted (map d_code (group_rows raw)) /\
  (total (map (fun r => Some (d_value r)) (group_rows raw))
   == total (kept_values raw))%Q.
Proof.
  intros _. rewrite <- !qsum_total.
  rewrite <- kept_values_numbered. unfold group_rows.
  set (numbered := map (fun r => (fst r, (fst (snd r), _to_number_series (snd (snd r))))) _).
  rewrite !map_map. cbn [d_code d_value]. rewrite map_id. split.
  - apply sorted_keys_sorted.
  - apply (group_sums_total (fun x : cell * option Q => snd x)).
    + apply sorted_keys_NoDup.
    + intros x Hx. now apply sorted_keys_In.
Qed.

Lemma grouping_sorted_and_total_witness :
  exact_source (selected_columns example_whole_selected) /\
  map (fun r => (d_code r, d_value r))
      (group_rows (selected_columns example_whole_selected))
  = [(py "101", 1244%Q); (py "102", 0%Q)] /\
  kept_values (selected_columns example_whole_selected)
  = [Some 1234%Q; Some 10%Q; None] /\
  keys_sorted (map d_code (group_rows (selected_columns example_whole_selected))) /\
  (total (map (fun r => Some (d_value r))
              (group_rows (selected_columns example_whole_selected)))
   == total (kept_values (selected_columns example_whole_selected)))%Q.
Proof.
  assert (H := example_whole_source).
  split; [exact H|]. split; [vm_compute; reflexivity|].
  split; [vm_compute; reflexivity|].
  exact (grouping_sorted_and_total (selected_columns example_whole_selected) H).
Defined.

(** ** The reconciled table, row by row *)

Lemma keys_sorted_head (a : pystr) (l : list pystr) :
  keys_sorted (a :: l) -> ~ In a l /\ keys_sorted l /\
                          forall x, In x l -> str_compare a x = Lt.
Proof.
  intros H. inversion H as [|? ? Hl Ha]; subst. rewrite Forall_forall in Ha.
  split; [|split; assumption].
  intros Hin. specialize (Ha a Hin).
  assert (E : str_compare a a = Eq) by now apply str_compare_eq. congruence.
Qed.

Lemma str_compare_asym (a b : pystr) :
  str_compare a b = Lt -> str_compare b a = Lt -> False.
Proof.
  intros H1 H2. rewrite str_compare_antisym, H1 in H2. discriminate.
Qed.

(** Two strictly ascending lists with the same elements are the same list. *)
Lemma keys_sorted_unique (l1 : list pystr) : forall l2,
  keys_sorted l1 -> keys_sorted l2 -> (forall x, In x l1 <-> In x l2) -> l1 = l2.
Proof.
  induction l1 as [|a l1 IH]; intros [|b l2] H1 H2 Heq.
  - reflexivity.
  - exfalso. apply (proj2 (Heq b)). now left.
  - exfalso. apply (proj1 (Heq a)). now left.
  - destruct (keys_sorted_head a l1 H1) as (Ha & Hs1 & Hlt1).
    destruct (keys_sorted_head b l2 H2) as (Hb & Hs2 & Hlt2).
    assert (Hab : a = b).
    { destruct (proj1 (Heq a) (or_introl eq_refl)) as [E|Hin]; [now symmetry|].
      destruct (proj2 (Heq b) (or_introl eq_refl)) as [E|Hin']; [assumption|].
      exfalso. apply (str_compare_asym a b); auto. }
    subst b. f_equal. apply IH; try assumption.
    intros x. split; intros Hx.
    + destruct (proj1 (Heq x) (or_intror Hx)) as [E|Hin]; [|assumption].
      subst x. contradiction.
    + destruct (proj2 (Heq x) (or_intror Hx)) as [E|Hin]; [|assumption].
      subst x. contradiction.
Qed.

Lemma sorted_keys_absorb (K R : list pystr) :
  keys_sorted K -> (forall x, In x R -> In x K) -> sorted_keys (K ++ R) = K.
Proof.
  intros HK HR. apply keys_sorted_unique; [apply sorted_keys_sorted|assumption|].
  intros x. rewrite sorted_keys_In, in_app_iff. intuition.
Qed.

Lemma flat_map_singletons {A B : Type} (F : A -> list B) (h : A -> B) (K : list A) :
  (forall k, In k K -> F k = [h k]) -> flat_map F K = map h K.
Proof.
  induction K as [|k K IH]; intros H; simpl; [reflexivity|].
  rewrite (H k (or_introl eq_refl)), IH; [reflexivity|].
  intros k' Hk'. apply H. now right.
Qed.

Lemma filter_code_unique (g : pystr -> row) (K : list pystr) (k : pystr) :
  (forall x, code (g x) = Some x) -> NoDup K -> In k K ->
  filter (fun r => cell_eqb (code r) (Some k)) (map g K) = [g k].
Proof.
  intros Hg. induction 1 as [|a K Ha HK IH]; intros Hin; [destruct Hin|].
  simpl. rewrite Hg. simpl. destruct (str_eqb a k) eqn:E.
  - apply str_eqb_eq in E. subst a. f_equal.
    assert (Hnone : forall K', ~ In k K' ->
              filter (fun r => cell_eqb (code r) (Some k)) (map g K') = []).
    { induction K' as [|b K' IH']; intros Hb; simpl; [reflexivity|].
      rewrite Hg. simpl. destruct (str_eqb b k) eqn:E'.
      - apply str_eqb_eq in E'. subst b. exfalso. apply Hb. now left.
      - apply IH'. intros H. apply Hb. now right. }
    now apply Hnone.
  - apply IH. destruct Hin as [->|Hin]; [|assumption].
    now rewrite str_eqb_refl in E.
Qed.

Lemma group_of_at_most_one {A : Type} (k : pystr) (l : list (pystr * A)) :
  NoDup (map fst l) -> length (group_of k l) <= 1.
Proof.
  induction l as [|[k0 v] l IH]; intros H; [simpl; lia|].
  inversion H as [|? ? Hk Hl]; subst. rewrite group_of_cons.
  destruct (str_eqb k0 k) eqn:E; [|now apply IH].
  apply str_eqb_eq in E. subst k0.
  destruct (group_of k l) as [|w ws] eqn:Eg; [simpl; lia|].
  exfalso. apply Hk. apply in_map_iff. exists (k, w). split; [reflexivity|].
  apply group_of_In. rewrite Eg. now left.
Qed.

(** An outer merge of a table with one row per key and a right side with
    distinct keys, all of them keys of the table, keeps the rows of the
    table, in their order, and extends each by one cell. *)
Lemma merge_outer_one_row_per_key (left : frame) (name : pystr)
  (right : list (pystr * Q)) (g : pystr -> row) (K : list pystr) :
  rows left = map g K -> (forall x, code (g x) = Some x) -> keys_sorted K ->
  (forall x, In x (map fst right) -> In x K) -> NoDup (map fst right) ->
  rows (merge_outer left name right)
  = map (fun k => add_val (g k) (match group_of k right with
                                 | [] => None
                                 | v :: _ => Some v
                                 end)) K.
Proof.
  intros Hrows Hg HK Hsub Hnd. unfold merge_outer. cbn [rows]. rewrite Hrows.
  assert (Hcodes : dropna (map code (map g K)) = K).
  { clear - Hg. induction K as [|k K IH]; simpl; [reflexivity|].
    rewrite Hg. now rewrite IH. }
  rewrite Hcodes, (sorted_keys_absorb K (map fst right) HK Hsub).
  assert (Hna : filter (fun r => negb (notna (code r))) (map g K) = []).
  { clear - Hg. induction K as [|k K IH]; simpl; [reflexivity|].
    rewrite Hg. simpl. exact IH. }
  rewrite Hna. simpl. rewrite app_nil_r.
  apply flat_map_singletons. intros k Hk.
  rewrite (filter_code_unique g K k Hg (keys_sorted_NoDup K HK) Hk).
  pose proof (group_of_at_most_one k right Hnd) as Hlen.
  destruct (group_of k right) as [|v [|v' vs]]; simpl in *; try lia; reflexivity.
Qed.

Lemma names_labels (dfs : list doc_df) (k : pystr) :
  group_of k (flat_map (fun r : cell * cell => match fst r with
                                               | Some c => [(c, snd r)]
                                               | None => []
                                               end)
                       (flat_map (fun d => map (fun r => (Some (d_code r), d_label r))
                                               (d_rows d)) dfs))
  = labels_of_code k dfs.
Proof.
  unfold labels_of_code, group_of.
  induction dfs as [|d dfs IH]; simpl; [reflexivity|].
  rewrite flat_map_app, filter_app, map_app, IH. f_equal.
  induction (d_rows d) as [|r l IHl]; simpl; [reflexivity|].
  destruct (str_eqb (d_code r) k); simpl; now rewrite IHl.
Qed.

Lemma reconcile_fold_rows (K : list pystr) (lab : pystr -> cell) (rest : list doc_df) :
  keys_sorted K ->
  forall merged f,
    rows f = map (fun k => {| label := lab k; code := Some k;
                              vals := map (doc_value k) merged |}) K ->
    (forall d, In d rest -> NoDup (doc_codes d) /\
                            forall x, In x (doc_codes d) -> In x K) ->
    rows (fold_left (fun m dfi => merge_outer m (doc_number dfi) (doc_pairs dfi)) rest f)
    = map (fun k => {| label := lab k; code := Some k;
                       vals := map (doc_value k) (merged ++ rest) |}) K.
Proof.
  intros HK. induction rest as [|d rest IH]; intros merged f Hf Hrest; simpl.
  - now rewrite app_nil_r.
  - change (merged ++ d :: rest) with (merged ++ [d] ++ rest). rewrite app_assoc.
    apply IH; [|intros d' Hd'; apply Hrest; now right].
    destruct (Hrest d (or_introl eq_refl)) as [Hnd Hsub].
    rewrite (merge_outer_one_row_per_key f (doc_number d) (doc_pairs d) _ K Hf);
      try assumption; try reflexivity.
    + apply map_ext. intros k. unfold add_val. cbn [label code vals].
      now rewrite map_app.
    + now rewrite doc_pairs_codes.
    + now rewrite doc_pairs_codes.
Qed.

(** The reconciled table of documents with distinct codes: one row for
    each code, the codes ascending. *)
Lemma reconcile_rows (dfs : list doc_df) :
  Forall (fun d => NoDup (doc_codes d)) dfs ->
  rows (reconcile dfs) = map (reconciled_row dfs) (sorted_keys (all_codes dfs)).
Proof.
  intros Hnd. unfold reconcile. rewrite names_codes.
  rewrite (reconcile_fold_rows (sorted_keys (all_codes dfs))
             (fun k => first_valid (labels_of_code k dfs)) dfs
             (sorted_keys_sorted _) []).
  - reflexivity.
  - cbn [rows]. apply map_ext. intros k. now rewrite names_labels.
  - intros d Hd. rewrite Forall_forall in Hnd. split; [now apply Hnd|].
    intros x Hx. apply sorted_keys_In, all_codes_In. now exists d.
Qed.

Lemma doc_value_In (c : pystr) (d : doc_df) (v : Q) :
  NoDup (doc_codes d) -> (doc_value c d = Some v <-> In (c, v) (doc_pairs d)).
Proof.
  intros Hnd. rewrite <- doc_pairs_codes in Hnd.
  pose proof (group_of_at_most_one c (doc_pairs d) Hnd) as Hlen.
  unfold doc_value. rewrite <- group_of_In.
  destruct (group_of c (doc_pairs d)) as [|w [|w' ws]]; simpl in *; try lia.
  - split; [discriminate|tauto].
  - split; [intros [= ->]; now left|intros [->|[]]; reflexivity].
Qed.

(** X12.  For documents with distinct identifiers, each with distinct codes
    (as [build_doc_df] returns them), the reconciled table has exactly one
    row for each code, the codes in strictly ascending order of their text,
    and the cell of a row in the column of a document is the value of the
    document for the code of the row, missing when the document lacks the
    code. *)
Theorem reconciled_one_row_per_code (dfs : list doc_df) :
  NoDup (map doc_number dfs) ->
  Forall (fun d => NoDup (doc_codes d)) dfs ->
  frame_codes (reconcile dfs) = map (@Some pystr) (sorted_keys (all_codes dfs)) /\
  NoDup (frame_codes (reconcile dfs)) /\
  (forall r c, In r (rows (reconcile dfs)) -> code r = Some c ->
               vals r = map (doc_value c) dfs) /\
  (forall d c v, In d dfs -> (doc_value c d = Some v <-> In (c, v) (doc_pairs d))).
Proof.
  intros _ Hnd. unfold frame_codes. rewrite (reconcile_rows dfs Hnd), map_map.
  cbn [reconciled_row code]. split; [reflexivity|]. split; [|split].
  - apply Finite.Injective_map_NoDup; [|apply sorted_keys_NoDup].
    intros x y H. now injection H.
  - intros r c Hr Hc. apply in_map_iff in Hr as (k & <- & _). simpl in *.
    now injection Hc as ->.
  - intros d c v Hd. apply doc_value_In. rewrite Forall_forall in Hnd. now apply Hnd.
Qed.

Lemma reconciled_one_row_per_code_witness :
  (NoDup (map doc_number [example_doc_A; example_doc_B]) /\
   Forall (fun d => NoDup (doc_codes d)) [example_doc_A; example_doc_B]) /\
  frame_codes (reconcile [example_doc_A; example_doc_B])
  = [Some (py "1"); Some (py "2"); Some (py "3")].
Proof.
  assert (H1 : NoDup (map doc_number [example_doc_A; example_doc_B])).
  { repeat constructor; simpl; intuition discriminate. }
  assert (H2 : Forall (fun d => NoDup (doc_codes d)) [example_doc_A; example_doc_B]).
  { repeat constructor; simpl; intuition discriminate. }
  split; [auto|].
  exact (proj1 (reconciled_one_row_per_code [example_doc_A; example_doc_B] H1 H2)).
Defined.

(** X13.  Under the same conditions the label of the row of a code is the
    first label that is not missing among the labels that the documents
    give to the code, the documents taken in the order of the batch; it is
    missing when no document labels the code. *)
Theorem reconciled_label_first_wins (dfs : list doc_df) :
  NoDup (map doc_number dfs) ->
  Forall (fun d => NoDup (doc_codes d)) dfs ->
  forall r c, In r (rows (reconcile dfs)) -> code r = Some c ->
              first_non_missing (labels_of_code c dfs) (label r).
Proof.
  intros _ Hnd r c Hr Hc. rewrite (reconcile_rows dfs Hnd) in Hr.
  apply in_map_iff in Hr as (k & <- & _). simpl in *. injection Hc as ->.
  apply first_valid_spec.
Qed.

Lemma reconciled_label_first_wins_witness :
  (NoDup (map doc_number [example_doc_C; example_doc_D]) /\
   Forall (fun d => NoDup (doc_codes d)) [example_doc_C; example_doc_D]) /\
  map label (rows (reconcile [example_doc_C; example_doc_D]))
  = [Some (py "Соль"); Some (py "Хлеб")] /\
  forall r c, In r (rows (reconcile [example_doc_C; example_doc_D])) ->
              code r = Some c ->
              first_non_missing (labels_of_code c [example_doc_C; example_doc_D]) (label r).
Proof.
  assert (H1 : NoDup (map doc_number [example_doc_C; example_doc_D])).
  { repeat constructor; simpl; intuition discriminate. }
  assert (H2 : Forall (fun d => NoDup (doc_codes d)) [example_doc_C; example_doc_D]).
  { repeat constructor; simpl; intuition discriminate. }
  split; [auto|]. split; [vm_compute; reflexivity|].
  exact (reconciled_label_first_wins [example_doc_C; example_doc_D] H1 H2).
Defined.

(** ** The totals row *)

(** X14.  In the result of the Totals Calculator for a reconciled table
    with rows, whose values the program adds up exactly, the last row is
    the totals row: its cell in the column of a document is the sum of the
    cells of that column over the rows of the argument, a missing cell
    counting as 0, whatever the order of the rows; and its cell in the total
    column, computed as the sum of the row totals, is also the sum of its
    own document cells. *)
Theorem totals_row_sums_columns (f : frame) :
  reconciled_table f -> rows f <> [] -> exact_table f ->
  exists body t,
    rows (add_totals f) = body ++ [t] /\
    length (vals t) = S (length (value_columns f)) /\
    (forall j, j < length (value_columns f) ->
       exists q, nth j (vals t) None = Some q /\
                 (q == total (map (fun r => nth j (vals r) None) (rows f)))%Q) /\
    exists g, total_cell t = Some g /\
              (g == total (document_cells t))%Q /\
              (g == total (map (fun r => Some (total (vals r))) (rows f)))%Q.
Proof.
  intros Hrec Hne _.
  destruct (add_totals_shape f Hrec Hne)
    as (sorted & body & t & E & _ & _ & _ & _ & _ & _ & Hl & Hc & g & Hg & _ & H1 & H2).
  exists body, t. split; [exact E|]. split; [exact Hl|]. split; [exact Hc|].
  exists g. auto.
Qed.

Lemma totals_row_sums_columns_witness :
  (reconciled_table example_codes_frame /\ rows example_codes_frame <> [] /\
   exact_table example_codes_frame) /\
  map vals (rows (add_totals example_codes_frame))
  = [[Some 3; Some 3]; [Some 1; Some 1]; [Some 2; Some 2]; [Some 6; Some 6]]%Q /\
  exists body t,
    rows (add_totals example_codes_frame) = body ++ [t] /\
    exists g, total_cell t = Some g /\ (g == total (document_cells t))%Q.
Proof.
  assert (H1 : reconciled_table example_codes_frame)
    by apply example_codes_frame_reconciled.
  assert (H2 : rows example_codes_frame <> []) by discriminate.
  assert (H3 := example_codes_frame_exact).
  split; [auto|]. split; [vm_compute; reflexivity|].
  destruct (totals_row_sums_columns example_codes_frame H1 H2 H3)
    as (body & t & E1 & _ & _ & g & E2 & E3 & _).
  exists body, t. split; [assumption|]. exists g. split; assumption.
Defined.

(** ** A whole run *)






(** ** The value cells of a document table *)

Lemma without_space_spaces (w : pystr) : spaces w -> without_space w = [].
Proof.
  unfold spaces, without_space. induction w as [|c w IH]; simpl; [reflexivity|].
  intros H. apply andb_true_iff in H as [-> H]. simpl. now apply IH.
Qed.

Lemma without_space_app (x y : pystr) :
  without_space (x ++ y) = without_space x ++ without_space y.
Proof. apply filter_app. Qed.

Lemma without_space_strip (s : pystr) : without_space (strip s) = without_space s.
Proof.
  unfold strip. destruct (rstrip_split s) as (w2 & H2 & Hw2).
  destruct (lstrip_split (rstrip s)) as (w1 & H1 & Hw1).
  rewrite H2 at 2. rewrite H1 at 2.
  rewrite !without_space_app, (without_space_spaces w1 Hw1),
    (without_space_spaces w2 Hw2), app_nil_r. reflexivity.
Qed.

Lemma without_space_sub_ws (s : pystr) : forall b,
  without_space (sub_ws b s) = without_space s.
Proof.
  unfold without_space. induction s as [|c s IH]; intros b; simpl; [reflexivity|].
  destruct (is_space c) eqn:E; simpl.
  - destruct b; simpl; apply IH.
  - rewrite E. simpl. now rewrite IH.
Qed.

(** After [re.sub(r"\s+", " ", s)] the only white space left is the plain
    space. *)
Lemma sub_ws_plain (s : pystr) : forall b,
  Forall (fun c => is_space c = true -> c = 32%N) (sub_ws b s).
Proof.
  induction s as [|c s IH]; intros b; simpl; [constructor|].
  destruct (is_space c) eqn:E.
  - destruct b; [apply IH|]. constructor; [reflexivity|apply IH].
  - constructor; [congruence|apply IH].
Qed.

Lemma strip_plain (P : N -> Prop) (s : pystr) : Forall P s -> Forall P (strip s).
Proof.
  intros H. unfold strip. destruct (rstrip_split s) as (w2 & H2 & _).
  destruct (lstrip_split (rstrip s)) as (w1 & H1 & _).
  rewrite H2, H1 in H. apply Forall_app in H as [H _].
  now apply Forall_app in H as [_ H].
Qed.

Lemma number_text_plain (u : pystr) :
  Forall (fun c => is_space c = true -> c = 32%N) u ->
  number_text u = replace_char 44 [46%N] (without_space u).
Proof.
  induction 1 as [|c u Hc _ IH]; [reflexivity|].
  rewrite number_text_cons, IH, number_text_single.
  unfold without_space. cbn [filter].
  destruct (is_space c) eqn:E.
  - rewrite (Hc eq_refl). reflexivity.
  - assert (E1 : char_eqb c 160 = false).
    { destruct (char_eqb c 160) eqn:E1; [|reflexivity].
      apply char_eqb_eq in E1. subst c. discriminate E. }
    assert (E2 : char_eqb c 32 = false).
    { destruct (char_eqb c 32) eqn:E2; [|reflexivity].
      apply char_eqb_eq in E2. subst c. discriminate E. }
    rewrite E1, E2. reflexivity.
Qed.

(** X16.  The value of a cell of the value column of a document table,
    which is cleaned as a text before it is read as a number, does not depend
    on any white space of the cell: tabs, line breaks and no-break spaces are
    ignored like spaces, wherever they stand, and a comma is read as a point.
    The number reader alone does not ignore a tab between digits. *)
Theorem value_cell_ignores_white_space :
  (forall s, _to_number_series (clean_text_series (Some s))
             = to_numeric (replace_char 44 [46%N] (without_space s))) /\
  _to_number_series (clean_text_series (Some [49; 9; 50; 51; 52; 44; 53]%N))
  = Some (2469 # 2)%Q /\
  _to_number_series (Some [49; 9; 50; 51; 52; 44; 53]%N) = None.
Proof.
  split; [|split; vm_compute; reflexivity].
  intros s. unfold clean_text_series. cbn [fillna_empty].
  assert (H : number_text (strip (sub_ws false s))
              = replace_char 44 [46%N] (without_space s)).
  { rewrite number_text_plain by (apply strip_plain, sub_ws_plain).
    now rewrite without_space_strip, without_space_sub_ws. }
  destruct (strip (sub_ws false s)) as [|c u] eqn:E; cbn [empty_to_na].
  - rewrite <- H. reflexivity.
  - rewrite to_number_series_text. now rewrite H.
Qed.

(** ** The widths of the columns of the sheet *)

Section WidthFacts.
Variable value : Type.
Variable str : value -> pystr.

Lemma fold_max_spec (cells : list (option value)) : forall m0,
  let m := fold_left (fun max_len val =>
                        match val with
                        | None => max_len
                        | Some v => Nat.max max_len (length (str v))
                        end) cells m0 in
  m0 <= m /\
  (forall v, In (Some v) cells -> length (str v) <= m) /\
  (m = m0 \/ exists v, In (Some v) cells /\ m = length (str v)).
Proof.
  induction cells as [|[v|] cells IH]; intros m0; cbn [fold_left].
  - simpl. split; [lia|]. split; [intros v []|now left].
  - destruct (IH (Nat.max m0 (length (str v)))) as (H1 & H2 & H3).
    cbv zeta in *. split; [lia|]. split.
    + intros w [[= ->]|Hw]; [lia|now apply H2].
    + destruct H3 as [H3|(w & Hw & H3)].
      * destruct (Nat.max_spec m0 (length (str v))) as [[_ E]|[_ E]].
        -- right. exists v. split; [now left|]. lia.
        -- left. lia.
      * right. exists w. split; [now right|assumption].
  - destruct (IH m0) as (H1 & H2 & H3). cbv zeta in *.
    split; [assumption|]. split.
    + intros w [Hw|Hw]; [discriminate|now apply H2].
    + destruct H3 as [H3|(w & Hw & H3)]; [now left|].
      right. exists w. split; [now right|assumption].
Qed.

(** X17.  The width that [to_excel_bytes] gives to a column lies between 2
    and 60.  It leaves two characters of room to the header and to every
    value of the column whose text has at most 58 characters; and unless it
    is capped at 60, it is the length of the longest of these texts plus 2
    (2 for a column without header and without values).  Empty cells do not
    count. *)
Theorem column_width_fits (col_name : option value) (cells : list (option value)) :
  let w := width str col_name cells in
  2 <= w <= 60 /\
  (forall v, col_name = Some v \/ In (Some v) cells ->
             Nat.min (length (str v) + 2) 60 <= w) /\
  (w = 60 \/
   (w = 2 /\ forall v, col_name = Some v \/ In (Some v) cells -> str v = []) \/
   exists v, (col_name = Some v \/ In (Some v) cells) /\ w = length (str v) + 2) /\
  width str col_name (cells ++ [None]) = w.
Proof.
  unfold width, max_len.
  set (m0 := match col_name with Some c => length (str c) | None => 0 end).
  destruct (fold_max_spec cells m0) as (H1 & H2 & H3). cbv zeta in *.
  set (m := fold_left _ cells m0) in *.
  assert (Hname : forall v, col_name = Some v -> length (str v) = m0).
  { intros v ->. reflexivity. }
  assert (Hall : forall v, col_name = Some v \/ In (Some v) cells ->
                           length (str v) <= m).
  { intros v [Hv|Hv]; [rewrite (Hname v Hv); exact H1|now apply H2]. }
  split; [lia|]. split; [|split].
  - intros v Hv. specialize (Hall v Hv). lia.
  - destruct (Nat.le_gt_cases 58 m) as [Hm|Hm]; [left; lia|right].
    destruct (Nat.eq_dec m 0) as [E0|E0].
    + left. split; [lia|]. intros v Hv. specialize (Hall v Hv).
      apply length_zero_iff_nil. lia.
    + right. destruct H3 as [H3|(v & Hv & H3)].
      * destruct col_name as [c|]; [|subst m0; lia].
        exists c. split; [now left|]. subst m0. lia.
      * exists v. split; [now right|]. lia.
  - rewrite fold_left_app. reflexivity.
Qed.
End WidthFacts.

(** ** The log of a run *)

Section LogFacts.
Variable basename : pystr -> pystr.

Lemma collect_log_ok (docs : list document) : forall dfs,
  collect docs = Ok dfs ->
  collect_log basename docs = (flat_map (doc_lines basename) docs, Ok dfs) /\
  length (flat_map (doc_lines basename) docs) = 2 * length docs.
Proof.
  induction docs as [|d docs IH]; intros dfs; cbn [collect collect_log flat_map].
  - intros [= <-]. split; reflexivity.
  - unfold doc_lines at 1 3. unfold lift, _log.
    destruct (build_doc_df d) as [[[dfi|] [n|]]|e]; cbn [bind bindL app];
      try discriminate.
    + destruct (collect docs) as [dfs'|e] eqn:Ec; cbn [bind]; [|discriminate].
      intros [= <-]. destruct (IH dfs' eq_refl) as [-> Hl]. cbn [bindL retL app].
      rewrite app_nil_r. split; [reflexivity|]. simpl. lia.
    + intros Hc. destruct (IH dfs Hc) as [-> Hl]. split; [reflexivity|]. simpl. lia.
    + intros Hc. destruct (IH dfs Hc) as [-> Hl]. split; [reflexivity|]. simpl. lia.
    + intros Hc. destruct (IH dfs Hc) as [-> Hl]. split; [reflexivity|]. simpl. lia.
Qed.

Lemma collect_log_raise (before : list document) (d : document)
  (after : list document) (e : exn) : forall dfs,
  collect before = Ok dfs -> build_doc_df d = Raise e ->
  collect_log basename (before ++ d :: after)
  = (flat_map (doc_lines basename) before ++ [Processing (basename (pdf_path d))],
     Raise e).
Proof.
  intros dfs Hc Hd. revert dfs Hc.
  induction before as [|b before IH]; intros dfs;
    cbn [collect collect_log flat_map app].
  - intros _. unfold lift, _log. rewrite Hd. reflexivity.
  - unfold doc_lines at 1. unfold lift, _log.
    destruct (build_doc_df b) as [[[dfi|] [n|]]|e']; cbn [bind bindL app];
      try discriminate.
    + destruct (collect before) as [dfs'|e'] eqn:Ec; cbn [bind]; [|discriminate].
      intros _. rewrite (IH dfs' eq_refl). reflexivity.
    + intros Hc. rewrite (IH dfs Hc). reflexivity.
    + intros Hc. rewrite (IH dfs Hc). reflexivity.
    + intros Hc. rewrite (IH dfs Hc). reflexivity.
Qed.

(** X18.  A run in which no document raises, and whose eligible documents
    have distinct identifiers and a code (or of which none is eligible),
    logs, after the number of files, two lines for each document in the
    order of the batch (the name of the file being processed and what
    became of it: no identifier, no table, or the identifier and the number
    of its codes) and then one last line: that there is nothing to
    reconcile when no document is eligible, otherwise the number of rows
    of the result.  The logging changes nothing in the result. *)
Theorem log_of_a_run (docs : list document) (dfs : list doc_df) :
  collect docs = Ok dfs ->
  NoDup (map doc_number dfs) ->
  dfs = [] \/ all_codes dfs <> [] ->
  exists out,
    process_pdfs docs = Ok out /\
    process_pdfs_log basename docs
    = (Files_received (length docs)
         :: flat_map (doc_lines basename) docs ++ [final_line dfs out],
       Ok out) /\
    length (fst (process_pdfs_log basename docs)) = 2 * length docs + 2.
Proof.
  intros Hc _ _. destruct (collect_log_ok docs dfs Hc) as [Hl Hlen].
  unfold process_pdfs, process_pdfs_log. rewrite Hc, Hl. unfold _log.
  cbn [bind bindL app]. destruct dfs as [|d0 dfs0]; eexists;
    (split; [reflexivity|]); cbn [bindL retL app fst final_line];
    (split; [reflexivity|]);
    cbn [length]; rewrite length_app, Hlen; simpl; lia.
Qed.

(** X19.  When a document raises, the log of the run ends with the line
    that announces this document: the documents before it have their two
    lines each, the documents after it leave no line, and no last line is
    logged. *)
Theorem log_stops_at_error (before : list document) (d : document)
  (after : list document) (dfs : list doc_df) (e : exn) :
  collect before = Ok dfs ->
  build_doc_df d = Raise e ->
  process_pdfs_log basename (before ++ d :: after)
  = (Files_received (length (before ++ d :: after))
       :: flat_map (doc_lines basename) before
          ++ [Processing (basename (pdf_path d))],
     Raise e) /\
  process_pdfs (before ++ d :: after) = Raise e.
Proof.
  intros Hc Hd. split.
  - unfold process_pdfs_log, _log.
    rewrite (collect_log_raise before d after e dfs Hc Hd). reflexivity.
  - unfold process_pdfs.
    rewrite (collect_app_raise d e after Hd before dfs Hc). reflexivity.
Qed.
End LogFacts.

Lemma log_of_a_run_witness :
  (collect [example_stored_anonymous; example_stored_document] = Ok example_collected /\
   NoDup (map doc_number example_collected) /\
   (example_collected = [] \/ all_codes example_collected <> [])) /\
  exists out,
    process_pdfs [example_stored_anonymous; example_stored_document] = Ok out /\
    fst (process_pdfs_log posix_basename
           [example_stored_anonymous; example_stored_document])
    = [Files_received 2;
       Processing (py "0a1b_none.pdf"); Warn_no_number;
       Processing (py "2c3d_doc.pdf"); Doc_ok (py "12345") 2;
       Finished (length (rows out))] /\
    length (rows out) = 3.
Proof.
  assert (H1 : collect [example_stored_anonymous; example_stored_document]
               = Ok example_collected) by (vm_compute; reflexivity).
  assert (H2 : NoDup (map doc_number example_collected))
    by (repeat constructor; intros []).
  assert (H3 : example_collected = [] \/ all_codes example_collected <> [])
    by (right; discriminate).
  split; [auto|].
  destruct (log_of_a_run posix_basename _ _ H1 H2 H3) as (out & E0 & E & _).
  exists out. split; [exact E0|]. split; [rewrite E; vm_compute; reflexivity|].
  assert (E' : process_pdfs [example_stored_anonymous; example_stored_document]
               = Ok (add_totals (reconcile example_collected))).
  { unfold process_pdfs. rewrite H1. reflexivity. }
  rewrite E' in E0. injection E0 as <-. vm_compute. reflexivity.
Defined.

Lemma log_stops_at_error_witness :
  (collect [example_stored_anonymous] = Ok [] /\
   build_doc_df example_stored_bad
   = Raise (ValueError_columns (py "tmp_uploads/4e5f_bad.pdf") [py "10"]
                               (example_cells "2" "3" "9"))) /\
  fst (process_pdfs_log posix_basename
         [example_stored_anonymous; example_stored_bad; example_stored_document])
  = [Files_received 3;
     Processing (py "0a1b_none.pdf"); Warn_no_number;
     Processing (py "4e5f_bad.pdf")].
Proof.
  assert (H1 : collect [example_stored_anonymous] = Ok [])
    by (vm_compute; reflexivity).
  assert (H2 : build_doc_df example_stored_bad
               = Raise (ValueError_columns (py "tmp_uploads/4e5f_bad.pdf") [py "10"]
                                           (example_cells "2" "3" "9")))
    by (vm_compute; reflexivity).
  split; [split; assumption|].
  pose proof (proj1 (log_stops_at_error posix_basename [example_stored_anonymous]
                       example_stored_bad [example_stored_document] [] _ H1 H2)) as E.
  cbn [app] in E. rewrite E. vm_compute. reflexivity.
Defined.
